(** * Mask synthesis of the CV photo editor

    A shallow embedding of the mask-synthesis routines of
    [src/app/api/ai/edit-photo/route.ts] (the heuristic subject/background
    classifier) and of the geometric ellipse mask of the earlier revisions of
    that route, together with the properties stated about them.

    Conventions.
    - Integers of the source that only ever hold integral values (widths,
      heights, coordinates, indices, bytes, counters) are [Z].
    - Every other JavaScript number is a binary64 [float] (Rocq's primitive
      floats), so that the arithmetic of the model is the arithmetic of the
      program, rounding included.
    - A typed array ([Uint8Array], [Float32Array], [Buffer]) is a [list]; a read
      out of range yields [None] (JavaScript's [undefined]) and a write out of
      range is dropped, as typed arrays do. *)

From Stdlib Require Import ZArith List Floats QArith Qround Qpower Lia Lqa Permutation Sorted.
From stdpp Require Import base list strings gmap pretty.

Set Warnings "-inexact-float".
Local Open Scope Z_scope.

(** ** Typed arrays and counted loops *)

Module TypedArray.

Definition get {A : Type} (a : list A) (i : Z) : option A :=
  if 0 <=? i then a !! Z.to_nat i else None.

Definition set {A : Type} (a : list A) (i : Z) (v : A) : list A :=
  if 0 <=? i then <[Z.to_nat i := v]> a else a.

(** [new Uint8Array(n)], [new Float32Array(n)]: [n] zero entries. *)
Definition alloc {A : Type} (zero : A) (n : Z) : list A :=
  replicate (Z.to_nat n) zero.

End TypedArray.

Import TypedArray.

(** [for (let i = lo; i < hi; i++)] visits [range lo hi] in order. *)
Definition range (lo hi : Z) : list Z :=
  map (fun k => lo + Z.of_nat k) (seq 0 (Z.to_nat (hi - lo))).

(** [for (let i = 0; i < hi; i += step)] visits [strided hi step]. *)
Definition strided (hi step : Z) : list Z :=
  map (fun k => Z.of_nat k * step) (seq 0 (Z.to_nat ((hi + step - 1) / step))).

(** ** RGBA masks *)

Definition Pixel : Type := Z * Z * Z * Z.

Definition transparent : Pixel := (0, 0, 0, 0).
Definition opaque : Pixel := (255, 255, 255, 255).

(** The four assignments [a[idx] = r; a[idx+1] = g; a[idx+2] = b; a[idx+3] = al]. *)
Definition writeRGBA (a : list Z) (idx : Z) (p : Pixel) : list Z :=
  let '(r, g, b, al) := p in
  set (set (set (set a idx r) (idx + 1) g) (idx + 2) b) (idx + 3) al.

(** The pixel stored at pixel index [i] (bytes [4i .. 4i+3]). *)
Definition pixelAt (a : list Z) (i : Z) : option Pixel :=
  match get a (i * 4), get a (i * 4 + 1), get a (i * 4 + 2), get a (i * 4 + 3) with
  | Some r, Some g, Some b, Some al => Some (r, g, b, al)
  | _, _, _, _ => None
  end.

(** The mask invariant of the data model: [width * height] pixels, each one
    fully transparent black or fully opaque white. *)
Definition binaryMask (width height : Z) (a : list Z) : Prop :=
  Z.of_nat (length a) = width * height * 4 /\
  forall i, 0 <= i < width * height ->
    pixelAt a i = Some transparent \/ pixelAt a i = Some opaque.

Definition isBinaryPixel (p : option Pixel) : bool :=
  match p with
  | Some (r, g, b, al) =>
      ((r =? 0) && (g =? 0) && (b =? 0) && (al =? 0)) ||
      ((r =? 255) && (g =? 255) && (b =? 255) && (al =? 255))
  | None => false
  end.

Definition isBinaryMask (width height : Z) (a : list Z) : bool :=
  (Z.of_nat (length a) =? width * height * 4) &&
  forallb (fun i => isBinaryPixel (pixelAt a i)) (range 0 (width * height)).

(** ** Loop bodies in general form

    Every loop of the program that fills a buffer has a body that stores, at a
    position computed from the loop variables, a value computed from the loop
    variables and from buffers the loop does not write. *)

Section LoopBodies.

Context {I : Type}.
Variable index : I -> Z.

(** A body that stores one entry. *)
Definition storeStep {A : Type} (value : I -> option A) (a : list A) (it : I) : list A :=
  match value it with
  | Some v => set a (index it) v
  | None => a
  end.

(** A body that stores one RGBA pixel. *)
Definition paintStep (decision : I -> option Pixel) (a : list Z) (it : I) : list Z :=
  match decision it with
  | Some p => writeRGBA a (index it * 4) p
  | None => a
  end.

End LoopBodies.

(** The pixel index of the loop variables [(y, x)]. *)
Definition pixelIndex (width : Z) (yx : Z * Z) : Z := fst yx * width + snd yx.

(** The pairs [(y, x)] visited by two nested counted loops. *)
Definition grid (ys xs : list Z) : list (Z * Z) :=
  flat_map (fun y => map (fun x => (y, x)) xs) ys.

(** ** cleanMaskArtifacts and applyEdgeSmoothing *)

(** [x < c] where [x] may be [undefined]: the comparison is then false. *)
Definition ltUndef (x : option Z) (c : Z) : bool :=
  match x with Some v => v <? c | None => false end.

Definition transparencyThreshold : Z := 10.

(** Body of the thresholding loop of [cleanMaskArtifacts] (the statistics it
    gathers are only logged). *)
Definition thresholdStep (rawMaskData : list Z) (cleanedMask : list Z) (i : Z) : list Z :=
  let idx := i * 4 in
  let originalAlpha := get rawMaskData (idx + 3) in
  if ltUndef originalAlpha transparencyThreshold
  then writeRGBA cleanedMask idx transparent
  else writeRGBA cleanedMask idx opaque.

(** The pixel the thresholding loop stores at pixel index [i]. *)
Definition thresholdPixel (rawMaskData : list Z) (i : Z) : Pixel :=
  if ltUndef (get rawMaskData (i * 4 + 3)) transparencyThreshold
  then transparent else opaque.

(** The thresholding loop of [cleanMaskArtifacts]: the binary cleanup. *)
Definition thresholdMask (rawMaskData : list Z) (width height : Z) : list Z :=
  fold_left (thresholdStep rawMaskData) (range 0 (width * height))
    (alloc 0 (width * height * 4)).

Definition Qltb (a b : Q) : bool := (Qnum a * QDen b <? Qnum b * QDen a)%Z.

(** [neighbors.reduce((sum, n) => sum + n, 0)]; an [undefined] neighbour makes
    the sum [NaN], rendered [None]. *)
Definition sumNeighbors (neighbors : list (option Z)) : option Z :=
  fold_left (fun sum n =>
               match sum, n with
               | Some s, Some v => Some (s + v)
               | _, _ => None
               end) neighbors (Some 0).

(** The average of the neighbours. Sums of four bytes and their quarters are
    exact in binary64, so the rational is the number the program computes. *)
Definition avgNeighbors (neighbors : list (option Z)) : option Q :=
  match sumNeighbors neighbors with
  | Some s => Some (inject_Z s / inject_Z (Z.of_nat (length neighbors)))%Q
  | None => None
  end.

(** Comparisons with a possibly-[NaN] average are false on [NaN]. *)
Definition avgLt (a : option Q) (c : Z) : bool :=
  match a with Some q => Qltb q (inject_Z c) | None => false end.
Definition avgGt (a : option Q) (c : Z) : bool :=
  match a with Some q => Qltb (inject_Z c) q | None => false end.

Definition isByte (n : option Z) (c : Z) : bool :=
  match n with Some v => v =? c | None => false end.

Definition neighborsOf (maskData : list Z) (width x y : Z) : list (option Z) :=
  [ get maskData (((y - 1) * width + x) * 4 + 3);
    get maskData (((y + 1) * width + x) * 4 + 3);
    get maskData ((y * width + (x - 1)) * 4 + 3);
    get maskData ((y * width + (x + 1)) * 4 + 3) ].

Definition hasOppositeNeighbor (alpha : Z) (neighbors : list (option Z)) : bool :=
  existsb (fun n => ((alpha =? 0) && isByte n 255) || ((alpha =? 255) && isByte n 0))
    neighbors.

(** What the body of the smoothing loop decides for pixel [(x, y)], reading the
    input buffer only: [Some p] when it stores [p], [None] when it stores
    nothing. *)
Definition smoothDecision (maskData : list Z) (width x y : Z) : option Pixel :=
  let idx := (y * width + x) * 4 in
  match get maskData (idx + 3) with
  | Some alpha =>
      if (alpha =? 0) || (alpha =? 255) then
        let neighbors := neighborsOf maskData width x y in
        if hasOppositeNeighbor alpha neighbors then
          let avgNeighbor := avgNeighbors neighbors in
          if ((alpha =? 0) && avgLt avgNeighbor 64) ||
             ((alpha =? 255) && avgGt avgNeighbor 191)
          then None
          else if avgGt avgNeighbor 127 then Some opaque
          else Some transparent
        else None
      else None
  | None => None
  end.

(** The same decision as a function of the loop variables [(y, x)]. *)
Definition smoothChoice (maskData : list Z) (width : Z) (yx : Z * Z) : option Pixel :=
  smoothDecision maskData width (snd yx) (fst yx).

Definition smoothStep (maskData : list Z) (width : Z) (smoothed : list Z) (yx : Z * Z)
  : list Z :=
  let '(y, x) := yx in
  match smoothDecision maskData width x y with
  | Some p => writeRGBA smoothed ((y * width + x) * 4) p
  | None => smoothed
  end.

(** [applyEdgeSmoothing]: [smoothed] starts as a copy of [maskData]; the two
    nested loops visit the interior rows and columns. *)
Definition applyEdgeSmoothing (maskData : list Z) (width height : Z) : list Z :=
  fold_left
    (fun smoothed y =>
       fold_left (fun smoothed x => smoothStep maskData width smoothed (y, x))
         (range 1 (width - 1)) smoothed)
    (range 1 (height - 1)) maskData.

(** The same pass with the interior pixels visited in an arbitrary order. *)
Definition smoothOver (order : list (Z * Z)) (maskData : list Z) (width : Z) : list Z :=
  fold_left (smoothStep maskData width) order maskData.

(** The coordinates the two loops of the pass visit, in visiting order. *)
Definition interior (width height : Z) : list (Z * Z) :=
  grid (range 1 (height - 1)) (range 1 (width - 1)).

Definition cleanMaskArtifacts (rawMaskData : list Z) (width height : Z) : list Z :=
  let cleanedMask := thresholdMask rawMaskData width height in
  let smoothedMask := applyEdgeSmoothing cleanedMask width height in
  smoothedMask.

(** ** JavaScript numbers *)

Module Js.

Local Open Scope float_scope.

(** An integer read as a number (exact below 2^53). *)
Definition ofZ (z : Z) : float := SF2Prim (binary_normalize prec emax z 0 false).

(** A byte read from a typed array, used in arithmetic: [undefined] is [NaN]. *)
Definition ofByte (x : option Z) : float :=
  match x with Some v => ofZ v | None => nan end.

(** An entry read from a [Float32Array], used in arithmetic. *)
Definition ofEntry (x : option float) : float :=
  match x with Some v => v | None => nan end.

(** [x < c] for an entry read from a [Float32Array]. *)
Definition entryLt (x : option float) (c : float) : bool :=
  match x with Some v => v <? c | None => false end.

(** [Math.floor]. *)
Definition floor (x : float) : float :=
  match Prim2SF x with
  | S754_finite s m e => ofZ (Z.shiftl (cond_Zopp s (Zpos m)) e)
  | _ => x
  end.

(** [Math.round]: the nearest integer, ties towards +infinity. *)
Definition round (x : float) : float :=
  match Prim2SF x with
  | S754_finite s m e =>
      if (0 <=? e)%Z then x
      else
        let r := Z.shiftr (2 * cond_Zopp s (Zpos m) + 2 ^ (- e)) (1 - e) in
        if (r =? 0)%Z && s then neg_zero else ofZ r
  | _ => x
  end.

(** [Math.max] of two numbers. *)
Definition max (a b : float) : float :=
  if is_nan a || is_nan b then nan
  else if a <? b then b
  else if b <? a then a
  else if get_sign a then b else a.

(** [Math.pow(v, 2)]; every square the program takes is of an integer or a
    half-integer of small magnitude, hence exact. *)
Definition pow2 (v : float) : float := v * v.

(** The conversion performed by a store into a [Float32Array]. *)
Definition fround (x : float) : float :=
  match Prim2SF x with
  | S754_finite s m e => SF2Prim (binary_normalize 24 128 (cond_Zopp s (Zpos m)) e s)
  | _ => x
  end.

(** The conversion performed by a store into a [Uint8Array] (ToUint8). *)
Definition toUint8 (x : float) : Z :=
  match Prim2SF x with
  | S754_finite s m e => (cond_Zopp s (Z.shiftl (Zpos m) e)) mod 256
  | _ => 0%Z
  end.

End Js.

(** ** Binary64 numbers as rationals

    The specification of the primitive operations ([FloatAxioms]) describes
    them on significands and exponents. To reason about the order of their
    results, a positive number is located by a significand, an exponent and
    the position of the number within the unit interval above the
    significand. *)

(** Powers of two as rationals. *)
Definition bpow (e : Z) : Q := (2 ^ e)%Q.

(** The rational a finite binary64 number stands for. *)
Definition valueOf (f : spec_float) : Q :=
  match f with
  | S754_finite s m e => inject_Z (cond_Zopp s (Zpos m)) * bpow e
  | _ => 0
  end.

(** [X] lies in [[m * 2^e, (m + 1) * 2^e)], at location [l] of that interval. *)
Definition bracket (X : Q) (m e : Z) (l : location) : Prop :=
  (inject_Z m * bpow e <= X)%Q /\ (X < inject_Z (m + 1) * bpow e)%Q /\
  match l with
  | loc_Exact => (X == inject_Z m * bpow e)%Q
  | loc_Inexact Lt =>
      (inject_Z m * bpow e < X)%Q /\ (2 * X < inject_Z (2 * m + 1) * bpow e)%Q
  | loc_Inexact Eq => (2 * X == inject_Z (2 * m + 1) * bpow e)%Q
  | loc_Inexact Gt => (inject_Z (2 * m + 1) * bpow e < 2 * X)%Q
  end.

Definition bracketRec (X : Q) (mrs : shr_record) (e : Z) : Prop :=
  0 <= shr_m mrs /\ bracket X (shr_m mrs) e (loc_of_shr_record mrs).

(** A positive normal number: sign +, significand of 53 digits, exponent in
    a range. *)
Definition normalPos (lo hi : Z) (f : spec_float) : Prop :=
  exists m e, f = S754_finite false m e /\ 2 ^ 52 <= Zpos m < 2 ^ 53 /\ lo <= e <= hi.

(** [f] is the result of rounding the positive rational [X] to nearest, ties
    to even. *)
Definition roundsTo (X : Q) (lo hi : Z) (f : spec_float) : Prop :=
  exists m l c,
    bracket X m c l /\ 2 ^ 52 <= m < 2 ^ 53 /\ lo <= c /\ c + 1 <= hi /\
    f = if round_nearest_even m l =? 2 ^ 53
        then S754_finite false (Z.to_pos (2 ^ 52)) (c + 1)
        else S754_finite false (Z.to_pos (round_nearest_even m l)) c.

(** Significands of the constants of the ellipse mask: 1.0 and 1.3 (exponent
    -52), 0.3 (exponent -54), 255 (exponent -45). *)
Definition one52 : positive := 4503599627370496.
Definition m13 : positive := 5854679515581645.
Definition m03 : positive := 5404319552844595.
Definition m255 : positive := 8972014882652160.

Definition v03 : Q := inject_Z (Zpos m03) * bpow (-54).

(** ** The heuristic classifier *)

Section Classifier.

Local Open Scope float_scope.

(** [getGrayscale]. *)
Definition getGrayscale (imageData : list Z) (pixelIndex : Z) : float :=
  let idx := (pixelIndex * 3)%Z in
  let r := Js.ofByte (get imageData idx) in
  let g := Js.ofByte (get imageData (idx + 1)%Z) in
  let b := Js.ofByte (get imageData (idx + 2)%Z) in
  Js.round (0.299 * r + 0.587 * g + 0.114 * b).

(** The Sobel gradient of the body of the edge-detection loop. *)
Definition sobelGradient (imageData : list Z) (width x y : Z) : float :=
  let tl := getGrayscale imageData ((y - 1) * width + (x - 1))%Z in
  let tm := getGrayscale imageData ((y - 1) * width + x)%Z in
  let tr := getGrayscale imageData ((y - 1) * width + (x + 1))%Z in
  let ml := getGrayscale imageData (y * width + (x - 1))%Z in
  let mr := getGrayscale imageData (y * width + (x + 1))%Z in
  let bl := getGrayscale imageData ((y + 1) * width + (x - 1))%Z in
  let bm := getGrayscale imageData ((y + 1) * width + x)%Z in
  let br := getGrayscale imageData ((y + 1) * width + (x + 1))%Z in
  let sobelX := (tr + 2 * mr + br) - (tl + 2 * ml + bl) in
  let sobelY := (bl + 2 * bm + br) - (tl + 2 * tm + tr) in
  sqrt (sobelX * sobelX + sobelY * sobelY).

Definition edgeStep (imageData : list Z) (width : Z) (edgeMap : list float) (yx : Z * Z)
  : list float :=
  let '(y, x) := yx in
  let idx := (y * width + x)%Z in
  set edgeMap idx (Js.fround (sobelGradient imageData width x y)).

(** The entry the edge-detection loop stores for the loop variables [(y, x)]. *)
Definition edgeValue (imageData : list Z) (width : Z) (yx : Z * Z) : option float :=
  Some (Js.fround (sobelGradient imageData width (snd yx) (fst yx))).

(** Step 2 of [createBackgroundMask]: the edge map. *)
Definition sobelEdgeMap (imageData : list Z) (width height : Z) : list float :=
  fold_left
    (fun edgeMap y =>
       fold_left (fun edgeMap x => edgeStep imageData width edgeMap (y, x))
         (range 1 (width - 1)) edgeMap)
    (range 1 (height - 1)) (alloc 0 (width * height)).

(** A colour key [`${r},${g},${b}`]; a channel is [None] when it is [NaN]. *)
Definition ColorKey : Type := option Z * option Z * option Z.

Definition channelEqb (a b : option Z) : bool :=
  match a, b with
  | Some u, Some v => (u =? v)%Z
  | None, None => true
  | _, _ => false
  end.

Definition keyEqb (a b : ColorKey) : bool :=
  let '(r1, g1, b1) := a in
  let '(r2, g2, b2) := b in
  channelEqb r1 r2 && channelEqb g1 g2 && channelEqb b1 b2.

(** [Math.floor(v / 32) * 32] of a byte. *)
Definition quantize (v : option Z) : option Z :=
  match v with Some u => Some (u / 32 * 32)%Z | None => None end.

(** [colorMap.set(colorKey, (colorMap.get(colorKey) || 0) + 1)] on a [Map],
    which keeps its keys in insertion order. *)
Fixpoint bumpColor (colorKey : ColorKey) (colorMap : list (ColorKey * Z))
  : list (ColorKey * Z) :=
  match colorMap with
  | [] => [(colorKey, 1%Z)]
  | (k, c) :: rest =>
      if keyEqb k colorKey then (k, (c + 1)%Z) :: rest
      else (k, c) :: bumpColor colorKey rest
  end.

Definition sampleStep : Z := 8.

Definition sampleColor (imageData : list Z) (width : Z) (colorMap : list (ColorKey * Z))
  (yx : Z * Z) : list (ColorKey * Z) :=
  let '(y, x) := yx in
  let idx := ((y * width + x) * 3)%Z in
  let r := quantize (get imageData idx) in
  let g := quantize (get imageData (idx + 1)%Z) in
  let b := quantize (get imageData (idx + 2)%Z) in
  bumpColor (r, g, b) colorMap.

Definition sampleColors (imageData : list Z) (width height : Z) : list (ColorKey * Z) :=
  fold_left
    (fun colorMap y =>
       fold_left (fun colorMap x => sampleColor imageData width colorMap (y, x))
         (strided width sampleStep) colorMap)
    (strided height sampleStep) [].

(** The number of iterations of the two sampling loops: the samples taken. *)
Definition samplesTaken (width height : Z) : Z :=
  Z.of_nat (length (grid (strided height sampleStep) (strided width sampleStep))).

(** The sum of the counts held by a colour map. *)
Definition totalCount (colorMap : list (ColorKey * Z)) : Z :=
  fold_right (fun e acc => snd e + acc)%Z 0%Z colorMap.

(** [.sort((a, b) => b[1] - a[1])]: a stable sort by decreasing count. *)
Fixpoint insertByCount (e : ColorKey * Z) (sorted : list (ColorKey * Z))
  : list (ColorKey * Z) :=
  match sorted with
  | [] => [e]
  | e' :: rest =>
      if (snd e <? snd e')%Z then e' :: insertByCount e rest
      else e :: e' :: rest
  end.

Definition sortByCount (entries : list (ColorKey * Z)) : list (ColorKey * Z) :=
  fold_right insertByCount [] entries.

Record DominantColor : Type := {
  rgb : ColorKey;
  frequency : Z
}.

Record ColorClusters : Type := {
  dominantColors : list DominantColor;
  totalSamples : Z
}.

(** [analyzeColorClusters]. *)
Definition analyzeColorClusters (imageData : list Z) (width height : Z) : ColorClusters :=
  let colorMap := sampleColors imageData width height in
  let sortedColors := take 5 (sortByCount colorMap) in
  {| dominantColors :=
       map (fun '(color, count) => {| rgb := color; frequency := count |}) sortedColors;
     totalSamples := (width * height / (sampleStep * sampleStep))%Z |}.

Definition colorDistance (r g b : float) (dominant : DominantColor) : float :=
  let '(dr, dg, db) := rgb dominant in
  sqrt (Js.pow2 (r - Js.ofByte dr) + Js.pow2 (g - Js.ofByte dg) + Js.pow2 (b - Js.ofByte db)).

(** The score accumulated over the dominant colours for pixel [i]. *)
Definition clusterScore (imageData : list Z) (colorClusters : ColorClusters) (i : Z)
  : float :=
  let pixelIdx := (i * 3)%Z in
  let r := Js.ofByte (get imageData pixelIdx) in
  let g := Js.ofByte (get imageData (pixelIdx + 1)%Z) in
  let b := Js.ofByte (get imageData (pixelIdx + 2)%Z) in
  fold_left
    (fun backgroundScore dominant =>
       if colorDistance r g b dominant <? 60
       then backgroundScore +
            Js.ofZ (frequency dominant) / Js.ofZ (totalSamples colorClusters)
       else backgroundScore)
    (dominantColors colorClusters) 0.

Definition edgeThreshold : float := 30.

Definition backgroundStep (imageData : list Z) (edgeMap : list float)
  (colorClusters : ColorClusters) (backgroundMap : list float) (i : Z) : list float :=
  let gradient := get edgeMap i in
  let isLowEdge := Js.entryLt gradient edgeThreshold in
  if isLowEdge
  then set backgroundMap i (Js.fround (clusterScore imageData colorClusters i))
  else backgroundMap.

(** The entry [detectBackgroundAreas] stores for pixel [i], if it stores one. *)
Definition backgroundValue (imageData : list Z) (edgeMap : list float)
  (colorClusters : ColorClusters) (i : Z) : option float :=
  if Js.entryLt (get edgeMap i) edgeThreshold
  then Some (Js.fround (clusterScore imageData colorClusters i))
  else None.

(** [detectBackgroundAreas]. *)
Definition detectBackgroundAreas (imageData : list Z) (edgeMap : list float)
  (width height : Z) (colorClusters : ColorClusters) : list float :=
  fold_left (backgroundStep imageData edgeMap colorClusters)
    (range 0 (width * height)) (alloc 0 (width * height)).

(** [isBackgroundPixel]. *)
Definition isBackgroundPixel (x y idx : Z) (imageData : list Z) (edgeMap : list float)
  (backgroundAreas : list float) (width height : Z) (colorClusters : ColorClusters)
  : bool :=
  let borderDistance := Z.min (Z.min (Z.min x y) (width - x - 1)) (height - y - 1) in
  let borderBias := if (borderDistance <? 50)%Z then 0.3 else 0 in
  let edgeScore := if Js.entryLt (get edgeMap idx) 25 then 0.4 else 0 in
  let colorScore := Js.ofEntry (get backgroundAreas idx) in
  let centerX := Js.ofZ width / 2 in
  let centerY := Js.ofZ height / 2 in
  let centerDistance :=
    sqrt (Js.pow2 (Js.ofZ x - centerX) + Js.pow2 (Js.ofZ y - centerY)) in
  let maxDistance := sqrt (Js.pow2 centerX + Js.pow2 centerY) in
  let centerBias := (centerDistance / maxDistance) * 0.2 in
  let backgroundScore := borderBias + edgeScore + colorScore + centerBias in
  0.5 <? backgroundScore.

End Classifier.

(** ** createBackgroundMask (heuristic classifier) *)

Record MaskState : Type := {
  rawMaskData : list Z;
  protectedPixels : Z;
  editablePixels : Z;
  backgroundDetected : Z
}.

(** Body of the mask-emission loop (Step 4). *)
Definition emitStep (imageData : list Z) (edgeMap backgroundAreas : list float)
  (width height : Z) (colorClusters : ColorClusters) (st : MaskState) (yx : Z * Z)
  : MaskState :=
  let '(y, x) := yx in
  let idx := y * width + x in
  let maskIdx := idx * 4 in
  let isBackground :=
    isBackgroundPixel x y idx imageData edgeMap backgroundAreas width height
      colorClusters in
  if isBackground then
    {| rawMaskData := writeRGBA (rawMaskData st) maskIdx transparent;
       protectedPixels := protectedPixels st;
       editablePixels := editablePixels st + 1;
       backgroundDetected := backgroundDetected st + 1 |}
  else
    {| rawMaskData := writeRGBA (rawMaskData st) maskIdx opaque;
       protectedPixels := protectedPixels st + 1;
       editablePixels := editablePixels st;
       backgroundDetected := backgroundDetected st |}.

(** The pixel the mask-emission loop stores for the loop variables [(y, x)]. *)
Definition emitPixel (imageData : list Z) (edgeMap backgroundAreas : list float)
  (width height : Z) (colorClusters : ColorClusters) (yx : Z * Z) : Pixel :=
  if isBackgroundPixel (snd yx) (fst yx) (fst yx * width + snd yx) imageData edgeMap
       backgroundAreas width height colorClusters
  then transparent else opaque.

Definition emitMask (imageData : list Z) (edgeMap backgroundAreas : list float)
  (width height : Z) (colorClusters : ColorClusters) : MaskState :=
  fold_left
    (fun st y =>
       fold_left
         (fun st x =>
            emitStep imageData edgeMap backgroundAreas width height colorClusters st (y, x))
         (range 0 width) st)
    (range 0 height)
    {| rawMaskData := alloc 0 (width * height * 4);
       protectedPixels := 0; editablePixels := 0; backgroundDetected := 0 |}.

(** Steps 2 to 4 of [createBackgroundMask]: from the decoded raster to the raw
    mask and its counters. *)
Definition classify (imageData : list Z) (width height : Z) : MaskState :=
  let edgeMap := sobelEdgeMap imageData width height in
  let colorClusters := analyzeColorClusters imageData width height in
  let backgroundAreas :=
    detectBackgroundAreas imageData edgeMap width height colorClusters in
  emitMask imageData edgeMap backgroundAreas width height colorClusters.

(** The [console.warn] diagnostics of the validation block. *)
Inductive Warning : Type :=
| NoBackgroundDetected
| NoSubjectDetected
| SmallBackgroundArea.

Definition validateMask (st : MaskState) (width height : Z) : list Warning :=
  (if editablePixels st =? 0 then [NoBackgroundDetected] else []) ++
  (if protectedPixels st =? 0 then [NoSubjectDetected] else []) ++
  (if (Js.ofZ (backgroundDetected st) <? Js.ofZ (width * height) * 0.1)%float
   then [SmallBackgroundArea] else []).

(** The result of the call: the mask raster handed to the PNG encoder together
    with the warnings logged, or the exception of the [catch] block. *)
Inductive Outcome : Type :=
| Returned (mask : list Z) (warnings : list Warning)
| Thrown.

(** [createBackgroundMask], from the decoded raster [imageData] on. Allocating
    a typed array of negative length raises a [RangeError], which the [catch]
    block turns into the function's error. *)
Definition createBackgroundMask (imageData : list Z) (width height : Z) : Outcome :=
  if width * height <? 0 then Thrown
  else
    let st := classify imageData width height in
    let cleanedMaskData := cleanMaskArtifacts (rawMaskData st) width height in
    let warnings := validateMask st width height in
    Returned cleanedMaskData warnings.

(** ** The geometric ellipse mask *)

Module Ellipse.

Section Band.

Local Open Scope float_scope.

(** The value the transition branch assigns to [alpha]. *)
Definition bandAlpha (distance : float) : float :=
  let falloff := Js.max 0 ((1.3 - distance) / 0.3) in
  Js.floor (255 * falloff).

(** The value of the local variable [alpha] as a function of [distance]. *)
Definition alphaOf (distance : float) : float :=
  if distance <=? 1.0 then 255
  else if distance <=? 1.3 then bandAlpha distance
  else 0.

End Band.

Section Mask.

Local Open Scope float_scope.

(** The radius fractions: [0.25] and [0.3] in one revision of the route,
    [0.35] and [0.4] in the other. *)
Variables fractionX fractionY : float.

Definition distanceAt (width height x y : Z) : float :=
  let centerX := Js.ofZ width / 2 in
  let centerY := Js.ofZ height / 2 in
  let protectedRadiusX := Js.ofZ width * fractionX in
  let protectedRadiusY := Js.ofZ height * fractionY in
  let normalizedX := (Js.ofZ x - centerX) / protectedRadiusX in
  let normalizedY := (Js.ofZ y - centerY) / protectedRadiusY in
  sqrt (normalizedX * normalizedX + normalizedY * normalizedY).

(** The pixel the loop stores for the loop variables [(y, x)]. *)
Definition maskPixel (width height : Z) (yx : Z * Z) : Pixel :=
  let alpha := alphaOf (distanceAt width height (snd yx) (fst yx)) in
  (Js.toUint8 alpha, Js.toUint8 alpha, Js.toUint8 alpha, 255%Z).

Definition maskStep (width height : Z) (maskData : list Z) (yx : Z * Z) : list Z :=
  let '(y, x) := yx in
  let idx := ((y * width + x) * 4)%Z in
  let distance := distanceAt width height x y in
  let alpha := alphaOf distance in
  writeRGBA maskData idx (Js.toUint8 alpha, Js.toUint8 alpha, Js.toUint8 alpha, 255%Z).

Definition ellipseMask (width height : Z) : list Z :=
  fold_left
    (fun maskData y =>
       fold_left (fun maskData x => maskStep width height maskData (y, x))
         (range 0 width) maskData)
    (range 0 height) (alloc 0%Z (width * height * 4)).

End Mask.

(** [createBackgroundMask] of the revision with fractions 0.25 and 0.3. *)
Definition createBackgroundMask : Z -> Z -> list Z := ellipseMask 0.25 0.3.

(** [createBackgroundMask] of [src/app/api/cv/[id]/route.ts]. *)
Definition createBackgroundMaskCv : Z -> Z -> list Z := ellipseMask 0.35 0.4.

(** The alpha of the transition band as the specification words it:
    [255 * max(0, (1.3 - d) / 0.3)]. *)
Definition specBandAlpha (d : float) : float :=
  (255 * Js.max 0 ((1.3 - d) / 0.3))%float.

End Ellipse.

(** ** The composite score as the specification words it *)

Section CompositeScore.

Local Open Scope float_scope.

Definition specBorderBias (width height x y : Z) : float :=
  if (Z.min x (Z.min y (Z.min (width - x - 1) (height - y - 1))) <? 50)%Z
  then 0.3 else 0.

Definition specEdgeScore (gradient : float) : float :=
  if gradient <? 25 then 0.4 else 0.

(** The Euclidean length of an offset. *)
Definition euclid (dx dy : float) : float := sqrt (dx * dx + dy * dy).

(** Distance from the image centre over the distance from the centre to a
    corner, times 0.2. *)
Definition specCenterBias (width height x y : Z) : float :=
  let centerX := Js.ofZ width / 2 in
  let centerY := Js.ofZ height / 2 in
  euclid (Js.ofZ x - centerX) (Js.ofZ y - centerY) / euclid centerX centerY * 0.2.

Definition specBackgroundScore (width height x y : Z) (gradient colorScore : float)
  : float :=
  specBorderBias width height x y + specEdgeScore gradient + colorScore +
  specCenterBias width height x y.

End CompositeScore.

(** ** Concrete rasters *)

(** The RGB raster whose pixels are the given grey levels, in row-major order. *)
Definition grayImage (levels : list Z) : list Z :=
  flat_map (fun v => [v; v; v]) levels.

(** A raster of one grey level. *)
Definition uniformImage (width height level : Z) : list Z :=
  grayImage (replicate (Z.to_nat (width * height)) level).

(** A 4x4 raster, dark on the left and bright on the right. *)
Definition stepImage : list Z :=
  grayImage [ 10; 10; 200; 200;
              10; 10; 200; 200;
              10; 10; 200; 200;
              10; 10; 200; 200 ].


(** The RGBA raster whose pixels have all four channels equal to the given
    values, one per pixel in row-major order. *)
Definition maskOfAlphas (alphas : list Z) : list Z :=
  flat_map (fun al => [al; al; al; al]) alphas.

(** A 4x4 mask with two opaque pixels on a diagonal of the interior. *)
Definition diagonalMask : list Z :=
  maskOfAlphas [ 0;   0;   0; 0;
                 0; 255;   0; 0;
                 0;   0; 255; 0;
                 0;   0;   0; 0 ].

(** ** Rate limiting *)

Module RateLimit.

(** The constant [RATE_LIMIT]. *)
Record Config : Type := {
  maxRequestsPerMinute : Z;
  resetTimeMinutes : Z
}.

(** The values of the map [rateLimitMap]. *)
Record UserLimit : Type := {
  count : Z;
  resetTime : Z
}.

(** [checkRateLimit(ip)], with the reading [now] of the clock and the map
    [rateLimitMap] of the module passed in and the map handed back. *)
Definition checkRateLimit (RATE_LIMIT : Config) (now : Z) (ip : string)
  (rateLimitMap : gmap string UserLimit) : bool * gmap string UserLimit :=
  let userLimit := rateLimitMap !! ip in
  let restart :=
    (true,
     <[ip := {| count := 1;
                resetTime := now + resetTimeMinutes RATE_LIMIT * 60000 |}]> rateLimitMap) in
  match userLimit with
  | None => restart
  | Some userLimit =>
      if now >? resetTime userLimit then restart
      else if count userLimit >=? maxRequestsPerMinute RATE_LIMIT
      then (false, rateLimitMap)
      else (true,
            <[ip := {| count := count userLimit + 1;
                       resetTime := resetTime userLimit |}]> rateLimitMap)
  end.

(** Requests served one after the other: each is the reading of the clock at
    its arrival and the key it is counted under; the result pairs each request
    with the answer of [checkRateLimit]. *)
Fixpoint serve (RATE_LIMIT : Config) (calls : list (Z * string)) (rateLimitMap : gmap string UserLimit)
  : list (Z * string * bool) * gmap string UserLimit :=
  match calls with
  | [] => ([], rateLimitMap)
  | (now, ip) :: rest =>
      let '(ok, rateLimitMap') := checkRateLimit RATE_LIMIT now ip rateLimitMap in
      let '(log, final) := serve RATE_LIMIT rest rateLimitMap' in
      ((now, ip, ok) :: log, final)
  end.

(** Whether an entry of the log is a request of [ip] let through with a clock
    reading in [[lo, hi]]. *)
Definition counted (ip : string) (lo hi : Z) (entry : Z * string * bool) : bool :=
  let '(now, who, ok) := entry in
  ok && bool_decide (who = ip) && (lo <=? now) && (now <=? hi).

Definition admitted (ip : string) (lo hi : Z) (log : list (Z * string * bool)) : Z :=
  Z.of_nat (length (List.filter (counted ip lo hi) log)).

(** How many requests of a key can still be let through with a clock reading
    in a period of the length of the window that starts at [T], given the
    entry of the key. *)
Definition budget (RATE_LIMIT : Config) (T : Z) (userLimit : option UserLimit) : Z :=
  let window := resetTimeMinutes RATE_LIMIT * 60000 in
  let most := maxRequestsPerMinute RATE_LIMIT in
  match userLimit with
  | None => 2 * most - 1
  | Some userLimit =>
      if resetTime userLimit <? T then 2 * most - 1
      else if resetTime userLimit <? T + window
      then Z.max 0 (most - count userLimit) + most
      else Z.max 0 (most - count userLimit)
  end.

End RateLimit.

(** [RATE_LIMIT] of the photo-editing routes and of the photo-generation route. *)
Definition RATE_LIMIT_edit : RateLimit.Config :=
  {| RateLimit.maxRequestsPerMinute := 2; RateLimit.resetTimeMinutes := 1 |}.
Definition RATE_LIMIT_generate : RateLimit.Config :=
  {| RateLimit.maxRequestsPerMinute := 3; RateLimit.resetTimeMinutes := 1 |}.


(** ** Strings of the request handlers

    A JavaScript string is represented by its UTF-8 encoding. *)

Module JsString.

(** Truthiness of a string that may be [null] or [undefined]. *)
Definition truthy (s : option string) : bool :=
  match s with
  | Some s => negb (String.eqb s "")
  | None => false
  end.

(** [a || b] for a string [a] that may be [null] and a string [b]. *)
Definition orElse (a : option string) (b : string) : string :=
  match a with
  | Some s => if String.eqb s "" then b else s
  | None => b
  end.

(** [s.includes(sub)]. *)
Fixpoint includes (s sub : string) : bool :=
  String.prefix sub s ||
  match s with
  | String _ rest => includes rest sub
  | EmptyString => false
  end.

(** [message?.includes(sub)], read as a condition. *)
Definition mentions (message : option string) (sub : string) : bool :=
  match message with
  | Some s => includes s sub
  | None => false
  end.

(** A value interpolated in a template literal. *)
Definition interpolate (s : option string) : string :=
  match s with
  | Some s => s
  | None => "undefined"
  end.

(** White space and line terminators encoded in one byte: TAB, LF, VT, FF, CR
    and SP. *)
Definition whiteSpace1 (a : N) : bool :=
  ((9 <=? a) && (a <=? 13) || (a =? 32))%N.

(** U+00A0. *)
Definition whiteSpace2 (a b : N) : bool :=
  ((a =? 194) && (b =? 160))%N.

(** U+1680, U+2000 to U+200A, U+2028, U+2029, U+202F, U+205F, U+3000 and
    U+FEFF. *)
Definition whiteSpace3 (a b c : N) : bool :=
  ((a =? 225) && (b =? 154) && (c =? 128) ||
   (a =? 226) && (b =? 128) &&
     ((128 <=? c) && (c <=? 138) || (c =? 168) || (c =? 169) || (c =? 175)) ||
   (a =? 226) && (b =? 129) && (c =? 159) ||
   (a =? 227) && (b =? 128) && (c =? 128) ||
   (a =? 239) && (b =? 187) && (c =? 191))%N.

(** Removal of the white space a sequence of bytes starts with; [two] and
    [three] recognise the white space of two and three bytes. *)
Fixpoint dropWhiteSpace (two : N -> N -> bool) (three : N -> N -> N -> bool)
  (l : list N) : list N :=
  match l with
  | a :: r1 =>
      if whiteSpace1 a then dropWhiteSpace two three r1
      else
        match r1 with
        | b :: r2 =>
            if two a b then dropWhiteSpace two three r2
            else
              match r2 with
              | c :: r3 => if three a b c then dropWhiteSpace two three r3 else l
              | [] => l
              end
        | [] => l
        end
  | [] => l
  end.

Definition bytes (s : string) : list N := map Ascii.N_of_ascii (String.list_ascii_of_string s).
Definition ofBytes (l : list N) : string := String.string_of_list_ascii (map Ascii.ascii_of_N l).

(** [s.trim()]. *)
Definition trim (s : string) : string :=
  let start := dropWhiteSpace whiteSpace2 whiteSpace3 (bytes s) in
  let back :=
    dropWhiteSpace (fun a b => whiteSpace2 b a) (fun a b c => whiteSpace3 c b a)
      (rev start) in
  ofBytes (rev back).

End JsString.

(** ** The photo-editing route *)

(** What an asynchronous step completes with: a value, or an [Error] thrown
    with a message. *)
Inductive Completion (A : Type) : Type :=
| Normal (value : A)
| Throw (message : string).

Arguments Normal {A} value.
Arguments Throw {A} message.

(** A [File] of the form data. *)
Record File : Type := {
  fileName : string;
  fileType : string;
  fileSize : Z;
  fileBytes : list Z
}.

(** An entry of the form data: a string or a file. *)
Inductive FormDataEntryValue : Type :=
| EntryString (s : string)
| EntryFile (f : File).

(** What the handler reads of a request: the two headers, and the entries
    [image] and [prompt] of the form data ([None] when [request.formData()]
    rejects). *)
Record FormData : Type := {
  image : option FormDataEntryValue;
  prompt : option FormDataEntryValue
}.

Record Request : Type := {
  xForwardedFor : option string;
  xRealIp : option string;
  formData : option FormData
}.

(** The body and the status of a [NextResponse.json]. *)
Inductive Body : Type :=
| ErrorBody (error : string)
| ImageBody (success : bool) (imageUrl : option string) (message : string).

Record Response : Type := {
  status : Z;
  body : Body
}.

(** The result of [generate_professional_edited_photo]. *)
Record EditResult : Type := {
  success : bool;
  imageUrl : option string;
  error : option string
}.

(** How a call of the image API ends: a response with its [data] (the [url]
    of each item), or an error with its [status] and [message]. *)
Inductive ApiOutcome : Type :=
| Responded (data : option (list (option string)))
| Rejected (status : option Z) (message : option string).

(** The services the route calls: [sharp] (metadata, the resize to a PNG of
    1024x1024, the decoding to a raw RGB raster, the encoding of a raw RGBA
    raster to PNG; [None] when the call rejects) and [openai.images.edit]
    ([None] when it has not settled after 60 seconds). *)
Record Services : Type := {
  sharpMetadata : list Z -> option (option Z * option Z);
  sharpResize : list Z -> option (list Z);
  sharpRaw : list Z -> Z -> Z -> option (list Z);
  sharpPng : list Z -> Z -> Z -> option (list Z);
  imagesEdit : list Z -> list Z -> string -> option ApiOutcome
}.

Module EditPhoto.

Import JsString.

Section Route.

Variable services : Services.

(** Whether [process.env.OPENAI_API_KEY] is set, that is, [openai] is not
    [null]. *)
Variable openai : bool.

(** [metadata.width || 512]. *)
Definition orDefault (dimension : option Z) (default : Z) : Z :=
  match dimension with
  | Some d => if d =? 0 then default else d
  | None => default
  end.

(** [v !== 1024] for a dimension that may be [undefined]. *)
Definition differs (dimension : option Z) (expected : Z) : bool :=
  match dimension with
  | Some d => negb (d =? expected)
  | None => true
  end.

Record PreparedImage : Type := {
  buffer : list Z;
  originalWidth : Z;
  originalHeight : Z
}.

(** [prepareImageForEditing]. *)
Definition prepareImageForEditing (imageBuffer : list Z) : Completion PreparedImage :=
  let failed := Throw "Failed to prepare image for editing" in
  match sharpMetadata services imageBuffer with
  | None => failed
  | Some metadata =>
      let originalWidth := orDefault (fst metadata) 512 in
      let originalHeight := orDefault (snd metadata) 512 in
      match sharpResize services imageBuffer with
      | None => failed
      | Some processedBuffer =>
          match sharpMetadata services processedBuffer with
          | None => failed
          | Some finalMetadata =>
              if differs (fst finalMetadata) 1024 || differs (snd finalMetadata) 1024
              then failed
              else Normal {| buffer := processedBuffer;
                             originalWidth := originalWidth;
                             originalHeight := originalHeight |}
          end
      end
  end.

(** The asynchronous [createBackgroundMask(imageBuffer, width, height)]: the
    raster is decoded, the mask is computed from it and encoded. *)
Definition createBackgroundMaskPng (imageBuffer : list Z) (width height : Z)
  : Completion (list Z) :=
  let failed := Throw "Failed to create AI-powered editing mask" in
  match sharpRaw services imageBuffer width height with
  | None => failed
  | Some imageData =>
      match createBackgroundMask imageData width height with
      | Thrown => failed
      | Returned cleanedMaskData _ =>
          match sharpPng services cleanedMaskData width height with
          | None => failed
          | Some maskBuffer => Normal maskBuffer
          end
      end
  end.

(** The message chosen by the handler of the errors of the image API. *)
Definition apiErrorMessage (status : option Z) (message : option string) : string :=
  let truthyStatus :=
    match status with Some s => negb (s =? 0) | None => false end in
  if truthyStatus then
    match status with
    | Some 400 =>
        if mentions message "image must be a PNG" || mentions message "PNG format"
        then "Error format PNG! Sistem sudah mengkonversi otomatis. Coba dengan foto yang berbeda."
        else if mentions message "less than 4 MB" || mentions message "file size"
        then "Ukuran file terlalu besar! Maksimal 4MB. Silakan kompres foto Anda."
        else if mentions message "invalid image" || mentions message "malformed"
        then "File gambar corrupt atau tidak valid! Coba dengan foto lain."
        else if mentions message "mask" || mentions message "transparent"
        then "Error dengan mask editing. Coba dengan foto yang memiliki background jelas."
        else "Format tidak valid: " +:+ interpolate message +:+
             ". Coba foto JPG/PNG yang fresh."
    | Some 401 =>
        "API key tidak valid atau habis kredit. Silakan hubungi administrator."
    | Some 429 =>
        "Terlalu banyak request. Silakan tunggu beberapa menit sebelum mencoba lagi."
    | Some 500 | Some 502 | Some 503 =>
        "Server OpenAI sedang bermasalah. Silakan coba lagi dalam beberapa menit."
    | Some s =>
        "Error API: " +:+ pretty s +:+ ". Silakan coba lagi atau hubungi support."
    | None => "Gagal mengedit foto profesional"
    end
  else if mentions message "timeout"
  then "Timeout: DALL-E 2 membutuhkan waktu terlalu lama. Coba dengan foto yang lebih kecil atau prompt yang lebih sederhana."
  else if mentions message "content policy"
  then "Foto tidak sesuai kebijakan OpenAI. Pastikan foto profesional dan sesuai."
  else if mentions message "network" || mentions message "connection"
  then "Koneksi bermasalah. Periksa internet Anda dan coba lagi."
  else "Terjadi kesalahan saat mengedit foto. Silakan coba dengan foto yang berbeda.".

(** The message chosen by the handler of the other errors. *)
Definition backendErrorMessage (message : option string) : string :=
  if mentions message "Failed to create editing mask"
  then "Gagal membuat mask editing. Silakan coba lagi."
  else if mentions message "Failed to prepare image"
  then "Gagal memproses gambar. Pastikan file PNG tidak corrupt."
  else if mentions message "ENOTFOUND" || mentions message "network"
  then "Masalah koneksi internet. Periksa koneksi Anda."
  else if mentions message "ENOENT"
  then "File tidak ditemukan. Silakan upload ulang foto Anda."
  else "Terjadi kesalahan internal saat memproses foto".

Definition comprehensivePrompt (userDescriptionPrompt : string) : string :=
  "COMPLETELY REPLACE entire background. REMOVE ALL existing background colors especially blue. "
  +:+ userDescriptionPrompt +:+
  ". MUST be dramatically different background. Only keep the person's head and face identical. TRANSFORM background 100%. Professional studio photo.".

Definition failure (message : string) : EditResult :=
  {| success := false; imageUrl := None; error := Some message |}.

(** [generate_professional_edited_photo]. *)
Definition generate_professional_edited_photo (imageFile : File)
  (userDescriptionPrompt : string) : EditResult :=
  if negb openai then failure "OpenAI API key not configured"
  else
    let originalImageBuffer := fileBytes imageFile in
    match prepareImageForEditing originalImageBuffer with
    | Throw message => failure (backendErrorMessage (Some message))
    | Normal prepared =>
        let preparedImage := buffer prepared in
        match createBackgroundMaskPng preparedImage 1024 1024 with
        | Throw message => failure (backendErrorMessage (Some message))
        | Normal maskBuffer =>
            match imagesEdit services preparedImage maskBuffer
                    (comprehensivePrompt userDescriptionPrompt) with
            | Some (Responded (Some (item :: _))) =>
                {| success := true; imageUrl := item; error := None |}
            | Some (Responded _) => failure "No edited image generated"
            | Some (Rejected status message) =>
                failure (apiErrorMessage status message)
            | None =>
                failure (apiErrorMessage None (Some "Request timeout after 60 seconds"))
            end
        end
    end.

Definition allowedTypes : list string :=
  ["image/png"; "image/jpeg"; "image/jpg"; "image/webp"].

Definition maxSize : Z := 4 * 1024 * 1024.

Definition json (status : Z) (body : Body) : Response :=
  {| status := status; body := body |}.

(** The key a request is counted under. *)
Definition clientKey (request : Request) : string :=
  orElse (xForwardedFor request) (orElse (xRealIp request) "unknown").

(** [POST], with the reading [now] of the clock and the map [rateLimitMap] of
    the module passed in and the map handed back. *)
Definition POST (now : Z) (request : Request)
  (rateLimitMap : gmap string RateLimit.UserLimit)
  : Response * gmap string RateLimit.UserLimit :=
  let internalError :=
    json 500 (ErrorBody "Terjadi kesalahan internal. Silakan coba lagi.") in
  let ip := clientKey request in
  let '(allowed, rateLimitMap) :=
    RateLimit.checkRateLimit RATE_LIMIT_edit now ip rateLimitMap in
  let response :=
    if negb allowed
    then json 429 (ErrorBody "Terlalu banyak request untuk edit foto. Tunggu 1 menit ya! ⏳")
    else if negb openai
    then json 500 (ErrorBody "OpenAI API belum dikonfigurasi. Silakan hubungi administrator.")
    else
      match formData request with
      | None => internalError
      | Some formData =>
          let imageFile := image formData in
          let userPrompt := prompt formData in
          match userPrompt with
          | None | Some (EntryString "") =>
              json 400 (ErrorBody "Prompt tidak boleh kosong!")
          | Some (EntryFile _) => internalError
          | Some (EntryString userPrompt) =>
              if String.eqb (trim userPrompt) ""
              then json 400 (ErrorBody "Prompt tidak boleh kosong!")
              else
                match imageFile with
                | None | Some (EntryString "") =>
                    json 400 (ErrorBody "File gambar tidak ditemukan!")
                | Some (EntryString _) =>
                    json 400 (ErrorBody "Format file tidak didukung! Gunakan PNG, JPG, atau WebP.")
                | Some (EntryFile imageFile) =>
                    if negb (existsb (String.eqb (fileType imageFile)) allowedTypes)
                    then json 400 (ErrorBody "Format file tidak didukung! Gunakan PNG, JPG, atau WebP.")
                    else if fileSize imageFile >? maxSize
                    then json 400 (ErrorBody "Ukuran file terlalu besar! Maksimal 4MB.")
                    else
                      let result :=
                        generate_professional_edited_photo imageFile userPrompt in
                      if success result
                      then json 200 (ImageBody true (imageUrl result)
                                       "Foto profesional berhasil diedit! ✨")
                      else json 500 (ErrorBody (orElse (error result)
                                                  "Gagal mengedit foto profesional"))
                end
          end
      end in
  (response, rateLimitMap).

End Route.

End EditPhoto.

(** Requests handled one after the other by [POST], each with the reading of
    the clock at its arrival; the result pairs each request with its response. *)
Fixpoint handleAll (services : Services) (openai : bool) (requests : list (Z * Request))
  (rateLimitMap : gmap string RateLimit.UserLimit)
  : list (Z * Request * Response) * gmap string RateLimit.UserLimit :=
  match requests with
  | [] => ([], rateLimitMap)
  | (now, request) :: rest =>
      let '(response, rateLimitMap') :=
        EditPhoto.POST services openai now request rateLimitMap in
      let '(log, final) := handleAll services openai rest rateLimitMap' in
      ((now, request, response) :: log, final)
  end.

(** Whether an entry of the log is a request of the key [ip] that arrived with
    a clock reading in [[lo, hi]] and was not answered 429. *)
Definition passed (ip : string) (lo hi : Z) (entry : Z * Request * Response) : bool :=
  let '(now, request, response) := entry in
  negb (status response =? 429) && bool_decide (EditPhoto.clientKey request = ip) &&
  (lo <=? now) && (now <=? hi).

(** ** Concrete services and requests *)

(** Services that succeed at every step. *)
Definition studio : Services :=
  {| sharpMetadata := fun _ => Some (Some 1024, Some 1024);
     sharpResize := fun imageBuffer => Some imageBuffer;
     sharpRaw := fun _ _ _ => Some [];
     sharpPng := fun _ _ _ => Some [137; 80; 78; 71; 13; 10; 26; 10];
     imagesEdit := fun _ _ _ =>
       Some (Responded (Some [Some "https://images.example/edited.png"])) |}.

(** Services whose decoder rejects every image. *)
Definition offline : Services :=
  {| sharpMetadata := fun _ => Some (Some 1024, Some 1024);
     sharpResize := fun imageBuffer => Some imageBuffer;
     sharpRaw := fun _ _ _ => None;
     sharpPng := fun _ _ _ => None;
     imagesEdit := fun _ _ _ => None |}.

Definition portrait : File :=
  {| fileName := "portrait.png"; fileType := "image/png"; fileSize := 8;
     fileBytes := [137; 80; 78; 71; 13; 10; 26; 10] |}.

Definition portraitRequest : Request :=
  {| xForwardedFor := Some "203.0.113.7"; xRealIp := None;
     formData := Some {| image := Some (EntryFile portrait);
                         prompt := Some (EntryString "latar putih") |} |}.

(** A request without the two headers. *)
Definition anonymous : Request :=
  {| xForwardedFor := None; xRealIp := None;
     formData := Some {| image := Some (EntryFile portrait);
                         prompt := Some (EntryString "latar putih") |} |}.

(** The request of [portraitRequest] with another forwarded address. *)
Definition forwardedFor (address : string) : Request :=
  {| xForwardedFor := Some address; xRealIp := None;
     formData := Some {| image := Some (EntryFile portrait);
                         prompt := Some (EntryString "latar putih") |} |}.

(** ** The photo-generation route *)

(** The image API as the photo-generation route calls it:
    [openai.images.generate] and [openai.images.edit] without a mask. *)
Record ImageApi : Type := {
  imagesGenerate : string -> ApiOutcome;
  imagesEditPlain : File -> string -> ApiOutcome
}.

Module GeneratePhoto.

Import JsString.

Section Route.

Variable api : ImageApi.

(** Whether [openai] is not [null]. *)
Variable openai : bool.

Definition comprehensivePrompt (userPrompt : string) : string :=
  "Edit this professional headshot photo. IMPORTANT: Keep the person's face, facial features, expression, hair, and glasses EXACTLY the same. Only change: "
  +:+ userPrompt +:+ ". 

SPECIFIC REQUIREMENTS:
- Keep the person's identity and appearance identical
- Remove any logos, stickers, badges, or text overlays
- Create a clean, professional CV photo
- Maintain natural lighting and realistic quality
- If background change is requested, make it smooth gradient or solid color
- Keep clothing changes minimal and professional
- NO cartoon elements, NO digital artifacts, NO text/logos

Result must look like a real photograph suitable for a professional CV.".

(** The message chosen by the [catch] block of [generate_professional_photo]. *)
Definition errorMessage (message : option string) : string :=
  if truthy message then
    if mentions message "Uploaded image must be a PNG"
    then "File harus berformat PNG! Silakan konversi file Anda ke PNG menggunakan converter online seperti convertio.co"
    else if mentions message "less than 4 MB"
    then "Ukuran file terlalu besar! Maksimal 4MB. Silakan kompres foto Anda terlebih dahulu."
    else if mentions message "invalid image"
    then "File gambar tidak valid! Pastikan file PNG Anda tidak corrupt."
    else if mentions message "rate limit"
    then "Terlalu banyak request. Silakan tunggu beberapa saat sebelum mencoba lagi."
    else "Terjadi kesalahan saat memproses foto. Silakan coba lagi dengan file PNG yang berbeda."
  else "Gagal membuat foto profesional".

Definition failure (message : string) : EditResult :=
  {| success := false; imageUrl := None; error := Some message |}.

(** [generate_professional_photo]; [imageFile] is a [File] or a string. *)
Definition generate_professional_photo (imageFile : File + string) (userPrompt : string)
  : EditResult :=
  if negb openai then failure "OpenAI API key not configured"
  else
    let response :=
      match imageFile with
      | inr _ => imagesGenerate api (comprehensivePrompt userPrompt)
      | inl imageFile => imagesEditPlain api imageFile (comprehensivePrompt userPrompt)
      end in
    match response with
    | Responded (Some (item :: _)) =>
        {| success := true; imageUrl := item; error := None |}
    | Responded _ => failure "No image generated"
    | Rejected _ message => failure (errorMessage message)
    end.

Definition allowedTypes : list string := ["image/jpeg"; "image/jpg"; "image/png"].

Definition maxSize : Z := 4 * 1024 * 1024.

Definition pngSignature : list Z := [137; 80; 78; 71; 13; 10; 26; 10].

(** [pngSignature.every((byte, index) => uint8Array[index] === byte)]. *)
Definition isValidPNG (uint8Array : list Z) : bool :=
  forallb
    (fun '(index, byte) =>
       match get uint8Array index with
       | Some v => v =? byte
       | None => false
       end)
    (combine (range 0 (Z.of_nat (length pngSignature))) pngSignature).

Definition json (status : Z) (body : Body) : Response :=
  {| status := status; body := body |}.

Definition clientKey (request : Request) : string :=
  orElse (xForwardedFor request) (orElse (xRealIp request) "unknown").

(** [POST], with the reading [now] of the clock and the map [rateLimitMap] of
    the module passed in and the map handed back. *)
Definition POST (now : Z) (request : Request)
  (rateLimitMap : gmap string RateLimit.UserLimit)
  : Response * gmap string RateLimit.UserLimit :=
  let internalError :=
    json 500 (ErrorBody "Terjadi kesalahan internal. Silakan coba lagi.") in
  let ip := clientKey request in
  let '(allowed, rateLimitMap) :=
    RateLimit.checkRateLimit RATE_LIMIT_generate now ip rateLimitMap in
  let response :=
    if negb allowed
    then json 429 (ErrorBody "Terlalu banyak request untuk generate foto. Tunggu 1 menit ya! ⏳")
    else if negb openai
    then json 500 (ErrorBody "OpenAI API belum dikonfigurasi. Silakan hubungi administrator.")
    else
      match formData request with
      | None => internalError
      | Some formData =>
          let imageFile := image formData in
          let userPrompt := prompt formData in
          match userPrompt with
          | None | Some (EntryString "") =>
              json 400 (ErrorBody "Prompt tidak boleh kosong!")
          | Some (EntryFile _) => internalError
          | Some (EntryString userPrompt) =>
              if String.eqb (trim userPrompt) ""
              then json 400 (ErrorBody "Prompt tidak boleh kosong!")
              else
                match imageFile with
                | None | Some (EntryString "") =>
                    json 400 (ErrorBody "File gambar tidak ditemukan!")
                | Some (EntryString _) =>
                    json 400 (ErrorBody "Format file tidak didukung! Gunakan JPG, JPEG, atau PNG.")
                | Some (EntryFile imageFile) =>
                    if negb (existsb (String.eqb (fileType imageFile)) allowedTypes)
                    then json 400 (ErrorBody "Format file tidak didukung! Gunakan JPG, JPEG, atau PNG.")
                    else if fileSize imageFile >? maxSize
                    then json 400 (ErrorBody "Ukuran file terlalu besar! Maksimal 4MB.")
                    else if negb (String.eqb (fileType imageFile) "image/png")
                    then json 400 (ErrorBody "File harus berformat PNG! DALL-E memerlukan file PNG untuk editing foto. Gunakan converter online seperti convertio.co untuk mengubah JPEG ke PNG.")
                    else
                      let arrayBuffer := fileBytes imageFile in
                      let uint8Array := arrayBuffer in
                      if negb (isValidPNG uint8Array)
                      then json 400 (ErrorBody "File PNG tidak valid! File ini mungkin corrupt atau bukan PNG asli. Coba convert ulang ke PNG.")
                      else
                        let validatedFile :=
                          {| fileName := fileName imageFile;
                             fileType := "image/png";
                             fileSize := Z.of_nat (length arrayBuffer);
                             fileBytes := arrayBuffer |} in
                        let result :=
                          generate_professional_photo (inl validatedFile) userPrompt in
                        if success result
                        then json 200 (ImageBody true (imageUrl result)
                                         "Foto profesional berhasil dibuat! ✨")
                        else json 500 (ErrorBody (orElse (error result)
                                                    "Gagal membuat foto profesional"))
                end
          end
      end in
  (response, rateLimitMap).

End Route.

End GeneratePhoto.

(** An image API that answers with one image. *)
Definition gallery : ImageApi :=
  {| imagesGenerate := fun _ =>
       Responded (Some [Some "https://images.example/generated.png"]);
     imagesEditPlain := fun _ _ =>
       Responded (Some [Some "https://images.example/edited.png"]) |}.

(** The file of [portrait] declared as a JPEG. *)
Definition snapshot : File :=
  {| fileName := "snapshot.jpg"; fileType := "image/jpeg"; fileSize := 8;
     fileBytes := [255; 216; 255; 224; 0; 16; 74; 70] |}.

Definition requestWith (file : File) : Request :=
  {| xForwardedFor := Some "203.0.113.7"; xRealIp := None;
     formData := Some {| image := Some (EntryFile file);
                         prompt := Some (EntryString "latar putih") |} |}.

(** ** The statistics of the masks *)

Module JsNumber.

(** A string of [n] zeros. *)
Fixpoint zeros (n : nat) : string :=
  match n with
  | O => ""
  | S n => "0" +:+ zeros n
  end.

(** The decimal digits of [n], at least [fractionDigits + 1] of them, with a
    point before the last [fractionDigits]. *)
Definition fixedDigits (fractionDigits : nat) (n : Z) : string :=
  let m := pretty n in
  if (fractionDigits =? 0)%nat then m
  else
    let k := String.length m in
    let m := if (k <=? fractionDigits)%nat
             then zeros (fractionDigits + 1 - k) +:+ m
             else m in
    let k := String.length m in
    String.substring 0 (k - fractionDigits) m +:+ "." +:+
    String.substring (k - fractionDigits) fractionDigits m.

(** [x.toFixed(fractionDigits)]; the digits of a number of magnitude at least
    10^21 are those of [numberToString]. *)
Definition toFixed (numberToString : float -> string) (fractionDigits : nat) (x : float)
  : string :=
  match Prim2SF x with
  | S754_nan => "NaN"
  | S754_infinity s => if s then "-Infinity" else "Infinity"
  | S754_zero _ => fixedDigits fractionDigits 0
  | S754_finite s m e =>
      let magnitude := (inject_Z (Zpos m) * bpow e)%Q in
      let sign := if s then "-" else "" in
      if Qle_bool (inject_Z (10 ^ 21)) magnitude
      then sign +:+ numberToString (abs x)
      else
        let n := Qfloor (magnitude * inject_Z (10 ^ Z.of_nat fractionDigits) + (1 # 2)) in
        sign +:+ fixedDigits fractionDigits n
  end.

End JsNumber.

(** The counters [cleaningStats] of [cleanMaskArtifacts]. *)
Record CleaningStats : Type := {
  semiTransparentCleaned : Z;
  fullyTransparent : Z;
  fullyOpaque : Z;
  artifactsRemoved : Z
}.

(** [x > c] where [x] may be [undefined]. *)
Definition gtUndef (x : option Z) (c : Z) : bool :=
  match x with Some v => v >? c | None => false end.

(** What the body of the thresholding loop does to the counters. *)
Definition cleaningStep (rawMaskData : list Z) (cleaningStats : CleaningStats) (i : Z)
  : CleaningStats :=
  let idx := i * 4 in
  let originalAlpha := get rawMaskData (idx + 3) in
  if ltUndef originalAlpha transparencyThreshold
  then
    {| semiTransparentCleaned :=
         if gtUndef originalAlpha 0
         then semiTransparentCleaned cleaningStats + 1
         else semiTransparentCleaned cleaningStats;
       fullyTransparent := fullyTransparent cleaningStats + 1;
       fullyOpaque := fullyOpaque cleaningStats;
       artifactsRemoved := artifactsRemoved cleaningStats |}
  else
    {| semiTransparentCleaned := semiTransparentCleaned cleaningStats;
       fullyTransparent := fullyTransparent cleaningStats;
       fullyOpaque := fullyOpaque cleaningStats + 1;
       artifactsRemoved :=
         if ltUndef originalAlpha 255
         then artifactsRemoved cleaningStats + 1
         else artifactsRemoved cleaningStats |}.

(** The counters after the thresholding loop of [cleanMaskArtifacts]. *)
Definition cleaningStatsOf (rawMaskData : list Z) (width height : Z) : CleaningStats :=
  fold_left (cleaningStep rawMaskData) (range 0 (width * height))
    {| semiTransparentCleaned := 0; fullyTransparent := 0; fullyOpaque := 0;
       artifactsRemoved := 0 |}.

(** The entry [cleaningEffectiveness] of the log. *)
Definition cleaningEffectiveness (cleaningStats : CleaningStats) : string :=
  if semiTransparentCleaned cleaningStats >? 0 then "Artifacts removed"
  else "Already clean".

Module Analysis.

Section Distribution.

Local Open Scope float_scope.

(** [Number.prototype.toString] for the numbers of magnitude at least 10^21. *)
Variable numberToString : float -> string.

(** [getQualityRecommendation]. *)
Definition getQualityRecommendation (transparent opaque total : Z) : string :=
  let transparentRatio := Js.ofZ transparent / Js.ofZ total in
  let opaqueRatio := Js.ofZ opaque / Js.ofZ total in
  if transparentRatio <? 0.05
  then "❌ Too protective - almost no background will be edited"
  else if 0.95 <? transparentRatio
  then "❌ Too aggressive - subject will be edited too"
  else if opaqueRatio <? 0.05
  then "❌ No subject protection - face/body will be changed"
  else if (0.1 <? transparentRatio) && (0.1 <? opaqueRatio)
  then "✅ Good balance - should work well with DALL-E"
  else "⚠️ Moderate balance - may work but check visual result".

(** The five counters of the loop of [analyzeMaskDistribution]. *)
Record Counters : Type := {
  transparentPixels : Z;
  semiTransparentPixels : Z;
  opaquePixels : Z;
  whitePixels : Z;
  blackPixels : Z
}.

Definition countStep (maskData : list Z) (c : Counters) (i : Z) : Counters :=
  let maskIdx := (i * 4)%Z in
  let r := get maskData maskIdx in
  let g := get maskData (maskIdx + 1)%Z in
  let b := get maskData (maskIdx + 2)%Z in
  let a := get maskData (maskIdx + 3)%Z in
  let isTransparent := isByte a 0 in
  let isSemi := gtUndef a 0 && ltUndef a 255 in
  let isWhite := isByte r 255 && isByte g 255 && isByte b 255 in
  let isBlack := isByte r 0 && isByte g 0 && isByte b 0 in
  {| transparentPixels :=
       if isTransparent then transparentPixels c + 1 else transparentPixels c;
     semiTransparentPixels :=
       if isTransparent then semiTransparentPixels c
       else if isSemi then semiTransparentPixels c + 1 else semiTransparentPixels c;
     opaquePixels :=
       if isTransparent then opaquePixels c
       else if isSemi then opaquePixels c else opaquePixels c + 1;
     whitePixels := if isWhite then whitePixels c + 1 else whitePixels c;
     blackPixels :=
       if isWhite then blackPixels c
       else if isBlack then blackPixels c + 1 else blackPixels c |}%Z.

Definition countPixels (maskData : list Z) (width height : Z) : Counters :=
  fold_left (countStep maskData) (range 0 (width * height))
    {| transparentPixels := 0; semiTransparentPixels := 0; opaquePixels := 0;
       whitePixels := 0; blackPixels := 0 |}.

Record Transparency : Type := {
  transparent : Z;
  semiTransparent : Z;
  opaque : Z;
  transparentRatio : string;
  opaqueRatio : string
}.

Record Colors : Type := {
  white : Z;
  black : Z;
  whiteRatio : string;
  blackRatio : string
}.

Record MaskQuality : Type := {
  hasSubject : bool;
  balanced : bool;
  recommendation : string
}.

Record Distribution : Type := {
  totalPixels : Z;
  transparency : Transparency;
  colors : Colors;
  maskQuality : MaskQuality
}.

(** [((pixels / totalPixels) * 100).toFixed(1) + '%']. *)
Definition ratio (pixels totalPixels : Z) : string :=
  JsNumber.toFixed numberToString 1 (Js.ofZ pixels / Js.ofZ totalPixels * 100) +:+ "%".

(** [analyzeMaskDistribution]. *)
Definition analyzeMaskDistribution (maskData : list Z) (width height : Z) : Distribution :=
  let c := countPixels maskData width height in
  let totalPixels := (width * height)%Z in
  {| totalPixels := totalPixels;
     transparency :=
       {| transparent := transparentPixels c;
          semiTransparent := semiTransparentPixels c;
          opaque := opaquePixels c;
          transparentRatio := ratio (transparentPixels c) totalPixels;
          opaqueRatio := ratio (opaquePixels c) totalPixels |};
     colors :=
       {| white := whitePixels c;
          black := blackPixels c;
          whiteRatio := ratio (whitePixels c) totalPixels;
          blackRatio := ratio (blackPixels c) totalPixels |};
     maskQuality :=
       {| hasSubject := (opaquePixels c >? 0)%Z && (transparentPixels c >? 0)%Z;
          balanced :=
            (Js.ofZ totalPixels * 0.1 <? Js.ofZ (transparentPixels c)) &&
            (Js.ofZ totalPixels * 0.1 <? Js.ofZ (opaquePixels c));
          recommendation :=
            getQualityRecommendation (transparentPixels c) (opaquePixels c)
              totalPixels |} |}.

End Distribution.

End Analysis.


(** ** The list of CVs ([src/pages/api/cv/index.ts]) *)

(** The values held by the objects of the handler. *)
Inductive Value : Type :=
| VUndefined
| VNull
| VBoolean (b : bool)
| VNumber (x : float)
| VString (s : string)
| VDate (time : Z)
| VArray (items : list Value)
| VObject (properties : gmap string Value).

Module CvIndex.

(** What the handler reads of a request: the method, the address
    [session?.user?.email] of the session ([None] when a link of the chain is
    missing) and the body, an object or nothing. *)
Record Request : Type := {
  method : string;
  email : option string;
  body : option (gmap string Value)
}.

(** The three readings of the clock of a [POST]: [Date.now()] and the two
    [new Date()]. *)
Record Clock : Type := {
  now : Z;
  created : Z;
  updated : Z
}.

(** [res.status(status).json(json)]. *)
Record Response : Type := {
  status : Z;
  json : Value
}.

(** [{ ...data }] for a body that may be missing. *)
Definition spread (data : option (gmap string Value)) : gmap string Value :=
  match data with
  | Some properties => properties
  | None => ∅
  end.

(** The object [newCV]: later properties replace earlier ones of the same
    name. *)
Definition newCV (clock : Clock) (userEmail : string) (data : option (gmap string Value))
  : gmap string Value :=
  <["updatedAt" := VDate (updated clock)]>
    (<["createdAt" := VDate (created clock)]>
       (<["userEmail" := VString userEmail]>
          (spread data ∪ <["_id" := VString (pretty (now clock))]> ∅))).

(** [cv.userEmail === session.user.email]. *)
Definition ownedBy (userEmail : string) (cv : gmap string Value) : bool :=
  match cv !! "userEmail" with
  | Some (VString s) => String.eqb s userEmail
  | _ => false
  end.

Definition reply (status : Z) (json : gmap string Value) : Response :=
  {| status := status; json := VObject json |}.

(** [handler], with the readings of the clock and the array [mockCVs] of the
    module passed in and the array handed back. *)
Definition handler (clock : Clock) (req : Request) (mockCVs : list (gmap string Value))
  : Response * list (gmap string Value) :=
  if negb (JsString.truthy (email req))
  then (reply 401 (<["error" := VString "Unauthorized"]> ∅), mockCVs)
  else
    let userEmail := JsString.orElse (email req) "" in
    if String.eqb (method req) "GET"
    then
      let userCVs := List.filter (ownedBy userEmail) mockCVs in
      (reply 200 (<["success" := VBoolean true]>
                    (<["cvs" := VArray (map VObject userCVs)]> ∅)),
       mockCVs)
    else if String.eqb (method req) "POST"
    then
      let data := body req in
      let newCV := newCV clock userEmail data in
      let mockCVs := mockCVs ++ [newCV] in
      (reply 201 (<["success" := VBoolean true]> (<["cv" := VObject newCV]> ∅)),
       mockCVs)
    else (reply 405 (<["error" := VString "Method not allowed"]> ∅), mockCVs).

(** Requests handled one after the other. *)
Fixpoint handleAll (requests : list (Clock * Request)) (mockCVs : list (gmap string Value))
  : list Response * list (gmap string Value) :=
  match requests with
  | [] => ([], mockCVs)
  | (clock, req) :: rest =>
      let '(response, mockCVs') := handler clock req mockCVs in
      let '(responses, final) := handleAll rest mockCVs' in
      (response :: responses, final)
  end.

(** Whether a request is a [POST] of the session of [userEmail]. *)
Definition postedBy (userEmail : string) (entry : Clock * Request) : bool :=
  JsString.truthy (email (snd entry)) &&
  String.eqb (method (snd entry)) "POST" &&
  String.eqb (JsString.orElse (email (snd entry)) "") userEmail.

End CvIndex.

(** Two requests of two users. *)
Definition aliceCreates : CvIndex.Request :=
  {| CvIndex.method := "POST"; CvIndex.email := Some "alice@example.org";
     CvIndex.body :=
       Some (<["title" := VString "CV"]>
               (<["userEmail" := VString "bob@example.org"]>
                  (<["_id" := VString "ffff"]> ∅))) |}.

Definition bobCreates : CvIndex.Request :=
  {| CvIndex.method := "POST"; CvIndex.email := Some "bob@example.org";
     CvIndex.body := Some (<["title" := VString "Resume"]> ∅) |}.

Definition at_ (time : Z) : CvIndex.Clock :=
  {| CvIndex.now := time; CvIndex.created := time; CvIndex.updated := time |}.

(** ** Numbers that are not negative *)

(** The numbers +0, the positive finite numbers and +infinity. *)
Definition nonnegative (f : spec_float) : bool :=
  match f with
  | S754_zero false | S754_finite false _ _ | S754_infinity false => true
  | _ => false
  end.

(** [f] is +infinity or a positive normal number of value at least [v]. *)
Definition atLeast (v : Q) (f : spec_float) : Prop :=
  f = S754_infinity false \/
  exists hi, normalPos (-1074) hi f /\ (v <= valueOf f)%Q.

(** ** The classifier on the border of the raster *)

Section CenterBias.

Local Open Scope float_scope.

(** The value of the local variable [centerBias] of [isBackgroundPixel]. *)
Definition centerBias (width height x y : Z) : float :=
  let centerX := Js.ofZ width / 2 in
  let centerY := Js.ofZ height / 2 in
  let centerDistance :=
    sqrt (Js.pow2 (Js.ofZ x - centerX) + Js.pow2 (Js.ofZ y - centerY)) in
  let maxDistance := sqrt (Js.pow2 centerX + Js.pow2 centerY) in
  (centerDistance / maxDistance) * 0.2.

End CenterBias.

(** The pixels of the outermost one-pixel ring of a raster. *)
Definition onRing (width height x y : Z) : Prop :=
  x = 0 \/ y = 0 \/ x = width - 1 \/ y = height - 1.

(** The side of the square raster the route hands to [createBackgroundMask]
    ([prepareImageForEditing] resizes every image to it). *)
Definition side : Z := 1024.

(** [onRing], decided. *)
Definition onRingb (width height : Z) (yx : Z * Z) : bool :=
  (snd yx =? 0) || (fst yx =? 0) || (snd yx =? width - 1) || (fst yx =? height - 1).

(** *** A table of the scores of the 1024x1024 raster

    The centre bias and the border bias of a pixel depend on its coordinates
    only. [scoreCheck] checks, for one pixel, that the centre bias is not
    negative and that the border bias and the centre bias together do not
    exceed 0.5. The terms that depend on one coordinate are computed once per
    coordinate. *)

Section ScoreTable.

Local Open Scope float_scope.

(** For the coordinate [k] of an axis of [n] pixels: whether [k] is less than
    50 pixels from an end of the axis, and the square of its offset from the
    centre. *)
Definition axisTerm (n : Z) (k : Z) : bool * float :=
  ((Z.min k (n - k - 1) <? 50)%Z, Js.pow2 (Js.ofZ k - Js.ofZ n / 2)).

Definition scoreCheck (maxDistance : float) (yt xt : bool * float) : bool :=
  let bias := sqrt (snd xt + snd yt) / maxDistance * 0.2 in
  let borderBias := if (if fst xt then true else fst yt) then 0.3 else 0 in
  if (if 0 <? bias then true else nonnegative (Prim2SF bias))
  then negb (0.5 <? borderBias + 0 + 0 + bias)
  else false.

(** The distance from the centre of the raster to a corner. *)
Definition maxDistance : float :=
  sqrt (Js.pow2 (Js.ofZ side / 2) + Js.pow2 (Js.ofZ side / 2)).

Definition axisTerms : list (bool * float) := map (axisTerm side) (range 0 side).

End ScoreTable.

(** A 1024x1024 raster, dark on the left half and bright on the right half. *)
Definition splitImage : list Z :=
  grayImage (flat_map (fun _ => replicate 512 10 ++ replicate 512 200) (seq 0 1024)).

(** ** The background score as the specification words it *)

Section SpecScore.

Local Open Scope float_scope.





End SpecScore.
(** * Properties *)

(** ** Typed arrays, ranges and pixels *)

Lemma get_set_eq {A : Type} (a : list A) (i : Z) (v : A) :
  0 <= i < Z.of_nat (length a) -> get (set a i v) i = Some v.
Proof.
  intros Hi. unfold get, set.
  destruct (0 <=? i) eqn:E; [|lia].
  apply list_lookup_insert_eq. lia.
Qed.

Lemma get_set_ne {A : Type} (a : list A) (i j : Z) (v : A) :
  i <> j -> get (set a i v) j = get a j.
Proof.
  intros Hne. unfold get, set.
  destruct (0 <=? j) eqn:Ej; [|reflexivity].
  destruct (0 <=? i) eqn:Ei; [|reflexivity].
  apply list_lookup_insert_ne. lia.
Qed.

Lemma length_set {A : Type} (a : list A) (i : Z) (v : A) :
  length (set a i v) = length a.
Proof. unfold set. destruct (0 <=? i); [apply length_insert | reflexivity]. Qed.

Lemma length_alloc {A : Type} (zero : A) (n : Z) :
  Z.of_nat (length (alloc zero n)) = Z.max 0 n.
Proof. unfold alloc. rewrite length_replicate. lia. Qed.

Lemma get_alloc {A : Type} (zero : A) (n i : Z) :
  0 <= i < n -> get (alloc zero n) i = Some zero.
Proof.
  intros Hi. unfold get, alloc.
  destruct (0 <=? i) eqn:E; [|lia].
  apply lookup_replicate_2. lia.
Qed.

Lemma get_Some_lt {A : Type} (a : list A) (i : Z) (v : A) :
  get a i = Some v -> 0 <= i < Z.of_nat (length a).
Proof.
  unfold get. destruct (0 <=? i) eqn:E; [|discriminate].
  intros H. apply lookup_lt_Some in H. lia.
Qed.

Lemma get_is_Some {A : Type} (a : list A) (i : Z) :
  0 <= i < Z.of_nat (length a) -> exists v, get a i = Some v.
Proof.
  intros Hi. unfold get. destruct (0 <=? i) eqn:E; [|lia].
  destruct (lookup_lt_is_Some_2 a (Z.to_nat i)) as [v Hv]; [lia|].
  exists v. exact Hv.
Qed.

Lemma in_range (lo hi i : Z) : In i (range lo hi) <-> lo <= i < hi.
Proof.
  unfold range. rewrite in_map_iff. split.
  - intros (k & <- & Hk). apply in_seq in Hk. lia.
  - intros Hi. exists (Z.to_nat (i - lo)). split; [lia|].
    apply in_seq. lia.
Qed.

Lemma in_grid (ys xs : list Z) (y x : Z) :
  In (y, x) (grid ys xs) <-> In y ys /\ In x xs.
Proof.
  unfold grid. rewrite in_flat_map. split.
  - intros (y' & Hy & Hin). apply in_map_iff in Hin as (x' & Heq & Hx).
    inversion Heq; subst. tauto.
  - intros [Hy Hx]. exists y. split; [exact Hy|].
    apply in_map_iff. exists x. tauto.
Qed.

Lemma nested_fold {S : Type} (f : S -> Z * Z -> S) (ys xs : list Z) (s : S) :
  fold_left (fun s y => fold_left (fun s x => f s (y, x)) xs s) ys s =
  fold_left f (grid ys xs) s.
Proof.
  unfold grid. revert s. induction ys as [|y ys IH]; intros s; simpl; [reflexivity|].
  rewrite fold_left_app, <- IH. f_equal.
  clear. revert s. induction xs as [|x xs IH]; intros s; simpl; [reflexivity|].
  apply IH.
Qed.

Lemma pixelIndex_inj (width : Z) (p q : Z * Z) :
  0 <= snd p < width -> 0 <= snd q < width ->
  pixelIndex width p = pixelIndex width q -> p = q.
Proof.
  destruct p as [y x], q as [y' x']. unfold pixelIndex. simpl. intros Hx Hx' Heq.
  assert (y = y') by nia. subst y'. f_equal. lia.
Qed.

Lemma length_writeRGBA (a : list Z) (idx : Z) (p : Pixel) :
  length (writeRGBA a idx p) = length a.
Proof.
  destruct p as [[[r g] b] al]. unfold writeRGBA. now rewrite !length_set.
Qed.

Lemma get_writeRGBA_ne (a : list Z) (idx k : Z) (p : Pixel) :
  k < idx \/ idx + 3 < k -> get (writeRGBA a idx p) k = get a k.
Proof.
  intros Hk. destruct p as [[[r g] b] al]. unfold writeRGBA.
  rewrite !get_set_ne by lia. reflexivity.
Qed.

Lemma pixelAt_writeRGBA_eq (a : list Z) (i : Z) (p : Pixel) :
  0 <= i -> i * 4 + 3 < Z.of_nat (length a) ->
  pixelAt (writeRGBA a (i * 4) p) i = Some p.
Proof.
  intros Hi Hlen. destruct p as [[[r g] b] al]. unfold pixelAt, writeRGBA.
  rewrite get_set_eq by (rewrite !length_set; lia).
  rewrite (get_set_ne _ (i * 4 + 3) (i * 4 + 2)) by lia.
  rewrite get_set_eq by (rewrite !length_set; lia).
  rewrite !(get_set_ne _ _ (i * 4 + 1)) by lia.
  rewrite get_set_eq by (rewrite !length_set; lia).
  rewrite !(get_set_ne _ _ (i * 4)) by lia.
  rewrite get_set_eq by lia. reflexivity.
Qed.

Lemma pixelAt_writeRGBA_ne (a : list Z) (i j : Z) (p : Pixel) :
  i <> j -> pixelAt (writeRGBA a (i * 4) p) j = pixelAt a j.
Proof.
  intros Hne. unfold pixelAt.
  rewrite !get_writeRGBA_ne by lia. reflexivity.
Qed.

Lemma pixelAt_Some (a : list Z) (i : Z) :
  0 <= i -> i * 4 + 3 < Z.of_nat (length a) -> exists p, pixelAt a i = Some p.
Proof.
  intros Hi Hlen. unfold pixelAt.
  destruct (get_is_Some a (i * 4)) as [r ->]; [lia|].
  destruct (get_is_Some a (i * 4 + 1)) as [g ->]; [lia|].
  destruct (get_is_Some a (i * 4 + 2)) as [b ->]; [lia|].
  destruct (get_is_Some a (i * 4 + 3)) as [al ->]; [lia|].
  eauto.
Qed.

Lemma pixelAt_alpha (a : list Z) (i : Z) (r g b al : Z) :
  pixelAt a i = Some (r, g, b, al) -> get a (i * 4 + 3) = Some al.
Proof.
  unfold pixelAt.
  destruct (get a (i * 4)), (get a (i * 4 + 1)), (get a (i * 4 + 2)),
    (get a (i * 4 + 3)); congruence.
Qed.

(** Two rasters of [n] pixels that agree pixel by pixel are the same buffer. *)
Lemma mask_ext (a b : list Z) (n : Z) :
  Z.of_nat (length a) = n * 4 -> Z.of_nat (length b) = n * 4 ->
  (forall i, 0 <= i < n -> pixelAt a i = pixelAt b i) ->
  a = b.
Proof.
  intros Ha Hb Hpix. apply list_eq. intros k.
  destruct (Nat.lt_ge_cases k (length a)) as [Hk|Hk].
  - set (i := Z.of_nat k / 4).
    assert (Hi : 0 <= i < n) by (unfold i; split; [apply Z.div_pos|apply Z.div_lt_upper_bound]; lia).
    assert (Hmod : 0 <= Z.of_nat k mod 4 < 4) by (apply Z.mod_pos_bound; lia).
    assert (Hdiv : Z.of_nat k = i * 4 + Z.of_nat k mod 4)
      by (unfold i; pose proof (Z.div_mod (Z.of_nat k) 4); lia).
    specialize (Hpix i Hi). unfold pixelAt in Hpix.
    destruct (get_is_Some a (i * 4)) as [r Hr]; [lia|].
    destruct (get_is_Some a (i * 4 + 1)) as [g Hg]; [lia|].
    destruct (get_is_Some a (i * 4 + 2)) as [bl Hbl]; [lia|].
    destruct (get_is_Some a (i * 4 + 3)) as [al Hal]; [lia|].
    destruct (get_is_Some b (i * 4)) as [r' Hr']; [lia|].
    destruct (get_is_Some b (i * 4 + 1)) as [g' Hg']; [lia|].
    destruct (get_is_Some b (i * 4 + 2)) as [bl' Hbl']; [lia|].
    destruct (get_is_Some b (i * 4 + 3)) as [al' Hal']; [lia|].
    rewrite Hr, Hg, Hbl, Hal, Hr', Hg', Hbl', Hal' in Hpix.
    inversion Hpix; subst r' g' bl' al'.
    assert (Hget : get a (Z.of_nat k) = get b (Z.of_nat k)).
    { assert (Hc : Z.of_nat k mod 4 = 0 \/ Z.of_nat k mod 4 = 1 \/
                   Z.of_nat k mod 4 = 2 \/ Z.of_nat k mod 4 = 3) by lia.
      destruct Hc as [Hc|[Hc|[Hc|Hc]]]; rewrite Hdiv, Hc, ?Z.add_0_r; congruence. }
    unfold get in Hget. destruct (0 <=? Z.of_nat k) eqn:E; [|lia].
    now rewrite Nat2Z.id in Hget.
  - rewrite (lookup_ge_None_2 a k) by lia.
    rewrite (lookup_ge_None_2 b k) by lia. reflexivity.
Qed.

(** ** What a buffer-filling loop leaves in the buffer *)

Section PaintLoops.

Context {I : Type}.
Variable index : I -> Z.
Variable decision : I -> option Pixel.

Lemma paintStep_length (a : list Z) (it : I) :
  length (paintStep index decision a it) = length a.
Proof.
  unfold paintStep. destruct (decision it); [apply length_writeRGBA|reflexivity].
Qed.

Lemma paint_length (items : list I) (a : list Z) :
  length (fold_left (paintStep index decision) items a) = length a.
Proof.
  revert a. induction items as [|it items IH]; intros a; simpl; [reflexivity|].
  now rewrite IH, paintStep_length.
Qed.

(** A pixel no iteration addresses keeps its value. *)
Lemma paint_untouched (items : list I) (a : list Z) (j : Z) :
  (forall it, In it items -> index it <> j) ->
  pixelAt (fold_left (paintStep index decision) items a) j = pixelAt a j.
Proof.
  revert a. induction items as [|it items IH]; intros a Hne; simpl; [reflexivity|].
  rewrite IH by (intros it' Hin; apply Hne; now right).
  unfold paintStep. destruct (decision it); [|reflexivity].
  apply pixelAt_writeRGBA_ne. apply Hne. now left.
Qed.

(** A pixel addressed by an iteration that stores nothing keeps its value,
    provided no other iteration addresses it. *)
Lemma paint_skipped (items : list I) (a : list Z) (it : I) :
  (forall it', In it' items -> index it' = index it -> it' = it) ->
  decision it = None ->
  pixelAt (fold_left (paintStep index decision) items a) (index it) = pixelAt a (index it).
Proof.
  revert a. induction items as [|it0 items IH]; intros a Hinj Hdec; simpl; [reflexivity|].
  rewrite IH; [|intros it' Hin; apply Hinj; now right|exact Hdec].
  unfold paintStep. destruct (decision it0) as [p|] eqn:E; [|reflexivity].
  apply pixelAt_writeRGBA_ne. intros Heq.
  rewrite (Hinj it0 (or_introl eq_refl) Heq) in E. congruence.
Qed.

(** A pixel addressed by an iteration that stores [p] ends up holding [p]. *)
Lemma paint_stored (items : list I) (a : list Z) (it : I) (p : Pixel) :
  In it items ->
  (forall it', In it' items -> index it' = index it -> it' = it) ->
  0 <= index it -> index it * 4 + 3 < Z.of_nat (length a) ->
  decision it = Some p ->
  pixelAt (fold_left (paintStep index decision) items a) (index it) = Some p.
Proof.
  revert a. induction items as [|it0 items IH]; intros a Hin Hinj H0 Hlen Hdec;
    simpl; [contradiction|].
  destruct (existsb (fun it' => index it' =? index it) items) eqn:Ex.
  - apply existsb_exists in Ex as (it' & Hin' & Heq).
    apply Z.eqb_eq in Heq.
    assert (it' = it) by (apply Hinj; [now right|exact Heq]). subst it'.
    apply IH; try assumption.
    + intros it' Hit'. apply Hinj. now right.
    + now rewrite paintStep_length.
  - assert (Hne : forall it', In it' items -> index it' <> index it).
    { intros it' Hin' Heq.
      assert (true = false); [|discriminate].
      rewrite <- Ex. symmetry. apply existsb_exists. exists it'. split; [exact Hin'|].
      now apply Z.eqb_eq. }
    rewrite paint_untouched by exact Hne.
    destruct Hin as [->|Hin].
    + unfold paintStep. rewrite Hdec. now apply pixelAt_writeRGBA_eq.
    + exfalso. exact (Hne it Hin eq_refl).
Qed.

(** Each pixel of the result either kept its value, all iterations addressing
    it having stored nothing, or holds what an iteration stored there. *)
Lemma paint_cases (items : list I) (a : list Z) (j : Z) :
  (forall it it', In it items -> In it' items -> index it = index it' -> it = it') ->
  0 <= j -> j * 4 + 3 < Z.of_nat (length a) ->
  (pixelAt (fold_left (paintStep index decision) items a) j = pixelAt a j /\
   forall it, In it items -> index it = j -> decision it = None) \/
  (exists it p, In it items /\ index it = j /\ decision it = Some p /\
     pixelAt (fold_left (paintStep index decision) items a) j = Some p).
Proof.
  intros Hinj H0 Hlen.
  destruct (existsb (fun it => index it =? j) items) eqn:Ex.
  - apply existsb_exists in Ex as (it & Hin & Heq). apply Z.eqb_eq in Heq. subst j.
    assert (Hinj' : forall it', In it' items -> index it' = index it -> it' = it)
      by (intros it' Hin' Heq; now apply Hinj).
    destruct (decision it) as [p|] eqn:Hdec.
    + right. exists it, p. repeat split; try assumption.
      now apply paint_stored.
    + left. split; [now apply paint_skipped|].
      intros it' Hin' Heq. now rewrite (Hinj' it' Hin' Heq).
  - left. assert (Hne : forall it, In it items -> index it <> j).
    { intros it Hin Heq.
      assert (true = false); [|discriminate].
      rewrite <- Ex. symmetry. apply existsb_exists. exists it. split; [exact Hin|].
      now apply Z.eqb_eq. }
    split; [now apply paint_untouched|].
    intros it Hin Heq. exfalso. exact (Hne it Hin Heq).
Qed.

(** The result depends on which iterations run, not on their order. *)
Lemma paint_same_items (items items' : list I) (a : list Z) (j : Z) :
  (forall it, In it items <-> In it items') ->
  (forall it it', In it items -> In it' items -> index it = index it' -> it = it') ->
  0 <= j -> j * 4 + 3 < Z.of_nat (length a) ->
  pixelAt (fold_left (paintStep index decision) items a) j =
  pixelAt (fold_left (paintStep index decision) items' a) j.
Proof.
  intros Hsame Hinj H0 Hlen.
  assert (Hinj' : forall it it', In it items' -> In it' items' ->
                                  index it = index it' -> it = it').
  { intros it it' Hin Hin'. apply Hinj; now apply Hsame. }
  destruct (paint_cases items a j Hinj H0 Hlen) as [[-> Hnone]|(it & p & Hin & Hj & Hdec & ->)].
  - destruct (paint_cases items' a j Hinj' H0 Hlen)
      as [[-> _]|(it & p & Hin & Hj & Hdec & _)]; [reflexivity|].
    apply Hsame in Hin. rewrite (Hnone it Hin Hj) in Hdec. discriminate.
  - subst j. symmetry. apply paint_stored; try assumption.
    + now apply Hsame.
    + intros it' Hin' Heq. apply Hinj'; [assumption|now apply Hsame|exact Heq].
Qed.

End PaintLoops.

Section StoreLoops.

Context {I A : Type}.
Variable index : I -> Z.
Variable value : I -> option A.

Lemma store_length (items : list I) (a : list A) :
  length (fold_left (storeStep index value) items a) = length a.
Proof.
  revert a. induction items as [|it items IH]; intros a; simpl; [reflexivity|].
  rewrite IH. unfold storeStep. destruct (value it); [apply length_set|reflexivity].
Qed.

Lemma store_untouched (items : list I) (a : list A) (j : Z) :
  (forall it, In it items -> index it <> j) ->
  get (fold_left (storeStep index value) items a) j = get a j.
Proof.
  revert a. induction items as [|it items IH]; intros a Hne; simpl; [reflexivity|].
  rewrite IH by (intros it' Hin; apply Hne; now right).
  unfold storeStep. destruct (value it); [|reflexivity].
  apply get_set_ne. apply Hne. now left.
Qed.

Lemma store_skipped (items : list I) (a : list A) (it : I) :
  (forall it', In it' items -> index it' = index it -> it' = it) ->
  value it = None ->
  get (fold_left (storeStep index value) items a) (index it) = get a (index it).
Proof.
  revert a. induction items as [|it0 items IH]; intros a Hinj Hval; simpl; [reflexivity|].
  rewrite IH; [|intros it' Hin; apply Hinj; now right|exact Hval].
  unfold storeStep. destruct (value it0) as [v|] eqn:E; [|reflexivity].
  apply get_set_ne. intros Heq.
  rewrite (Hinj it0 (or_introl eq_refl) Heq) in E. congruence.
Qed.

Lemma store_stored (items : list I) (a : list A) (it : I) (v : A) :
  In it items ->
  (forall it', In it' items -> index it' = index it -> it' = it) ->
  0 <= index it < Z.of_nat (length a) ->
  value it = Some v ->
  get (fold_left (storeStep index value) items a) (index it) = Some v.
Proof.
  revert a. induction items as [|it0 items IH]; intros a Hin Hinj Hlen Hval;
    simpl; [contradiction|].
  destruct (existsb (fun it' => index it' =? index it) items) eqn:Ex.
  - apply existsb_exists in Ex as (it' & Hin' & Heq).
    apply Z.eqb_eq in Heq.
    assert (it' = it) by (apply Hinj; [now right|exact Heq]). subst it'.
    apply IH; try assumption.
    + intros it' Hit'. apply Hinj. now right.
    + unfold storeStep. destruct (value it0); [now rewrite length_set|assumption].
  - assert (Hne : forall it', In it' items -> index it' <> index it).
    { intros it' Hin' Heq.
      assert (true = false); [|discriminate].
      rewrite <- Ex. symmetry. apply existsb_exists. exists it'. split; [exact Hin'|].
      now apply Z.eqb_eq. }
    rewrite store_untouched by exact Hne.
    destruct Hin as [->|Hin].
    + unfold storeStep. rewrite Hval. now apply get_set_eq.
    + exfalso. exact (Hne it Hin eq_refl).
Qed.

End StoreLoops.

(** ** Binary cleanup *)

Lemma fold_left_pointwise {S I : Type} (f g : S -> I -> S) (items : list I) (s : S) :
  (forall s it, f s it = g s it) -> fold_left f items s = fold_left g items s.
Proof.
  intros Hfg. revert s. induction items as [|it items IH]; intros s; simpl; [reflexivity|].
  now rewrite Hfg, IH.
Qed.

Lemma thresholdMask_paint (rawMaskData : list Z) (width height : Z) :
  thresholdMask rawMaskData width height =
  fold_left (paintStep (fun i => i) (fun i => Some (thresholdPixel rawMaskData i)))
    (range 0 (width * height)) (alloc 0 (width * height * 4)).
Proof.
  unfold thresholdMask. apply fold_left_pointwise. intros a i.
  unfold thresholdStep, paintStep, thresholdPixel.
  now destruct (ltUndef _ _).
Qed.

Lemma thresholdMask_length (rawMaskData : list Z) (width height : Z) :
  0 <= width * height ->
  Z.of_nat (length (thresholdMask rawMaskData width height)) = width * height * 4.
Proof.
  intros Hn. rewrite thresholdMask_paint, paint_length, length_alloc. lia.
Qed.

Lemma thresholdMask_pixel (rawMaskData : list Z) (width height i : Z) :
  0 <= i < width * height ->
  pixelAt (thresholdMask rawMaskData width height) i =
  Some (thresholdPixel rawMaskData i).
Proof.
  intros Hi. rewrite thresholdMask_paint.
  apply (paint_stored (fun i => i)
           (fun i => Some (thresholdPixel rawMaskData i)) _ _ i).
  - apply in_range. lia.
  - intros it' _ Heq. exact Heq.
  - lia.
  - rewrite length_alloc. lia.
  - reflexivity.
Qed.

Lemma thresholdPixel_binary (rawMaskData : list Z) (i : Z) :
  thresholdPixel rawMaskData i = transparent \/ thresholdPixel rawMaskData i = opaque.
Proof. unfold thresholdPixel. destruct (ltUndef _ _); auto. Qed.

Lemma thresholdMask_binary (rawMaskData : list Z) (width height : Z) :
  0 <= width * height ->
  binaryMask width height (thresholdMask rawMaskData width height).
Proof.
  intros Hn. split; [now apply thresholdMask_length|].
  intros i Hi. rewrite thresholdMask_pixel by exact Hi.
  destruct (thresholdPixel_binary rawMaskData i) as [-> | ->]; auto.
Qed.

(** Thresholding reads only the alpha byte, which a binary pixel already has at
    one of the two extremes. *)
Lemma thresholdPixel_of_binary (a : list Z) (i : Z) (p : Pixel) :
  pixelAt a i = Some p -> p = transparent \/ p = opaque ->
  thresholdPixel a i = p.
Proof.
  intros Hp Hbin. unfold thresholdPixel.
  destruct p as [[[r g] b] al]. rewrite (pixelAt_alpha _ _ _ _ _ _ Hp).
  destruct Hbin as [Heq|Heq]; inversion Heq; subst; reflexivity.
Qed.

Lemma thresholdMask_fixes_binary (a : list Z) (width height : Z) :
  binaryMask width height a -> thresholdMask a width height = a.
Proof.
  intros [Hlen Hpix].
  assert (Hn : 0 <= width * height) by lia.
  apply (mask_ext _ _ (width * height)); [now apply thresholdMask_length|exact Hlen|].
  intros i Hi. rewrite thresholdMask_pixel by exact Hi.
  destruct (Hpix i Hi) as [Hp|Hp]; rewrite Hp; f_equal;
    eapply thresholdPixel_of_binary; eauto.
Qed.

(** ** Edge smoothing *)

Lemma smoothOver_paint (order : list (Z * Z)) (maskData : list Z) (width : Z) :
  smoothOver order maskData width =
  fold_left (paintStep (pixelIndex width) (smoothChoice maskData width)) order maskData.
Proof.
  unfold smoothOver. apply fold_left_pointwise. intros a [y x]. reflexivity.
Qed.

Lemma applyEdgeSmoothing_smoothOver (maskData : list Z) (width height : Z) :
  applyEdgeSmoothing maskData width height =
  smoothOver (interior width height) maskData width.
Proof.
  unfold applyEdgeSmoothing, smoothOver, interior.
  apply (nested_fold (smoothStep maskData width)).
Qed.

Lemma in_interior (width height y x : Z) :
  In (y, x) (interior width height) <-> 1 <= y < height - 1 /\ 1 <= x < width - 1.
Proof. unfold interior. rewrite in_grid, !in_range. tauto. Qed.

Lemma interior_inj (width height : Z) (it it' : Z * Z) :
  In it (interior width height) -> In it' (interior width height) ->
  pixelIndex width it = pixelIndex width it' -> it = it'.
Proof.
  destruct it as [y x], it' as [y' x']. rewrite !in_interior.
  intros [_ Hx] [_ Hx']. apply pixelIndex_inj; simpl; lia.
Qed.

Lemma applyEdgeSmoothing_length (maskData : list Z) (width height : Z) :
  length (applyEdgeSmoothing maskData width height) = length maskData.
Proof.
  rewrite applyEdgeSmoothing_smoothOver, smoothOver_paint. apply paint_length.
Qed.

(** An interior pixel holds what the loop body decided from the input buffer. *)
Lemma applyEdgeSmoothing_interior (maskData : list Z) (width height x y : Z) :
  Z.of_nat (length maskData) = width * height * 4 ->
  1 <= x < width - 1 -> 1 <= y < height - 1 ->
  pixelAt (applyEdgeSmoothing maskData width height) (y * width + x) =
  match smoothDecision maskData width x y with
  | Some p => Some p
  | None => pixelAt maskData (y * width + x)
  end.
Proof.
  intros Hlen Hx Hy.
  rewrite applyEdgeSmoothing_smoothOver, smoothOver_paint.
  assert (Hin : In (y, x) (interior width height)) by (apply in_interior; lia).
  assert (Hinj : forall it', In it' (interior width height) ->
            pixelIndex width it' = pixelIndex width (y, x) -> it' = (y, x))
    by (intros it' Hin'; now apply (interior_inj width height)).
  change (y * width + x) with (pixelIndex width (y, x)).
  destruct (smoothDecision maskData width x y) as [p|] eqn:Hdec.
  - apply paint_stored; try assumption; unfold pixelIndex; simpl; nia.
  - now apply paint_skipped.
Qed.

(** A pixel outside the interior is not addressed by the pass. *)
Lemma applyEdgeSmoothing_border (maskData : list Z) (width height x y : Z) :
  0 <= x < width ->
  x = 0 \/ y = 0 \/ x = width - 1 \/ y = height - 1 ->
  pixelAt (applyEdgeSmoothing maskData width height) (y * width + x) =
  pixelAt maskData (y * width + x).
Proof.
  intros Hx Hborder.
  rewrite applyEdgeSmoothing_smoothOver, smoothOver_paint.
  apply paint_untouched. intros [y' x'] Hin Heq.
  apply in_interior in Hin.
  assert (H : (y', x') = (y, x)) by (apply (pixelIndex_inj width); simpl; [lia|lia|exact Heq]).
  inversion H; subst. lia.
Qed.

Lemma smoothDecision_binary (maskData : list Z) (width x y : Z) (p : Pixel) :
  smoothDecision maskData width x y = Some p -> p = transparent \/ p = opaque.
Proof.
  unfold smoothDecision.
  destruct (get maskData _) as [alpha|]; [|discriminate].
  destruct ((alpha =? 0) || (alpha =? 255)); [|discriminate].
  destruct (hasOppositeNeighbor _ _); [|discriminate].
  destruct (_ || _); [discriminate|].
  destruct (avgGt _ _); intros H; inversion H; auto.
Qed.

Lemma applyEdgeSmoothing_binary (maskData : list Z) (width height : Z) :
  binaryMask width height maskData ->
  binaryMask width height (applyEdgeSmoothing maskData width height).
Proof.
  intros [Hlen Hpix]. split; [now rewrite applyEdgeSmoothing_length|].
  intros i Hi.
  rewrite applyEdgeSmoothing_smoothOver, smoothOver_paint.
  destruct (paint_cases (pixelIndex width) (smoothChoice maskData width)
              (interior width height) maskData i)
    as [[-> _]|(it & p & _ & _ & Hdec & ->)].
  - apply interior_inj.
  - lia.
  - lia.
  - now apply Hpix.
  - destruct (smoothDecision_binary _ _ _ _ _ Hdec) as [-> | ->]; auto.
Qed.

Lemma cleanMaskArtifacts_binary (rawMaskData : list Z) (width height : Z) :
  0 <= width * height ->
  binaryMask width height (cleanMaskArtifacts rawMaskData width height).
Proof.
  intros Hn. unfold cleanMaskArtifacts.
  now apply applyEdgeSmoothing_binary, thresholdMask_binary.
Qed.

(** Any visiting order of the interior yields the buffer the program computes. *)
Lemma smoothOver_order (order : list (Z * Z)) (maskData : list Z) (width height : Z) :
  Z.of_nat (length maskData) = width * height * 4 ->
  Permutation order (interior width height) ->
  smoothOver order maskData width = applyEdgeSmoothing maskData width height.
Proof.
  intros Hlen Hperm.
  rewrite applyEdgeSmoothing_smoothOver, !smoothOver_paint.
  apply (mask_ext _ _ (width * height)); rewrite ?paint_length; try assumption.
  intros i Hi. symmetry. apply paint_same_items.
  - intros it. split; intros Hin.
    + eapply Permutation_in; [symmetry; exact Hperm|exact Hin].
    + eapply Permutation_in; [exact Hperm|exact Hin].
  - apply interior_inj.
  - lia.
  - lia.
Qed.

Lemma Qltb_lt (a b : Q) : Qltb a b = true <-> (a < b)%Q.
Proof. unfold Qltb, Qlt. apply Z.ltb_lt. Qed.

Lemma Qltb_ge (a b : Q) : Qltb a b = false <-> (b <= a)%Q.
Proof. unfold Qltb, Qle. rewrite Z.ltb_ge. reflexivity. Qed.

(** The decision of the loop body on a binary pixel with an opposite
    neighbour, by the average [q] of its neighbours. *)
Lemma smoothDecision_edge (maskData : list Z) (width x y alpha : Z) (q : Q) :
  get maskData ((y * width + x) * 4 + 3) = Some alpha ->
  alpha = 0 \/ alpha = 255 ->
  hasOppositeNeighbor alpha (neighborsOf maskData width x y) = true ->
  avgNeighbors (neighborsOf maskData width x y) = Some q ->
  smoothDecision maskData width x y =
  if ((alpha =? 0) && Qltb q (inject_Z 64)) || ((alpha =? 255) && Qltb (inject_Z 191) q)
  then None
  else if Qltb (inject_Z 127) q then Some opaque else Some transparent.
Proof.
  intros Halpha Hbin Hopp Havg. unfold smoothDecision.
  rewrite Halpha, Hopp, Havg. simpl.
  destruct Hbin as [-> | ->]; reflexivity.
Qed.

(** C5. Edge smoothing rule. In the smoothing pass, an interior pixel that is
    fully transparent or fully opaque and has a 4-connected neighbour in the
    opposite state is decided by the average [q] of its four neighbours'
    alpha: above 127 it ends fully opaque; at most 127 and currently
    transparent, it ends fully transparent; when the neighbours side with its
    current state (transparent and [q < 64], opaque and [q > 191]) it is left
    as it was. The cleanup runs the pass once, and one pass need not reach a
    fixed point: on the cleaned [diagonalMask] a second pass changes the mask. *)
Theorem edge_smoothing_rule (maskData : list Z) (width height x y alpha : Z) (q : Q) :
  Z.of_nat (length maskData) = width * height * 4 ->
  1 <= x < width - 1 -> 1 <= y < height - 1 ->
  pixelAt maskData (y * width + x) = Some transparent \/
  pixelAt maskData (y * width + x) = Some opaque ->
  get maskData ((y * width + x) * 4 + 3) = Some alpha ->
  hasOppositeNeighbor alpha (neighborsOf maskData width x y) = true ->
  avgNeighbors (neighborsOf maskData width x y) = Some q ->
  ((127 < q)%Q ->
   pixelAt (applyEdgeSmoothing maskData width height) (y * width + x) = Some opaque) /\
  ((q <= 127)%Q -> pixelAt maskData (y * width + x) = Some transparent ->
   pixelAt (applyEdgeSmoothing maskData width height) (y * width + x) = Some transparent) /\
  ((pixelAt maskData (y * width + x) = Some transparent /\ (q < 64)%Q) \/
   (pixelAt maskData (y * width + x) = Some opaque /\ (191 < q)%Q) ->
   pixelAt (applyEdgeSmoothing maskData width height) (y * width + x) =
   pixelAt maskData (y * width + x)) /\
  (forall rawMaskData,
     cleanMaskArtifacts rawMaskData width height =
     applyEdgeSmoothing (thresholdMask rawMaskData width height) width height) /\
  applyEdgeSmoothing (cleanMaskArtifacts diagonalMask 4 4) 4 4 <>
  cleanMaskArtifacts diagonalMask 4 4.
Proof.
  intros Hlen Hx Hy Hbin Halpha Hopp Havg.
  assert (Ha : alpha = 0 \/ alpha = 255).
  { destruct Hbin as [Hp|Hp]; apply pixelAt_alpha in Hp; rewrite Hp in Halpha;
      inversion Halpha; auto. }
  pose proof (smoothDecision_edge _ _ _ _ _ _ Halpha Ha Hopp Havg) as Hdec.
  rewrite (applyEdgeSmoothing_interior _ _ _ _ _ Hlen Hx Hy), Hdec.
  assert (Hcase : (pixelAt maskData (y * width + x) = Some transparent /\ alpha = 0) \/
                  (pixelAt maskData (y * width + x) = Some opaque /\ alpha = 255)).
  { destruct Hbin as [Hp|Hp]; [left|right]; split; try exact Hp;
      apply pixelAt_alpha in Hp; rewrite Hp in Halpha; now inversion Halpha. }
  repeat split.
  - intros Hq.
    assert (Hq' : Qltb (inject_Z 127) q = true) by (apply Qltb_lt; exact Hq).
    rewrite Hq'.
    destruct Hcase as [[Hp ->]|[Hp ->]]; simpl.
    + assert (E : Qltb q (inject_Z 64) = false).
      { apply Qltb_ge. unfold Qle, Qlt in *. simpl in *. lia. }
      now rewrite E.
    + destruct (Qltb (inject_Z 191) q); [exact Hp|reflexivity].
  - intros Hq Hp.
    destruct Hcase as [[_ ->]|[Hp' _]]; [|unfold transparent, opaque in *; congruence].
    assert (E : Qltb (inject_Z 127) q = false) by now apply Qltb_ge.
    rewrite E. simpl. rewrite Bool.orb_false_r.
    destruct (Qltb q (inject_Z 64)); [exact Hp|reflexivity].
  - intros [[Hp Hq]|[Hp Hq]]; destruct Hcase as [[Hp' ->]|[Hp' ->]];
      try (unfold transparent, opaque in *; congruence).
    + assert (E : Qltb q (inject_Z 64) = true) by (apply Qltb_lt; exact Hq).
      now rewrite E.
    + assert (E : Qltb (inject_Z 191) q = true) by (apply Qltb_lt; exact Hq).
      rewrite E. simpl. reflexivity.
  - vm_compute. discriminate.
Qed.

Lemma edge_smoothing_rule_witness :
  pixelAt diagonalMask (1 * 4 + 2) = Some transparent /\
  avgNeighbors (neighborsOf diagonalMask 4 2 1) = Some (510 # 4) /\
  pixelAt (applyEdgeSmoothing diagonalMask 4 4) (1 * 4 + 2) = Some opaque.
Proof.
  split; [reflexivity|]. split; [reflexivity|].
  apply (edge_smoothing_rule diagonalMask 4 4 2 1 0 (510 # 4)).
  - reflexivity.
  - lia.
  - lia.
  - left. reflexivity.
  - reflexivity.
  - reflexivity.
  - reflexivity.
  - reflexivity.
Defined.

Lemma isBinaryPixel_sound (p : option Pixel) :
  isBinaryPixel p = true -> p = Some transparent \/ p = Some opaque.
Proof.
  destruct p as [[[[r g] b] al]|]; simpl; [|discriminate].
  rewrite Bool.orb_true_iff, !Bool.andb_true_iff, !Z.eqb_eq.
  unfold transparent, opaque. intros [H|H]; [left|right]; repeat f_equal; tauto.
Qed.

Lemma isBinaryMask_sound (width height : Z) (a : list Z) :
  isBinaryMask width height a = true -> binaryMask width height a.
Proof.
  unfold isBinaryMask. rewrite Bool.andb_true_iff, Z.eqb_eq, forallb_forall.
  intros [Hlen Hpix]. split; [exact Hlen|].
  intros i Hi. apply isBinaryPixel_sound, Hpix, in_range. lia.
Qed.

(** C6. Idempotence of binary cleanup. On a mask that is already binary, the
    thresholding step (alpha below 10 to (0,0,0,0), otherwise to
    (255,255,255,255)) applied twice gives the same buffer as applied once;
    indeed no pixel changes even on the first application. *)
Theorem binary_cleanup_idempotent (maskData : list Z) (width height : Z) :
  binaryMask width height maskData ->
  thresholdMask (thresholdMask maskData width height) width height =
  thresholdMask maskData width height /\
  thresholdMask maskData width height = maskData.
Proof.
  intros Hbin. rewrite !(thresholdMask_fixes_binary _ _ _ Hbin). split; reflexivity.
Qed.

Lemma binary_cleanup_idempotent_witness :
  binaryMask 4 4 diagonalMask /\
  thresholdMask (thresholdMask diagonalMask 4 4) 4 4 = thresholdMask diagonalMask 4 4.
Proof.
  assert (H : binaryMask 4 4 diagonalMask) by (apply isBinaryMask_sound; reflexivity).
  split; [exact H|].
  exact (proj1 (binary_cleanup_idempotent diagonalMask 4 4 H)).
Defined.

Lemma smoothDecision_no_opposite (maskData : list Z) (width x y : Z) :
  (forall alpha, get maskData ((y * width + x) * 4 + 3) = Some alpha ->
                 hasOppositeNeighbor alpha (neighborsOf maskData width x y) = false) ->
  smoothDecision maskData width x y = None.
Proof.
  intros Hno. unfold smoothDecision.
  destruct (get maskData _) as [alpha|]; [|reflexivity].
  rewrite (Hno alpha eq_refl). now destruct (_ || _).
Qed.

(** C10. Frame of the smoothing pass. The pass leaves every pixel of the
    outermost ring as it was, and every pixel none of whose four neighbours is
    in the opposite alpha state; each interior pixel of the output is what the
    loop body decides from the input buffer alone, so visiting the interior in
    any order gives the same buffer. *)
Theorem edge_smoothing_frame (maskData : list Z) (width height : Z) :
  Z.of_nat (length maskData) = width * height * 4 ->
  (forall x y, 0 <= x < width -> 0 <= y < height ->
     x = 0 \/ y = 0 \/ x = width - 1 \/ y = height - 1 ->
     pixelAt (applyEdgeSmoothing maskData width height) (y * width + x) =
     pixelAt maskData (y * width + x)) /\
  (forall x y, 0 <= x < width -> 0 <= y < height ->
     (forall alpha, get maskData ((y * width + x) * 4 + 3) = Some alpha ->
        hasOppositeNeighbor alpha (neighborsOf maskData width x y) = false) ->
     pixelAt (applyEdgeSmoothing maskData width height) (y * width + x) =
     pixelAt maskData (y * width + x)) /\
  (forall x y, 1 <= x < width - 1 -> 1 <= y < height - 1 ->
     pixelAt (applyEdgeSmoothing maskData width height) (y * width + x) =
     match smoothDecision maskData width x y with
     | Some p => Some p
     | None => pixelAt maskData (y * width + x)
     end) /\
  (forall order, Permutation order (interior width height) ->
     smoothOver order maskData width = applyEdgeSmoothing maskData width height).
Proof.
  intros Hlen. repeat split.
  - intros x y Hx _ Hborder. now apply applyEdgeSmoothing_border.
  - intros x y Hx Hy Hno.
    destruct (Z_lt_le_dec 0 x) as [Hx0|Hx0];
      [|apply applyEdgeSmoothing_border; [exact Hx|lia]].
    destruct (Z_lt_le_dec 0 y) as [Hy0|Hy0];
      [|apply applyEdgeSmoothing_border; [exact Hx|lia]].
    destruct (Z_lt_le_dec x (width - 1)) as [Hx1|Hx1];
      [|apply applyEdgeSmoothing_border; [exact Hx|lia]].
    destruct (Z_lt_le_dec y (height - 1)) as [Hy1|Hy1];
      [|apply applyEdgeSmoothing_border; [exact Hx|lia]].
    rewrite applyEdgeSmoothing_interior by (try exact Hlen; lia).
    now rewrite smoothDecision_no_opposite.
  - intros x y Hx Hy. now apply applyEdgeSmoothing_interior.
  - intros order Hperm. now apply (smoothOver_order order maskData width height).
Qed.

Lemma edge_smoothing_frame_witness :
  pixelAt (applyEdgeSmoothing diagonalMask 4 4) (0 * 4 + 3) = pixelAt diagonalMask (0 * 4 + 3) /\
  smoothOver (rev (interior 4 4)) diagonalMask 4 = applyEdgeSmoothing diagonalMask 4 4.
Proof.
  pose proof (edge_smoothing_frame diagonalMask 4 4 eq_refl) as (Hring & _ & _ & Horder).
  split.
  - apply Hring; lia.
  - apply Horder. symmetry. apply Permutation_rev.
Defined.

(** ** The edge map *)

Lemma sobelEdgeMap_store (imageData : list Z) (width height : Z) :
  sobelEdgeMap imageData width height =
  fold_left (storeStep (pixelIndex width) (edgeValue imageData width))
    (interior width height) (alloc 0%float (width * height)).
Proof.
  unfold sobelEdgeMap, interior.
  rewrite (nested_fold (edgeStep imageData width)).
  apply fold_left_pointwise. intros a [y x]. reflexivity.
Qed.

Lemma sobelEdgeMap_length (imageData : list Z) (width height : Z) :
  0 <= width * height ->
  Z.of_nat (length (sobelEdgeMap imageData width height)) = width * height.
Proof. intros Hn. rewrite sobelEdgeMap_store, store_length, length_alloc. lia. Qed.

Lemma sobelEdgeMap_interior (imageData : list Z) (width height x y : Z) :
  1 <= x < width - 1 -> 1 <= y < height - 1 ->
  get (sobelEdgeMap imageData width height) (y * width + x) =
  Some (Js.fround (sobelGradient imageData width x y)).
Proof.
  intros Hx Hy. rewrite sobelEdgeMap_store.
  change (y * width + x) with (pixelIndex width (y, x)).
  apply store_stored.
  - apply in_interior. lia.
  - intros it' Hin'. apply (interior_inj width height); [exact Hin'|].
    apply in_interior. lia.
  - rewrite length_alloc. unfold pixelIndex. simpl. nia.
  - reflexivity.
Qed.

(** C7. Border-edge policy. For any input raster, the edge map holds exactly
    0 at every pixel of the outermost one-pixel ring: the Sobel loop never
    stores there and the entries keep the zero they were allocated with. *)
Theorem border_edge_zero (imageData : list Z) (width height x y : Z) :
  0 <= x < width -> 0 <= y < height ->
  x = 0 \/ y = 0 \/ x = width - 1 \/ y = height - 1 ->
  get (sobelEdgeMap imageData width height) (y * width + x) = Some 0%float.
Proof.
  intros Hx Hy Hborder. rewrite sobelEdgeMap_store.
  rewrite store_untouched.
  - apply get_alloc. nia.
  - intros [y' x'] Hin Heq. apply in_interior in Hin.
    assert (H : (y', x') = (y, x))
      by (apply (pixelIndex_inj width); simpl; [lia|lia|exact Heq]).
    inversion H; subst. lia.
Qed.

Lemma border_edge_zero_witness :
  get (sobelEdgeMap stepImage 4 4) (2 * 4 + 0) = Some 0%float /\
  get (sobelEdgeMap stepImage 4 4) (2 * 4 + 1) = Some 760%float.
Proof.
  split.
  - apply (border_edge_zero stepImage 4 4 0 2); lia.
  - vm_compute. reflexivity.
Defined.

(** ** The background score map *)

Lemma detectBackgroundAreas_store (imageData : list Z) (edgeMap : list float)
  (width height : Z) (colorClusters : ColorClusters) :
  detectBackgroundAreas imageData edgeMap width height colorClusters =
  fold_left (storeStep (fun i => i) (backgroundValue imageData edgeMap colorClusters))
    (range 0 (width * height)) (alloc 0%float (width * height)).
Proof.
  unfold detectBackgroundAreas. apply fold_left_pointwise. intros a i.
  unfold backgroundStep, storeStep, backgroundValue.
  now destruct (Js.entryLt _ _).
Qed.

(** The score map holds, at every pixel, the rounded cluster score when the
    edge entry is below the threshold, and the initial zero otherwise. *)
Lemma detectBackgroundAreas_entry (imageData : list Z) (edgeMap : list float)
  (width height : Z) (colorClusters : ColorClusters) (i : Z) :
  0 <= i < width * height ->
  get (detectBackgroundAreas imageData edgeMap width height colorClusters) i =
  Some (if Js.entryLt (get edgeMap i) edgeThreshold
        then Js.fround (clusterScore imageData colorClusters i)
        else 0%float).
Proof.
  intros Hi. rewrite detectBackgroundAreas_store.
  destruct (Js.entryLt (get edgeMap i) edgeThreshold) eqn:E.
  - apply (store_stored (fun i => i) _ _ _ i).
    + apply in_range. lia.
    + intros it' _ Heq. exact Heq.
    + rewrite length_alloc. lia.
    + unfold backgroundValue. now rewrite E.
  - rewrite (store_skipped (fun i => i) _ _ _ i).
    + apply get_alloc. lia.
    + intros it' _ Heq. exact Heq.
    + unfold backgroundValue. now rewrite E.
Qed.

(** ** Mask emission *)

Section Emission.

Variables (imageData : list Z) (edgeMap backgroundAreas : list float).
Variables (width height : Z) (colorClusters : ColorClusters).

Let step := emitStep imageData edgeMap backgroundAreas width height colorClusters.
Let pixel := emitPixel imageData edgeMap backgroundAreas width height colorClusters.

Lemma emit_raw (items : list (Z * Z)) (st : MaskState) :
  rawMaskData (fold_left step items st) =
  fold_left (paintStep (pixelIndex width) (fun yx => Some (pixel yx))) items
    (rawMaskData st).
Proof.
  revert st. induction items as [|[y x] items IH]; intros st; simpl; [reflexivity|].
  rewrite IH. f_equal.
  unfold step, emitStep, paintStep, pixel, emitPixel, pixelIndex. simpl.
  now destruct (isBackgroundPixel _ _ _ _ _ _ _ _ _).
Qed.

Lemma emitStep_counters (st : MaskState) (yx : Z * Z) :
  (pixel yx = transparent /\
   editablePixels (step st yx) = editablePixels st + 1 /\
   protectedPixels (step st yx) = protectedPixels st) \/
  (pixel yx = opaque /\
   editablePixels (step st yx) = editablePixels st /\
   protectedPixels (step st yx) = protectedPixels st + 1).
Proof.
  destruct yx as [y x]. unfold step, emitStep, pixel, emitPixel. cbn [fst snd].
  destruct (isBackgroundPixel _ _ _ _ _ _ _ _ _); [left|right]; cbn; auto.
Qed.

Lemma emit_counters_mono (items : list (Z * Z)) (st : MaskState) :
  editablePixels st <= editablePixels (fold_left step items st) /\
  protectedPixels st <= protectedPixels (fold_left step items st).
Proof.
  revert st. induction items as [|yx items IH]; intros st; simpl; [lia|].
  destruct (IH (step st yx)) as [He Hp].
  destruct (emitStep_counters st yx) as [(_ & E1 & E2)|(_ & E1 & E2)]; lia.
Qed.

(** If the counter of editable pixels did not move, every pixel was emitted
    opaque. *)
Lemma emit_none_editable (items : list (Z * Z)) (st : MaskState) :
  editablePixels (fold_left step items st) = editablePixels st ->
  forall yx, In yx items -> pixel yx = opaque.
Proof.
  revert st. induction items as [|yx0 items IH]; intros st Heq yx Hin;
    simpl in Heq, Hin; [contradiction|].
  destruct (emit_counters_mono items (step st yx0)) as [Hmono _].
  destruct (emitStep_counters st yx0) as [(_ & E1 & _)|(Hpix & E1 & _)]; [lia|].
  destruct Hin as [<-|Hin]; [exact Hpix|].
  apply (IH (step st yx0)); [lia|exact Hin].
Qed.

(** If the counter of protected pixels did not move, every pixel was emitted
    transparent. *)
Lemma emit_none_protected (items : list (Z * Z)) (st : MaskState) :
  protectedPixels (fold_left step items st) = protectedPixels st ->
  forall yx, In yx items -> pixel yx = transparent.
Proof.
  revert st. induction items as [|yx0 items IH]; intros st Heq yx Hin;
    simpl in Heq, Hin; [contradiction|].
  destruct (emit_counters_mono items (step st yx0)) as [_ Hmono].
  destruct (emitStep_counters st yx0) as [(Hpix & _ & E1)|(_ & _ & E1)]; [|lia].
  destruct Hin as [<-|Hin]; [exact Hpix|].
  apply (IH (step st yx0)); [lia|exact Hin].
Qed.

End Emission.

Lemma emitMask_fold (imageData : list Z) (edgeMap backgroundAreas : list float)
  (width height : Z) (colorClusters : ColorClusters) :
  emitMask imageData edgeMap backgroundAreas width height colorClusters =
  fold_left (emitStep imageData edgeMap backgroundAreas width height colorClusters)
    (grid (range 0 height) (range 0 width))
    {| rawMaskData := alloc 0 (width * height * 4);
       protectedPixels := 0; editablePixels := 0; backgroundDetected := 0 |}.
Proof. unfold emitMask. apply nested_fold. Qed.

Lemma in_raster (width height y x : Z) :
  In (y, x) (grid (range 0 height) (range 0 width)) <->
  0 <= y < height /\ 0 <= x < width.
Proof. rewrite in_grid, !in_range. tauto. Qed.

Lemma emitMask_length (imageData : list Z) (edgeMap backgroundAreas : list float)
  (width height : Z) (colorClusters : ColorClusters) :
  0 <= width * height ->
  Z.of_nat (length (rawMaskData
    (emitMask imageData edgeMap backgroundAreas width height colorClusters))) =
  width * height * 4.
Proof.
  intros Hn. rewrite emitMask_fold, emit_raw, paint_length. simpl.
  rewrite length_alloc. lia.
Qed.

(** The raw mask holds, at every pixel of the raster, the pixel the emission
    loop chose from the classification of that pixel. *)
Lemma emitMask_pixel (imageData : list Z) (edgeMap backgroundAreas : list float)
  (width height : Z) (colorClusters : ColorClusters) (x y : Z) :
  0 <= x < width -> 0 <= y < height ->
  pixelAt (rawMaskData
    (emitMask imageData edgeMap backgroundAreas width height colorClusters))
    (y * width + x) =
  Some (emitPixel imageData edgeMap backgroundAreas width height colorClusters (y, x)).
Proof.
  intros Hx Hy. rewrite emitMask_fold, emit_raw. simpl rawMaskData.
  change (y * width + x) with (pixelIndex width (y, x)).
  apply paint_stored.
  - apply in_raster. lia.
  - intros [y' x'] Hin Heq. apply in_raster in Hin.
    apply (pixelIndex_inj width); simpl; [lia|lia|exact Heq].
  - unfold pixelIndex. simpl. nia.
  - rewrite length_alloc. unfold pixelIndex. simpl. nia.
  - reflexivity.
Qed.

(** Every pixel index of the raster is the index of a pair of coordinates. *)
Lemma pixel_coordinates (width height i : Z) :
  0 <= i < width * height -> 0 <= width ->
  exists x y, 0 <= x < width /\ 0 <= y < height /\ i = y * width + x.
Proof.
  intros Hi Hw.
  assert (Hw' : 0 < width).
  { destruct (Z.eq_dec width 0) as [->|]; [|lia]. rewrite Z.mul_0_l in Hi. lia. }
  exists (i mod width), (i / width).
  pose proof (Z.mod_pos_bound i width Hw').
  pose proof (Z.div_mod i width ltac:(lia)).
  repeat split; try lia.
  - apply Z.div_pos; lia.
  - apply Z.div_lt_upper_bound; nia.
Qed.

(** C2. Composite classification. For every pixel [(x, y)] of the raster, with
    [gradient] its entry of the edge map and [colorScore] its entry of the
    background score map, the classifier marks the pixel background exactly
    when [borderBias + edgeScore + colorScore + centerBias > 0.5], where
    [borderBias] is 0.3 if [min(x, y, width-x-1, height-y-1) < 50] and 0
    otherwise, [edgeScore] is 0.4 if [gradient < 25] and 0 otherwise, and
    [centerBias] is the distance from the image centre over the distance from
    the centre to a corner, times 0.2. Background pixels are emitted as
    (0,0,0,0), subject pixels as (255,255,255,255). *)
Theorem composite_classification (imageData : list Z) (width height x y : Z) :
  0 <= x < width -> 0 <= y < height ->
  exists gradient colorScore : float,
    get (sobelEdgeMap imageData width height) (y * width + x) = Some gradient /\
    get (detectBackgroundAreas imageData (sobelEdgeMap imageData width height)
           width height (analyzeColorClusters imageData width height))
        (y * width + x) = Some colorScore /\
    isBackgroundPixel x y (y * width + x) imageData
      (sobelEdgeMap imageData width height)
      (detectBackgroundAreas imageData (sobelEdgeMap imageData width height)
         width height (analyzeColorClusters imageData width height))
      width height (analyzeColorClusters imageData width height) =
    (0.5 <? specBackgroundScore width height x y gradient colorScore)%float /\
    pixelAt (rawMaskData (classify imageData width height)) (y * width + x) =
    Some (if (0.5 <? specBackgroundScore width height x y gradient colorScore)%float
          then transparent else opaque).
Proof.
  intros Hx Hy.
  assert (Hi : 0 <= y * width + x < width * height) by nia.
  destruct (get_is_Some (sobelEdgeMap imageData width height) (y * width + x))
    as [gradient Hg]; [rewrite sobelEdgeMap_length; lia|].
  pose proof (detectBackgroundAreas_entry imageData
                (sobelEdgeMap imageData width height) width height
                (analyzeColorClusters imageData width height) _ Hi) as Hc.
  eexists gradient, _. split; [exact Hg|]. split; [exact Hc|].
  assert (Hbg : forall areas cc,
    get areas (y * width + x) = Some
      (if Js.entryLt (get (sobelEdgeMap imageData width height) (y * width + x))
            edgeThreshold
       then Js.fround (clusterScore imageData (analyzeColorClusters imageData width height)
                         (y * width + x))
       else 0%float) ->
    isBackgroundPixel x y (y * width + x) imageData
      (sobelEdgeMap imageData width height) areas width height cc =
    (0.5 <? specBackgroundScore width height x y gradient
       (if Js.entryLt (get (sobelEdgeMap imageData width height) (y * width + x))
            edgeThreshold
        then Js.fround (clusterScore imageData
                          (analyzeColorClusters imageData width height) (y * width + x))
        else 0%float))%float).
  { intros areas cc Ha.
    unfold isBackgroundPixel, specBackgroundScore, specBorderBias, specEdgeScore,
      specCenterBias, euclid, Js.pow2.
    rewrite Ha, Hg. cbn [Js.entryLt Js.ofEntry].
    replace (Z.min (Z.min (Z.min x y) (width - x - 1)) (height - y - 1))
      with (Z.min x (Z.min y (Z.min (width - x - 1) (height - y - 1)))) by lia.
    reflexivity. }
  split.
  - apply Hbg. exact Hc.
  - unfold classify. rewrite emitMask_pixel by assumption.
    unfold emitPixel. cbn [fst snd]. rewrite (Hbg _ _ Hc). reflexivity.
Qed.

Lemma composite_classification_witness :
  exists gradient colorScore : float,
    get (sobelEdgeMap stepImage 4 4) (1 * 4 + 1) = Some gradient /\
    get (detectBackgroundAreas stepImage (sobelEdgeMap stepImage 4 4) 4 4
           (analyzeColorClusters stepImage 4 4)) (1 * 4 + 1) = Some colorScore /\
    isBackgroundPixel 1 1 (1 * 4 + 1) stepImage (sobelEdgeMap stepImage 4 4)
      (detectBackgroundAreas stepImage (sobelEdgeMap stepImage 4 4) 4 4
         (analyzeColorClusters stepImage 4 4))
      4 4 (analyzeColorClusters stepImage 4 4) =
    (0.5 <? specBackgroundScore 4 4 1 1 gradient colorScore)%float /\
    pixelAt (rawMaskData (classify stepImage 4 4)) (1 * 4 + 1) =
    Some (if (0.5 <? specBackgroundScore 4 4 1 1 gradient colorScore)%float
          then transparent else opaque).
Proof.
  apply (composite_classification stepImage 4 4 1 1); lia.
Defined.

(** ** The whole pipeline *)

Lemma classify_length (imageData : list Z) (width height : Z) :
  0 <= width * height ->
  Z.of_nat (length (rawMaskData (classify imageData width height))) = width * height * 4.
Proof. intros Hn. unfold classify. now apply emitMask_length. Qed.

(** C1. Binary mask invariant. For every well-formed RGB raster, the mask of
    the heuristic classifier after binary cleanup has [width * height] pixels,
    each (0,0,0,0) or (255,255,255,255): alpha is 0 or 255 and the colour
    channels mirror it. The same holds after the edge-smoothing pass. *)
Theorem binary_mask_invariant (imageData : list Z) (width height : Z) :
  0 <= width -> 0 <= height ->
  Z.of_nat (length imageData) = width * height * 3 ->
  binaryMask width height
    (thresholdMask (rawMaskData (classify imageData width height)) width height) /\
  binaryMask width height
    (applyEdgeSmoothing
       (thresholdMask (rawMaskData (classify imageData width height)) width height)
       width height).
Proof.
  intros Hw Hh _.
  assert (Hn : 0 <= width * height) by nia.
  split.
  - now apply thresholdMask_binary.
  - now apply applyEdgeSmoothing_binary, thresholdMask_binary.
Qed.

Lemma binary_mask_invariant_witness :
  isBinaryMask 4 4 (cleanMaskArtifacts (rawMaskData (classify stepImage 4 4)) 4 4) = true /\
  binaryMask 4 4 (thresholdMask (rawMaskData (classify stepImage 4 4)) 4 4) /\
  binaryMask 4 4
    (applyEdgeSmoothing (thresholdMask (rawMaskData (classify stepImage 4 4)) 4 4) 4 4).
Proof.
  split; [vm_compute; reflexivity|].
  apply (binary_mask_invariant stepImage 4 4); [lia|lia|reflexivity].
Defined.

Lemma smoothDecision_uniform (maskData : list Z) (width height x y : Z) (p : Pixel) :
  p = transparent \/ p = opaque ->
  (forall i, 0 <= i < width * height -> pixelAt maskData i = Some p) ->
  1 <= x < width - 1 -> 1 <= y < height - 1 ->
  smoothDecision maskData width x y = None.
Proof.
  intros Hp Hall Hx Hy. apply smoothDecision_no_opposite. intros alpha Halpha.
  assert (Hbyte : forall j, 0 <= j < width * height ->
            get maskData (j * 4 + 3) = Some (snd p)).
  { intros j Hj. specialize (Hall j Hj). destruct p as [[[r g] b] al].
    now apply pixelAt_alpha in Hall. }
  rewrite Hbyte in Halpha by nia. inversion Halpha; subst alpha.
  unfold neighborsOf. rewrite !Hbyte by nia.
  destruct Hp as [-> | ->]; reflexivity.
Qed.

(** A pass over a mask whose pixels are all in the same state changes nothing. *)
Lemma applyEdgeSmoothing_uniform (maskData : list Z) (width height : Z) (p : Pixel) :
  0 <= width ->
  Z.of_nat (length maskData) = width * height * 4 ->
  p = transparent \/ p = opaque ->
  (forall i, 0 <= i < width * height -> pixelAt maskData i = Some p) ->
  applyEdgeSmoothing maskData width height = maskData.
Proof.
  intros Hw Hlen Hp Hall.
  apply (mask_ext _ _ (width * height));
    [now rewrite applyEdgeSmoothing_length|exact Hlen|].
  intros i Hi.
  destruct (pixel_coordinates width height i Hi Hw) as (x & y & Hx & Hy & ->).
  destruct (Z_lt_le_dec 0 x) as [Hx0|Hx0];
    [|apply applyEdgeSmoothing_border; [exact Hx|lia]].
  destruct (Z_lt_le_dec 0 y) as [Hy0|Hy0];
    [|apply applyEdgeSmoothing_border; [exact Hx|lia]].
  destruct (Z_lt_le_dec x (width - 1)) as [Hx1|Hx1];
    [|apply applyEdgeSmoothing_border; [exact Hx|lia]].
  destruct (Z_lt_le_dec y (height - 1)) as [Hy1|Hy1];
    [|apply applyEdgeSmoothing_border; [exact Hx|lia]].
  rewrite applyEdgeSmoothing_interior by (try exact Hlen; lia).
  now rewrite (smoothDecision_uniform maskData width height x y p) by (assumption || lia).
Qed.

(** A raw mask whose pixels are all in the same state comes out of the cleanup
    with all pixels in that state. *)
Lemma cleanMaskArtifacts_uniform (rawMask : list Z) (width height : Z) (p : Pixel) :
  0 <= width -> 0 <= height ->
  p = transparent \/ p = opaque ->
  (forall i, 0 <= i < width * height -> pixelAt rawMask i = Some p) ->
  forall i, 0 <= i < width * height ->
    pixelAt (cleanMaskArtifacts rawMask width height) i = Some p.
Proof.
  intros Hw Hh Hp Hall.
  assert (Hn : 0 <= width * height) by nia.
  assert (Hclean : forall i, 0 <= i < width * height ->
            pixelAt (thresholdMask rawMask width height) i = Some p).
  { intros i Hi. rewrite thresholdMask_pixel by exact Hi. f_equal.
    now apply thresholdPixel_of_binary; [apply Hall|]. }
  unfold cleanMaskArtifacts.
  rewrite (applyEdgeSmoothing_uniform _ width height p); try assumption.
  now apply thresholdMask_length.
Qed.

Lemma classify_all (imageData : list Z) (width height : Z) (p : Pixel) :
  0 <= width ->
  (forall yx, In yx (grid (range 0 height) (range 0 width)) ->
     emitPixel imageData (sobelEdgeMap imageData width height)
       (detectBackgroundAreas imageData (sobelEdgeMap imageData width height)
          width height (analyzeColorClusters imageData width height))
       width height (analyzeColorClusters imageData width height) yx = p) ->
  forall i, 0 <= i < width * height ->
    pixelAt (rawMaskData (classify imageData width height)) i = Some p.
Proof.
  intros Hw Hall i Hi.
  destruct (pixel_coordinates width height i Hi Hw) as (x & y & Hx & Hy & ->).
  unfold classify. rewrite emitMask_pixel by assumption.
  f_equal. apply Hall. apply in_raster. lia.
Qed.

(** C9. Totality and degenerate outputs. On every well-formed raster (buffer
    of [width * height * 3] bytes) the pipeline returns, without raising, a
    binary RGBA mask of [width * height] pixels, which is the cleaned raw mask
    whatever the diagnostics say. When no pixel was counted editable the mask
    is returned fully opaque with the warning that no background was found;
    when no pixel was counted protected it is returned fully transparent with
    the warning that no subject was found. *)
Theorem mask_synthesis_total (imageData : list Z) (width height : Z) :
  0 <= width -> 0 <= height ->
  Z.of_nat (length imageData) = width * height * 3 ->
  exists mask warnings,
    createBackgroundMask imageData width height = Returned mask warnings /\
    binaryMask width height mask /\
    mask = cleanMaskArtifacts (rawMaskData (classify imageData width height))
             width height /\
    (editablePixels (classify imageData width height) = 0 ->
     In NoBackgroundDetected warnings /\
     forall i, 0 <= i < width * height -> pixelAt mask i = Some opaque) /\
    (protectedPixels (classify imageData width height) = 0 ->
     In NoSubjectDetected warnings /\
     forall i, 0 <= i < width * height -> pixelAt mask i = Some transparent).
Proof.
  intros Hw Hh _.
  assert (Hn : 0 <= width * height) by nia.
  unfold createBackgroundMask.
  destruct (width * height <? 0) eqn:E; [apply Z.ltb_lt in E; lia|].
  eexists _, _. split; [reflexivity|].
  split; [now apply cleanMaskArtifacts_binary|].
  split; [reflexivity|].
  split.
  - intros Hzero. split.
    + unfold validateMask. rewrite Hzero. simpl. now left.
    + apply cleanMaskArtifacts_uniform; auto.
      apply classify_all; [exact Hw|].
      unfold classify in Hzero. rewrite emitMask_fold in Hzero.
      now apply (emit_none_editable _ _ _ _ _ _ _ _ Hzero).
  - intros Hzero. split.
    + unfold validateMask. rewrite Hzero.
      apply in_or_app. right. apply in_or_app. left. now left.
    + apply cleanMaskArtifacts_uniform; auto.
      apply classify_all; [exact Hw|].
      unfold classify in Hzero. rewrite emitMask_fold in Hzero.
      now apply (emit_none_protected _ _ _ _ _ _ _ _ Hzero).
Qed.

Lemma mask_synthesis_total_witness :
  exists mask warnings,
    createBackgroundMask stepImage 4 4 = Returned mask warnings /\
    binaryMask 4 4 mask /\
    mask = cleanMaskArtifacts (rawMaskData (classify stepImage 4 4)) 4 4 /\
    (editablePixels (classify stepImage 4 4) = 0 ->
     In NoBackgroundDetected warnings /\
     forall i, 0 <= i < 4 * 4 -> pixelAt mask i = Some opaque) /\
    (protectedPixels (classify stepImage 4 4) = 0 ->
     In NoSubjectDetected warnings /\
     forall i, 0 <= i < 4 * 4 -> pixelAt mask i = Some transparent).
Proof.
  apply (mask_synthesis_total stepImage 4 4); [lia|lia|reflexivity].
Defined.

(** ** Order of binary64 numbers *)

Lemma SFcompare_Lt_Gt (a b : spec_float) :
  SFcompare a b = Some Lt -> SFcompare b a = Some Gt.
Proof.
  destruct a as [sa|sa| |sa ma ea], b as [sb|sb| |sb mb eb]; simpl;
    try discriminate; try (destruct sa; discriminate || reflexivity);
    try (destruct sb; discriminate || reflexivity);
    try (destruct sa, sb; discriminate || reflexivity).
  assert (Hm : Pos.compare_cont Eq mb ma = CompOpp (Pos.compare_cont Eq ma mb))
    by (symmetry; apply (Pos.compare_cont_antisym ma mb Eq)).
  destruct sa, sb; try discriminate; try reflexivity;
    rewrite (Z.compare_antisym ea eb);
    destruct (ea ?= eb)%Z; simpl; try discriminate; try reflexivity;
    rewrite Hm;
    destruct (Pos.compare_cont Eq ma mb); simpl; discriminate || reflexivity.
Qed.

(** [x < y] excludes [y <= x]. *)
Lemma ltb_leb_false (x y : float) :
  (x <? y)%float = true -> (y <=? x)%float = false.
Proof.
  rewrite ltb_spec, leb_spec. unfold SFltb, SFleb.
  destruct (SFcompare (Prim2SF x) (Prim2SF y)) as [[| |]|] eqn:E; try discriminate.
  intros _. now rewrite (SFcompare_Lt_Gt _ _ E).
Qed.

Lemma Prim2SF_one : Prim2SF 1 = S754_finite false 4503599627370496 (-52).
Proof. vm_compute. reflexivity. Qed.

Lemma Prim2SF_band_end : Prim2SF 1.3 = S754_finite false 5854679515581645 (-52).
Proof. vm_compute. reflexivity. Qed.

(** Among positive numbers of one binade, whatever lies above the larger lies
    above the smaller. *)
Lemma SFcompare_above (m1 m2 : positive) (e0 : Z) (b : spec_float) :
  (m1 < m2)%positive ->
  SFcompare (S754_finite false m2 e0) b = Some Lt ->
  SFcompare b (S754_finite false m1 e0) = Some Gt.
Proof.
  intros Hm. destruct b as [s|s| |s m e]; cbn [SFcompare]; try discriminate.
  - destruct s; [discriminate|reflexivity].
  - destruct s; [discriminate|].
    rewrite (Z.compare_antisym e0 e).
    destruct (Z.compare_spec e0 e) as [Heq|Hlt|Hgt]; cbn [CompOpp]; try discriminate;
      [|reflexivity].
    rewrite !Pos.compare_cont_spec. cbn [Pos.switch_Eq].
    destruct (Pos.compare_spec m2 m) as [|Hlt|]; try discriminate.
    intros _. destruct (Pos.compare_spec m m1) as [E|E|E]; try lia. reflexivity.
Qed.

(** A number above 1.3 is not at most 1. *)
Lemma above_band_not_inside (d : float) :
  (1.3 <? d)%float = true -> (d <=? 1)%float = false.
Proof.
  rewrite ltb_spec, leb_spec. unfold SFltb, SFleb.
  rewrite Prim2SF_one, Prim2SF_band_end.
  destruct (SFcompare (S754_finite false 5854679515581645 (-52)) (Prim2SF d))
    as [[| |]|] eqn:E; try discriminate.
  intros _.
  rewrite (SFcompare_above 4503599627370496 5854679515581645 (-52) _);
    [reflexivity|lia|exact E].
Qed.

(** ** The ellipse mask *)

(** [alphaOf] with the value of its transition branch written out. *)
Lemma alphaOf_float (d : float) :
  Ellipse.alphaOf d =
  (if d <=? 1 then 255
   else if d <=? 1.3 then Js.floor (255 * Js.max 0 ((1.3 - d) / 0.3))
   else 0)%float.
Proof. reflexivity. Qed.

Lemma ellipseMask_paint (fractionX fractionY : float) (width height : Z) :
  Ellipse.ellipseMask fractionX fractionY width height =
  fold_left
    (paintStep (pixelIndex width)
       (fun yx => Some (Ellipse.maskPixel fractionX fractionY width height yx)))
    (grid (range 0 height) (range 0 width)) (alloc 0 (width * height * 4)).
Proof.
  unfold Ellipse.ellipseMask.
  rewrite (nested_fold (Ellipse.maskStep fractionX fractionY width height)).
  apply fold_left_pointwise. intros a [y x]. reflexivity.
Qed.

(** Every pixel of the ellipse mask holds what the loop body computes for its
    coordinates. *)
Lemma ellipseMask_pixel (fractionX fractionY : float) (width height x y : Z) :
  0 <= x < width -> 0 <= y < height ->
  pixelAt (Ellipse.ellipseMask fractionX fractionY width height) (y * width + x) =
  Some (Ellipse.maskPixel fractionX fractionY width height (y, x)).
Proof.
  intros Hx Hy. rewrite ellipseMask_paint.
  change (y * width + x) with (pixelIndex width (y, x)).
  apply paint_stored.
  - apply in_raster. lia.
  - intros [y' x'] Hin Heq. apply in_raster in Hin.
    apply (pixelIndex_inj width); simpl; [lia|lia|exact Heq].
  - unfold pixelIndex. simpl. nia.
  - rewrite length_alloc. unfold pixelIndex. simpl. nia.
  - reflexivity.
Qed.

(** C4, as amended. Ellipse mask bands. For every width, height and pair of
    radius fractions, the pixel at normalized elliptical distance [d] is
    stored with its three colour channels equal to a level and its alpha
    channel equal to 255; the level is 255 when [d <= 1.0], the integer part
    [floor(255 * max(0, (1.3 - d) / 0.3))] when [1.0 < d <= 1.3], and 0 when
    [d > 1.3]. *)
Theorem ellipse_mask_bands (fractionX fractionY : float) (width height x y : Z) :
  0 <= x < width -> 0 <= y < height ->
  exists level : Z,
    pixelAt (Ellipse.ellipseMask fractionX fractionY width height) (y * width + x) =
    Some (level, level, level, 255) /\
    ((Ellipse.distanceAt fractionX fractionY width height x y <=? 1)%float = true ->
     level = 255) /\
    ((1 <? Ellipse.distanceAt fractionX fractionY width height x y)%float = true ->
     (Ellipse.distanceAt fractionX fractionY width height x y <=? 1.3)%float = true ->
     level = Js.toUint8 (Js.floor (Ellipse.specBandAlpha
               (Ellipse.distanceAt fractionX fractionY width height x y)))) /\
    ((1.3 <? Ellipse.distanceAt fractionX fractionY width height x y)%float = true ->
     level = 0).
Proof.
  intros Hx Hy.
  exists (Js.toUint8 (Ellipse.alphaOf
            (Ellipse.distanceAt fractionX fractionY width height x y))).
  split; [now apply ellipseMask_pixel|].
  rewrite alphaOf_float.
  set (d := Ellipse.distanceAt fractionX fractionY width height x y).
  repeat split.
  - intros H. rewrite H. reflexivity.
  - intros H1 H13. rewrite (ltb_leb_false _ _ H1), H13. reflexivity.
  - intros H. rewrite (above_band_not_inside _ H), (ltb_leb_false _ _ H). reflexivity.
Qed.

Lemma ellipse_mask_bands_witness :
  (Ellipse.distanceAt 0.25 0.3 512 512 256 256 <=? 1)%float = true /\
  exists level : Z,
    pixelAt (Ellipse.createBackgroundMask 512 512) (256 * 512 + 256) =
    Some (level, level, level, 255) /\ level = 255.
Proof.
  split; [vm_compute; reflexivity|].
  destruct (ellipse_mask_bands 0.25 0.3 512 512 256 256) as (level & Hp & H1 & _);
    [lia|lia|].
  exists level. split; [exact Hp|]. apply H1. vm_compute. reflexivity.
Defined.

(** C4, as stated, fails. In the 512x512 mask with fractions 0.25 and 0.3, the
    pixel (396, 256) lies in the transition band at distance 1.09375; the
    stated alpha [255 * max(0, (1.3 - d) / 0.3)] is 175.31250000000006 there,
    while the pixel stored is (175, 175, 175, 255): no channel holds the
    stated value. *)
Lemma ellipse_band_alpha_counterexample :
  (1 <? Ellipse.distanceAt 0.25 0.3 512 512 396 256)%float = true /\
  (Ellipse.distanceAt 0.25 0.3 512 512 396 256 <=? 1.3)%float = true /\
  Ellipse.specBandAlpha (Ellipse.distanceAt 0.25 0.3 512 512 396 256) =
    175.31250000000006%float /\
  pixelAt (Ellipse.createBackgroundMask 512 512) (256 * 512 + 396) =
    Some (175, 175, 175, 255) /\
  (forall channel, In channel [175; 175; 175; 255] ->
     Js.ofZ channel <>
     Ellipse.specBandAlpha (Ellipse.distanceAt 0.25 0.3 512 512 396 256)).
Proof.
  split; [vm_compute; reflexivity|].
  split; [vm_compute; reflexivity|].
  split; [vm_compute; reflexivity|].
  split.
  - unfold Ellipse.createBackgroundMask.
    rewrite ellipseMask_pixel by lia. vm_compute. reflexivity.
  - intros channel Hin Heq.
    assert (Hc : channel = 175 \/ channel = 255) by (simpl in Hin; intuition lia).
    destruct Hc as [-> | ->]; vm_compute in Heq; discriminate Heq.
Qed.

(** ** Rounding of the transition band *)


Lemma bpow_pos (e : Z) : (0 < bpow e)%Q.
Proof. unfold bpow. apply Qpower_0_lt. reflexivity. Qed.

Lemma bpow_succ (e : Z) : (bpow (e + 1) == 2 * bpow e)%Q.
Proof.
  unfold bpow. rewrite Qpower_plus by discriminate.
  change (2 ^ 1)%Q with 2%Q. ring.
Qed.

Lemma bpow_add (a b : Z) : (bpow (a + b) == bpow a * bpow b)%Q.
Proof. unfold bpow. apply Qpower_plus. discriminate. Qed.

Lemma bpow_nonneg_exp (e : Z) : 0 <= e -> (bpow e == inject_Z (2 ^ e))%Q.
Proof. intros He. unfold bpow. now rewrite Zpower_Qpower. Qed.

Lemma bpow_le (a b : Z) : a <= b -> (bpow a <= bpow b)%Q.
Proof. intros H. unfold bpow. apply Qpower_le_compat_l; [exact H|]. unfold Qle; simpl; lia. Qed.

Lemma bpow_lt_inv (a b : Z) : (bpow a < bpow b)%Q -> a < b.
Proof.
  intros H. destruct (Z_lt_le_dec a b) as [Hlt|Hge]; [exact Hlt|].
  apply bpow_le in Hge. lra.
Qed.

(** Digits. *)
Lemma digits2_pos_bounds (p : positive) :
  2 ^ (Zpos (digits2_pos p) - 1) <= Zpos p < 2 ^ Zpos (digits2_pos p).
Proof.
  induction p as [p IH|p IH|]; cbn [digits2_pos].
  - rewrite Pos2Z.inj_succ.
    replace (Z.succ (Zpos (digits2_pos p)) - 1) with (Z.succ (Zpos (digits2_pos p) - 1)) by lia.
    rewrite !Z.pow_succ_r by lia. lia.
  - rewrite Pos2Z.inj_succ.
    replace (Z.succ (Zpos (digits2_pos p)) - 1) with (Z.succ (Zpos (digits2_pos p) - 1)) by lia.
    rewrite !Z.pow_succ_r by lia. lia.
  - simpl. lia.
Qed.

Lemma digits2_pos_unique (p : positive) (k : Z) :
  2 ^ (k - 1) <= Zpos p < 2 ^ k -> Zpos (digits2_pos p) = k.
Proof.
  intros [Hlo Hhi]. pose proof (digits2_pos_bounds p) as [Dlo Dhi].
  assert (0 < k).
  { destruct (Z_lt_le_dec 0 k); [assumption|].
    assert (2 ^ k <= 2 ^ 0) by (apply Z.pow_le_mono_r; lia). simpl in *. lia. }
  destruct (Z.lt_trichotomy (Zpos (digits2_pos p)) k) as [Hlt|[Heq|Hgt]]; [|exact Heq|].
  - assert (2 ^ Zpos (digits2_pos p) <= 2 ^ (k - 1)) by (apply Z.pow_le_mono_r; lia). lia.
  - assert (2 ^ k <= 2 ^ (Zpos (digits2_pos p) - 1)) by (apply Z.pow_le_mono_r; lia). lia.
Qed.



Ltac push_inject :=
  repeat first [ rewrite inject_Z_plus | rewrite inject_Z_mult ];
  change (inject_Z 1) with 1%Q; change (inject_Z 2) with 2%Q; change (inject_Z 0) with 0%Q.

Lemma shr_1_bracket (X : Q) (mrs : shr_record) (e : Z) :
  bracketRec X mrs e -> bracketRec X (shr_1 mrs) (e + 1).
Proof.
  destruct mrs as [m r s]. unfold bracketRec, bracket. cbn [shr_m].
  pose proof (bpow_pos e) as HB.
  pose proof (bpow_succ e) as HS.
  generalize dependent (bpow (e + 1)). generalize dependent (bpow e).
  intros B HB B' HS.
  destruct m as [|[p|p|]|p]; [| | | |lia];
    destruct r, s; cbn [shr_1 shr_m orb loc_of_shr_record];
    rewrite ?(Pos2Z.inj_xI p), ?(Pos2Z.inj_xO p); push_inject;
    intros (Hm & Hlo & Hhi & Hloc); repeat split; try lia; rewrite ?HS; lra.
Qed.

Lemma iter_shr_bracket (X : Q) (p : positive) :
  forall mrs e, bracketRec X mrs e ->
    bracketRec X (SpecFloat.iter_pos shr_1 p mrs) (e + Zpos p).
Proof.
  induction p as [p IH|p IH|]; intros mrs e H; cbn [SpecFloat.iter_pos].
  - replace (e + Zpos p~1) with (((e + 1) + Zpos p) + Zpos p) by lia.
    apply IH, IH, shr_1_bracket, H.
  - replace (e + Zpos p~0) with ((e + Zpos p) + Zpos p) by lia.
    apply IH, IH, H.
  - apply shr_1_bracket, H.
Qed.

Lemma shr_bracket (X : Q) (mrs : shr_record) (e n : Z) :
  0 <= n -> bracketRec X mrs e ->
  snd (shr mrs e n) = e + n /\ bracketRec X (fst (shr mrs e n)) (e + n).
Proof.
  intros Hn H. unfold shr. destruct n as [|p|p]; [| |lia]; cbn [fst snd].
  - rewrite Z.add_0_r. auto.
  - split; [reflexivity|]. now apply iter_shr_bracket.
Qed.

Lemma bracketRec_of_loc (X : Q) (m e : Z) (l : location) :
  0 <= m -> bracket X m e l -> bracketRec X (shr_record_of_loc m l) e.
Proof.
  intros Hm H. unfold bracketRec.
  destruct l as [|[| |]]; cbn [shr_record_of_loc shr_m loc_of_shr_record]; auto.
Qed.

(** From an inequality between scaled integers back to the integers. *)
Lemma scaled_lt_inv (a b : Z) (B : Q) :
  (0 < B)%Q -> (inject_Z a * B < inject_Z b * B)%Q -> a < b.
Proof.
  intros HB H. destruct (Z_lt_le_dec a b) as [Hlt|Hge]; [exact Hlt|].
  assert (inject_Z b <= inject_Z a)%Q by (rewrite <- Zle_Qle; exact Hge).
  assert (inject_Z b * B <= inject_Z a * B)%Q by (apply Qmult_le_compat_r; lra).
  lra.
Qed.

Lemma scaled_le (a b : Z) (B : Q) :
  (0 < B)%Q -> a <= b -> (inject_Z a * B <= inject_Z b * B)%Q.
Proof.
  intros HB H. apply Qmult_le_compat_r; [|lra]. now rewrite <- Zle_Qle.
Qed.

Lemma bpow_scale (k e : Z) : 0 <= k -> (bpow (e + k) == inject_Z (2 ^ k) * bpow e)%Q.
Proof.
  intros Hk. rewrite bpow_add, (bpow_nonneg_exp k Hk). ring.
Qed.

(** The magnitude of a bracketed number. *)
Lemma bracket_magnitude (X : Q) (p : positive) (e : Z) (l : location) :
  bracket X (Zpos p) e l ->
  (bpow (Zpos (digits2_pos p) - 1 + e) <= X)%Q /\
  (X < bpow (Zpos (digits2_pos p) + e))%Q.
Proof.
  intros (Hlo & Hhi & _). pose proof (digits2_pos_bounds p) as [Dlo Dhi].
  pose proof (bpow_pos e) as HB.
  rewrite (Z.add_comm _ e), bpow_scale by lia.
  rewrite (Z.add_comm _ e), bpow_scale by lia.
  split.
  - apply Qle_trans with (inject_Z (Zpos p) * bpow e)%Q; [|exact Hlo].
    now apply scaled_le.
  - apply Qlt_le_trans with (inject_Z (Zpos p + 1) * bpow e)%Q; [exact Hhi|].
    apply scaled_le; [exact HB|lia].
Qed.

Lemma rne_bounds (m : Z) (l : location) :
  m <= round_nearest_even m l <= m + 1.
Proof.
  unfold round_nearest_even. destruct l as [|[| |]]; try lia.
  destruct (Z.even m); lia.
Qed.

Lemma fexp_normal (e : Z) : -1074 <= e - 53 -> fexp prec emax e = e - 53.
Proof. intros H. unfold fexp, SpecFloat.emin, prec, emax. lia. Qed.

(** Rounding a bracketed positive number of the normal range. *)
Theorem binary_round_aux_normal (X : Q) (p : positive) (ex : Z) (lx : location) :
  bracket X (Zpos p) ex lx ->
  53 <= Zpos (digits2_pos p) ->
  -1074 <= Zpos (digits2_pos p) + ex - 53 ->
  Zpos (digits2_pos p) + ex <= 1023 ->
  exists m1 l1,
    bracket X m1 (Zpos (digits2_pos p) + ex - 53) l1 /\
    2 ^ 52 <= m1 < 2 ^ 53 /\
    binary_round_aux prec emax false (Zpos p) ex lx =
      if round_nearest_even m1 l1 =? 2 ^ 53
      then S754_finite false (Z.to_pos (2 ^ 52)) (Zpos (digits2_pos p) + ex - 53 + 1)
      else S754_finite false (Z.to_pos (round_nearest_even m1 l1))
             (Zpos (digits2_pos p) + ex - 53).
Proof.
  intros Hbr Hdg Hnorm Hmax.
  set (dg := Zpos (digits2_pos p)) in *.
  set (c := dg + ex - 53) in *.
  pose proof (bracket_magnitude X p ex lx Hbr) as [Mlo Mhi]. fold dg in Mlo, Mhi.
  assert (Hshr := shr_bracket X (shr_record_of_loc (Zpos p) lx) ex (c - ex)
            ltac:(lia) (bracketRec_of_loc X (Zpos p) ex lx ltac:(lia) Hbr)).
  replace (ex + (c - ex)) with c in Hshr by lia.
  unfold binary_round_aux.
  assert (E1 : shr_fexp prec emax (Zpos p) ex lx =
               shr (shr_record_of_loc (Zpos p) lx) ex (c - ex)).
  { unfold shr_fexp. cbn [Zdigits2]. fold dg. rewrite fexp_normal by lia.
    replace (dg + ex - 53) with c by lia. reflexivity. }
  rewrite E1.
  destruct (shr (shr_record_of_loc (Zpos p) lx) ex (c - ex)) as [mrs' e'].
  cbn [fst snd] in Hshr. destruct Hshr as [-> [Hm1 Hbr1]].
  set (m1 := shr_m mrs') in *. set (l1 := loc_of_shr_record mrs') in *.
  exists m1, l1. split; [exact Hbr1|].
  pose proof (bpow_pos c) as HB.
  assert (Hb : 2 ^ 52 <= m1 < 2 ^ 53).
  { destruct Hbr1 as (Hlo & Hhi & _).
    replace (dg - 1 + ex) with (c + 52) in Mlo by lia.
    replace (dg + ex) with (c + 53) in Mhi by lia.
    rewrite bpow_scale in Mlo, Mhi by lia.
    split.
    - assert (2 ^ 52 < m1 + 1); [|lia].
      apply (scaled_lt_inv _ _ (bpow c) HB). lra.
    - apply (scaled_lt_inv _ _ (bpow c) HB). lra. }
  split; [exact Hb|].
  pose proof (rne_bounds m1 l1) as Hr.
  set (m2 := round_nearest_even m1 l1) in *.
  destruct (Z.eqb_spec m2 (2 ^ 53)) as [E|E].
  - rewrite E.
    assert (E2 : shr_fexp prec emax (2 ^ 53) c loc_Exact =
                 ({| shr_m := 2 ^ 52; shr_r := false; shr_s := false |}, c + 1)).
    { unfold shr_fexp.
      change (Zdigits2 (2 ^ 53)) with 54.
      rewrite fexp_normal by lia.
      replace (54 + c - 53 - c) with 1 by lia.
      reflexivity. }
    rewrite E2. cbn [shr_m].
    change (2 ^ 52) with (Zpos (Z.to_pos (2 ^ 52))) at 1.
    cbv iota beta.
    destruct (Z.leb_spec (c + 1) (emax - prec)) as [_|H]; [reflexivity|].
    unfold emax, prec in H. lia.
  - destruct m2 as [|q|q] eqn:Em2; try lia.
    assert (Hq : Zpos (digits2_pos q) = 53)
      by (apply digits2_pos_unique; change (53 - 1) with 52; lia).
    assert (E2 : shr_fexp prec emax (Zpos q) c loc_Exact =
                 ({| shr_m := Zpos q; shr_r := false; shr_s := false |}, c)).
    { unfold shr_fexp. cbn [Zdigits2]. rewrite Hq.
      rewrite fexp_normal by lia.
      replace (53 + c - 53 - c) with 0 by lia.
      reflexivity. }
    rewrite E2. cbn [shr_m]. cbv iota beta.
    rewrite Pos2Z.id.
    destruct (Z.leb_spec c (emax - prec)) as [_|H]; [reflexivity|].
    unfold emax, prec in H. lia.
Qed.


Lemma rounded_value (r c : Z) :
  2 ^ 52 <= r ->
  (valueOf (if r =? 2 ^ 53
            then S754_finite false (Z.to_pos (2 ^ 52)) (c + 1)
            else S754_finite false (Z.to_pos r) c) == inject_Z r * bpow c)%Q.
Proof.
  intros Hr. destruct (Z.eqb_spec r (2 ^ 53)) as [->|E]; cbn [valueOf cond_Zopp].
  - rewrite bpow_succ. change (Zpos (Z.to_pos (2 ^ 52))) with (2 ^ 52).
    change (inject_Z (2 ^ 53)) with (2 * inject_Z (2 ^ 52))%Q. ring.
  - rewrite Z2Pos.id by lia. reflexivity.
Qed.

Lemma rne_same_mantissa (X Y : Q) (m c : Z) (l l' : location) :
  (X <= Y)%Q -> bracket X m c l -> bracket Y m c l' ->
  round_nearest_even m l <= round_nearest_even m l'.
Proof.
  intros Hxy (Xlo & Xhi & Xloc) (Ylo & Yhi & Yloc).
  pose proof (bpow_pos c) as HB.
  pose proof (rne_bounds m l') as Hb'. pose proof (rne_bounds m l) as Hb.
  revert Xlo Xhi Xloc Ylo Yhi Yloc.
  rewrite !inject_Z_plus, !inject_Z_mult.
  change (inject_Z 1) with 1%Q. change (inject_Z 2) with 2%Q.
  generalize dependent (bpow c). intros B HB.
  destruct l as [|[| |]], l' as [|[| |]]; intros;
    try (cbn [round_nearest_even] in *; lia);
    try (exfalso; lra).
Qed.

(** Rounding to nearest is monotone. *)
Theorem rounding_monotone (X Y : Q) (m c m' c' : Z) (l l' : location) :
  (X <= Y)%Q ->
  bracket X m c l -> bracket Y m' c' l' ->
  2 ^ 52 <= m < 2 ^ 53 -> 2 ^ 52 <= m' < 2 ^ 53 ->
  (inject_Z (round_nearest_even m l) * bpow c <=
   inject_Z (round_nearest_even m' l') * bpow c')%Q.
Proof.
  intros Hxy HX HY Hm Hm'.
  pose proof (bpow_pos c) as HB. pose proof (bpow_pos c') as HB'.
  pose proof (rne_bounds m l) as Hr. pose proof (rne_bounds m' l') as Hr'.
  destruct HX as (Xlo & Xhi & Xloc) eqn:EX. destruct HY as (Ylo & Yhi & Yloc) eqn:EY.
  assert (Hc : c <= c').
  { assert (bpow (c + 52) < bpow (c' + 53))%Q; [|apply bpow_lt_inv in H; lia].
    rewrite !bpow_scale by lia.
    pose proof (scaled_le _ _ _ HB (proj1 Hm)).
    pose proof (scaled_le (m' + 1) (2 ^ 53) _ HB' ltac:(lia)).
    lra. }
  destruct (Z.eq_dec c c') as [<-|Hne].
  - apply scaled_le; [exact HB|].
    assert (Hmm : m < m' + 1) by (apply (scaled_lt_inv _ _ (bpow c) HB); lra).
    destruct (Z.eq_dec m m') as [<-|Hneq].
    + apply (rne_same_mantissa X Y m c l l'); assumption.
    + lia.
  - apply Qle_trans with (inject_Z (2 ^ 53) * bpow c)%Q;
      [apply scaled_le; [exact HB|lia]|].
    apply Qle_trans with (inject_Z (2 ^ 52) * bpow c')%Q;
      [|apply scaled_le; [exact HB'|lia]].
    rewrite <- !bpow_scale by lia. apply bpow_le. lia.
Qed.

(** A bracket determines its mantissa and location. *)
Lemma bracket_unique (X : Q) (m m' e : Z) (l l' : location) :
  bracket X m e l -> bracket X m' e l' -> m = m' /\ l = l'.
Proof.
  intros (Xlo & Xhi & Xloc) (Ylo & Yhi & Yloc).
  pose proof (bpow_pos e) as HB.
  assert (m < m' + 1) by (apply (scaled_lt_inv _ _ (bpow e) HB); lra).
  assert (m' < m + 1) by (apply (scaled_lt_inv _ _ (bpow e) HB); lra).
  assert (m = m') by lia. subst m'. split; [reflexivity|].
  revert Xlo Xhi Xloc Ylo Yhi Yloc.
  rewrite !inject_Z_plus, !inject_Z_mult.
  change (inject_Z 1) with 1%Q. change (inject_Z 2) with 2%Q.
  generalize dependent (bpow e). intros B HB.
  destruct l as [|[| |]], l' as [|[| |]]; intros; try reflexivity; exfalso; lra.
Qed.

Lemma bracket_exact (m e : Z) : bracket (inject_Z m * bpow e) m e loc_Exact.
Proof.
  pose proof (bpow_pos e) as HB. unfold bracket.
  rewrite inject_Z_plus. change (inject_Z 1) with 1%Q.
  repeat split; lra.
Qed.


Lemma rounded_normal (r c lo hi : Z) :
  2 ^ 52 <= r <= 2 ^ 53 -> lo <= c -> c + 1 <= hi ->
  normalPos lo hi
    (if r =? 2 ^ 53
     then S754_finite false (Z.to_pos (2 ^ 52)) (c + 1)
     else S754_finite false (Z.to_pos r) c).
Proof.
  intros Hr Hlo Hhi. destruct (Z.eqb_spec r (2 ^ 53)) as [E|E].
  - exists (Z.to_pos (2 ^ 52)), (c + 1). split; [reflexivity|].
    change (Zpos (Z.to_pos (2 ^ 52))) with (2 ^ 52). lia.
  - exists (Z.to_pos r), c. split; [reflexivity|]. rewrite Z2Pos.id by lia. lia.
Qed.


Lemma roundsTo_normal (X : Q) (lo hi : Z) (f : spec_float) :
  roundsTo X lo hi f -> normalPos lo hi f.
Proof.
  intros (m & l & c & _ & Hm & Hlo & Hhi & ->).
  pose proof (rne_bounds m l). apply rounded_normal; lia.
Qed.

Lemma roundsTo_monotone (X Y : Q) (lo hi lo' hi' : Z) (f g : spec_float) :
  (X <= Y)%Q -> roundsTo X lo hi f -> roundsTo Y lo' hi' g ->
  (valueOf f <= valueOf g)%Q.
Proof.
  intros Hxy (m & l & c & HX & Hm & _ & _ & ->) (m' & l' & c' & HY & Hm' & _ & _ & ->).
  pose proof (rne_bounds m l). pose proof (rne_bounds m' l').
  rewrite !rounded_value by lia.
  now apply (rounding_monotone X Y).
Qed.

Lemma roundsTo_exact (m : positive) (e lo hi : Z) :
  2 ^ 52 <= Zpos m < 2 ^ 53 -> lo <= e -> e + 1 <= hi ->
  roundsTo (inject_Z (Zpos m) * bpow e) lo hi (S754_finite false m e).
Proof.
  intros Hm Hlo Hhi. exists (Zpos m), loc_Exact, e.
  split; [apply bracket_exact|]. repeat split; try lia.
  cbn [round_nearest_even].
  destruct (Z.eqb_spec (Zpos m) (2 ^ 53)) as [E|_]; [lia|].
  now rewrite Pos2Z.id.
Qed.

Lemma bracket_ext (X Y : Q) (m e : Z) (l : location) :
  (X == Y)%Q -> bracket X m e l -> bracket Y m e l.
Proof.
  intros H (Hlo & Hhi & Hloc). unfold bracket.
  destruct l as [|[| |]]; rewrite <- H; tauto.
Qed.

Lemma roundsTo_ext (X Y : Q) (lo hi : Z) (f : spec_float) :
  (X == Y)%Q -> roundsTo X lo hi f -> roundsTo Y lo hi f.
Proof.
  intros H (m & l & c & Hb & Hrest). exists m, l, c.
  split; [now apply (bracket_ext X Y)|exact Hrest].
Qed.

Lemma digits_between (p : positive) (a b : Z) :
  0 <= a -> 2 ^ a <= Zpos p < 2 ^ b -> a < Zpos (digits2_pos p) <= b.
Proof.
  intros Ha [Hlo Hhi]. pose proof (digits2_pos_bounds p) as [Dlo Dhi].
  split.
  - apply (Z.pow_lt_mono_r_iff 2); lia.
  - assert (Hb : 0 <= b).
    { destruct (Z_lt_le_dec b 0) as [Hneg|]; [|assumption].
      rewrite (Z.pow_neg_r 2 b Hneg) in Hhi. lia. }
    assert (Zpos (digits2_pos p) - 1 < b); [|lia].
    apply (Z.pow_lt_mono_r_iff 2); lia.
Qed.


Lemma Prim2SF_255 : Prim2SF 255 = S754_finite false m255 (-45).
Proof. vm_compute. reflexivity. Qed.

Lemma value_255 : (inject_Z (Zpos m255) * bpow (-45) == 255)%Q.
Proof. vm_compute. reflexivity. Qed.

(** The product of 255 and a positive normal number is the rounding of the
    exact product. *)
Lemma SFmul_255 (my : positive) (ey : Z) :
  2 ^ 52 <= Zpos my < 2 ^ 53 -> -1000 <= ey <= 900 ->
  roundsTo (255 * (inject_Z (Zpos my) * bpow ey)) (ey + 7) (ey + 9)
    (SF64mul (S754_finite false m255 (-45)) (S754_finite false my ey)).
Proof.
  intros Hm He.
  cbv beta iota delta [SF64mul SFmul xorb].
  set (p := (m255 * my)%positive).
  assert (Hp : 2 ^ 104 <= Zpos p < 2 ^ 106).
  { unfold p. rewrite Pos2Z.inj_mul.
    assert (2 ^ 52 <= Zpos m255 < 2 ^ 53) by (vm_compute; split; [discriminate|reflexivity]).
    change (2 ^ 104) with (2 ^ 52 * 2 ^ 52). change (2 ^ 106) with (2 ^ 53 * 2 ^ 53).
    nia. }
  pose proof (digits_between p 104 106 ltac:(lia) Hp) as Hd.
  apply (roundsTo_ext (inject_Z (Zpos p) * bpow (-45 + ey))).
  { unfold p. rewrite Pos2Z.inj_mul, inject_Z_mult, bpow_add, <- value_255. ring. }
  destruct (binary_round_aux_normal (inject_Z (Zpos p) * bpow (-45 + ey)) p (-45 + ey)
              loc_Exact) as (m1 & l1 & Hb & Hm1 & ->); try lia.
  { apply bracket_exact. }
  exists m1, l1, (Zpos (digits2_pos p) + (-45 + ey) - 53).
  split; [exact Hb|]. split; [exact Hm1|]. split; [lia|]. split; [lia|reflexivity].
Qed.


Lemma Prim2SF_03 : Prim2SF 0.3 = S754_finite false m03 (-54).
Proof. vm_compute. reflexivity. Qed.

Lemma SFdiv_core_03 (mt : positive) (et : Z) :
  2 ^ 52 <= Zpos mt < 2 ^ 53 -> -1000 <= et <= 900 ->
  SFdiv_core_binary prec emax (Zpos mt) et (Zpos m03) (-54) =
  ((Zpos mt * 2 ^ 53) / Zpos m03, et + 1,
   new_location (Zpos m03) ((Zpos mt * 2 ^ 53) mod Zpos m03)).
Proof.
  intros Hm He. unfold SFdiv_core_binary. cbv zeta. cbn [Zdigits2].
  rewrite (digits2_pos_unique mt 53) by (change (53 - 1) with 52; lia).
  change (Zpos (digits2_pos m03)) with 53.
  rewrite fexp_normal by lia.
  replace (Z.min (53 + et - (53 + -54) - 53) (et - -54)) with (et + 1) by lia.
  replace (et - -54 - (et + 1)) with 53 by lia.
  cbv iota beta.
  rewrite Z.shiftl_mul_pow2 by lia.
  unfold Z.div, Z.modulo.
  destruct (Z.div_eucl (Zpos mt * 2 ^ 53) (Zpos m03)) as [q r]. reflexivity.
Qed.

(** The location of a quotient by an odd divisor, from the remainder. *)
Lemma quotient_bracket (a : Z) (d : positive) (e : Z) :
  0 <= a -> Z.even (Zpos d) = false ->
  bracket (inject_Z a / inject_Z (Zpos d) * bpow e)
    (a / Zpos d) e (new_location (Zpos d) (a mod Zpos d)).
Proof.
  intros Ha Hodd.
  pose proof (Z.div_mod a (Zpos d) ltac:(lia)) as Hdm.
  pose proof (Z.mod_pos_bound a (Zpos d) ltac:(lia)) as Hr.
  set (q := a / Zpos d) in *. set (r := a mod Zpos d) in *.
  pose proof (bpow_pos e) as HB.
  assert (Hd : (0 < inject_Z (Zpos d))%Q) by (unfold Qlt; simpl; lia).
  set (rho := (inject_Z r / inject_Z (Zpos d))%Q).
  assert (HX : (inject_Z a / inject_Z (Zpos d) * bpow e ==
                inject_Z q * bpow e + rho * bpow e)%Q).
  { unfold rho. rewrite Hdm, inject_Z_plus, inject_Z_mult. field.
    intros H. rewrite H in Hd. lra. }
  apply (bracket_ext (inject_Z q * bpow e + rho * bpow e)); [now symmetry|].
  assert (Hrho0 : (0 <= rho)%Q).
  { unfold rho. apply Qle_shift_div_l; [exact Hd|].
    rewrite Qmult_0_l. change 0%Q with (inject_Z 0). rewrite <- Zle_Qle. lia. }
  assert (Hrho1 : (rho < 1)%Q).
  { unfold rho. apply Qlt_shift_div_r; [exact Hd|].
    rewrite Qmult_1_l. rewrite <- Zlt_Qlt. lia. }
  assert (HT0 : (0 <= rho * bpow e)%Q) by (apply Qmult_le_0_compat; lra).
  assert (HT1 : (rho * bpow e < 1 * bpow e)%Q) by (apply Qmult_lt_compat_r; lra).
  assert (Hhalf : forall c : comparison,
            (2 * r ?= Zpos d) = c ->
            match c with
            | Lt => (2 * (rho * bpow e) < bpow e)%Q
            | Eq => False
            | Gt => (bpow e < 2 * (rho * bpow e))%Q
            end).
  { intros c Hc.
    assert (Hne : 2 * r <> Zpos d).
    { intros H. rewrite <- H in Hodd. rewrite Z.even_mul in Hodd. discriminate. }
    destruct (Z.compare_spec (2 * r) (Zpos d)) as [H|H|H]; subst c; [lia| |].
    - assert (Hh : (rho < 1 # 2)%Q).
      { unfold rho. apply Qlt_shift_div_r; [exact Hd|].
        assert (2 * inject_Z r < inject_Z (Zpos d))%Q; [|lra].
        change 2%Q with (inject_Z 2). rewrite <- inject_Z_mult, <- Zlt_Qlt. lia. }
      assert (2 * rho * bpow e < 1 * bpow e)%Q by (apply Qmult_lt_compat_r; lra).
      lra.
    - assert (Hh : ((1 # 2) < rho)%Q).
      { unfold rho. apply Qlt_shift_div_l; [exact Hd|].
        assert (inject_Z (Zpos d) < 2 * inject_Z r)%Q; [|lra].
        change 2%Q with (inject_Z 2). rewrite <- inject_Z_mult, <- Zlt_Qlt. lia. }
      assert (1 * bpow e < 2 * rho * bpow e)%Q by (apply Qmult_lt_compat_r; lra).
      lra. }
  assert (Hloc : new_location (Zpos d) r =
                 if r =? 0 then loc_Exact
                 else loc_Inexact (match 2 * r ?= Zpos d with Gt => Gt | _ => Lt end)).
  { unfold new_location. rewrite Hodd. unfold new_location_odd.
    destruct (r =? 0); [reflexivity|]. f_equal.
    assert (Hne : 2 * r <> Zpos d).
    { intros H. rewrite <- H in Hodd. rewrite Z.even_mul in Hodd. discriminate. }
    destruct (Z.compare_spec (2 * r + 1) (Zpos d));
      destruct (Z.compare_spec (2 * r) (Zpos d)); try reflexivity; lia. }
  rewrite Hloc. clear Hloc.
  unfold bracket.
  destruct (Z.eqb_spec r 0) as [E|E].
  - assert (H0 : (rho == 0)%Q) by (unfold rho; rewrite E; reflexivity).
    rewrite inject_Z_plus. change (inject_Z 1) with 1%Q.
    rewrite H0. repeat split; lra.
  - assert (Hpos : (0 < rho)%Q).
    { unfold rho. apply Qlt_shift_div_l; [exact Hd|].
      rewrite Qmult_0_l. change 0%Q with (inject_Z 0). rewrite <- Zlt_Qlt. lia. }
    assert (HTpos : (0 < rho * bpow e)%Q) by (apply Qmult_lt_0_compat; lra).
    specialize (Hhalf _ eq_refl).
    destruct (2 * r ?= Zpos d); [contradiction| |];
      rewrite !inject_Z_plus, !inject_Z_mult;
      change (inject_Z 1) with 1%Q; change (inject_Z 2) with 2%Q;
      repeat split; lra.
Qed.

Lemma value_03 : (inject_Z (Zpos m03) * bpow (-54) == 5404319552844595 # 18014398509481984)%Q.
Proof. vm_compute. reflexivity. Qed.

(** The quotient of a positive normal number by 0.3 is the rounding of the
    exact quotient. *)
Lemma SFdiv_03 (mt : positive) (et : Z) :
  2 ^ 52 <= Zpos mt < 2 ^ 53 -> -1000 <= et <= 900 ->
  roundsTo (inject_Z (Zpos mt) * bpow et / (inject_Z (Zpos m03) * bpow (-54)))
    (et + 1) (et + 3)
    (SF64div (S754_finite false mt et) (S754_finite false m03 (-54))).
Proof.
  intros Hm He.
  cbv beta iota delta [SF64div SFdiv xorb].
  rewrite (SFdiv_core_03 mt et Hm He).
  set (a := Zpos mt * 2 ^ 53).
  assert (Hm03 : 2 ^ 52 <= Zpos m03 < 2 ^ 53)
    by (vm_compute; split; [discriminate|reflexivity]).
  assert (Hq : 2 ^ 52 <= a / Zpos m03 < 2 ^ 54).
  { split.
    - apply Z.div_le_lower_bound; [lia|]. unfold a.
      change (2 ^ 53) with (2 * 2 ^ 52) at 1. nia.
    - apply Z.div_lt_upper_bound; [lia|]. unfold a.
      change (2 ^ 54) with (2 ^ 53 * 2). nia. }
  destruct (a / Zpos m03) as [|q|q] eqn:Eq; try lia.
  pose proof (digits_between q 52 54 ltac:(lia) Hq) as Hd.
  pose proof (quotient_bracket a m03 (et + 1) ltac:(unfold a; lia) eq_refl) as Hb.
  rewrite Eq in Hb.
  apply (roundsTo_ext (inject_Z a / inject_Z (Zpos m03) * bpow (et + 1))).
  { unfold a. rewrite inject_Z_mult, bpow_succ.
    pose proof (bpow_pos et) as HB.
    change (bpow (-54)) with (1 # 18014398509481984)%Q.
    change (inject_Z (2 ^ 53)) with (9007199254740992 # 1)%Q.
    field. unfold Qeq, inject_Z; cbn [Qnum Qden]; lia. }
  destruct (binary_round_aux_normal _ q (et + 1) _ Hb) as (m1 & l1 & Hb1 & Hm1 & ->);
    try lia.
  exists m1, l1, (Zpos (digits2_pos q) + (et + 1) - 53).
  split; [exact Hb1|]. split; [exact Hm1|]. split; [lia|]. split; [lia|reflexivity].
Qed.

(** Rounding leaves a 53-digit significand alone. *)
Lemma binary_round_aux_exact (mz : positive) (ez : Z) :
  2 ^ 52 <= Zpos mz < 2 ^ 53 -> -1000 <= ez <= 900 ->
  binary_round_aux prec emax false (Zpos mz) ez loc_Exact = S754_finite false mz ez.
Proof.
  intros Hm He.
  assert (Hd : Zpos (digits2_pos mz) = 53)
    by (apply digits2_pos_unique; change (53 - 1) with 52; lia).
  destruct (binary_round_aux_normal (inject_Z (Zpos mz) * bpow ez) mz ez loc_Exact)
    as (m1 & l1 & Hb & Hm1 & ->); try lia.
  { apply bracket_exact. }
  rewrite Hd in *. replace (53 + ez - 53) with ez in * by lia.
  destruct (bracket_unique _ _ _ _ _ _ Hb (bracket_exact (Zpos mz) ez)) as [-> ->].
  cbn [round_nearest_even].
  destruct (Z.eqb_spec (Zpos mz) (2 ^ 53)) as [E|_]; [lia|].
  now rewrite Pos2Z.id.
Qed.

Lemma iter_xO (p d : positive) : Zpos (Pos.iter xO p d) = Zpos p * 2 ^ Zpos d.
Proof.
  induction d as [|d IH] using Pos.peano_ind.
  - cbn [Pos.iter]. lia.
  - rewrite Pos.iter_succ, Pos2Z.inj_xO, IH, Pos2Z.inj_succ, Z.pow_succ_r by lia. lia.
Qed.

(** Normalizing a short positive integer significand is exact. *)
Lemma binary_normalize_exact (pk : positive) (e : Z) :
  Zpos pk < 2 ^ 53 -> -900 <= e <= 900 ->
  exists mz ez,
    binary_normalize prec emax (Zpos pk) e false = S754_finite false mz ez /\
    2 ^ 52 <= Zpos mz < 2 ^ 53 /\
    ez = Zpos (digits2_pos pk) + e - 53 /\
    (inject_Z (Zpos mz) * bpow ez == inject_Z (Zpos pk) * bpow e)%Q.
Proof.
  intros Hk He.
  pose proof (digits2_pos_bounds pk) as [Dlo Dhi].
  assert (Hdg : 1 <= Zpos (digits2_pos pk) <= 53).
  { split; [lia|].
    assert (Zpos (digits2_pos pk) - 1 < 53); [|lia].
    apply (Z.pow_lt_mono_r_iff 2); lia. }
  cbv beta iota delta [binary_normalize binary_round].
  rewrite fexp_normal by lia.
  unfold shl_align.
  destruct (Zpos (digits2_pos pk) + e - 53 - e) as [|d|d] eqn:Ed; try lia.
  - assert (E53 : Zpos (digits2_pos pk) = 53) by lia.
    assert (Hb : 2 ^ 52 <= Zpos pk < 2 ^ 53)
      by (rewrite E53 in Dlo; change (53 - 1) with 52 in Dlo; lia).
    exists pk, e. split; [apply binary_round_aux_exact; lia|].
    split; [exact Hb|]. split; [lia|reflexivity].
  - assert (Hd : Zpos d = 53 - Zpos (digits2_pos pk)) by lia.
    assert (Hmz : Zpos (Pos.iter xO pk d) = Zpos pk * 2 ^ Zpos d) by apply iter_xO.
    assert (Hb : 2 ^ 52 <= Zpos (Pos.iter xO pk d) < 2 ^ 53).
    { rewrite Hmz.
      assert (E1 : 2 ^ 52 = 2 ^ (Zpos (digits2_pos pk) - 1) * 2 ^ Zpos d)
        by (rewrite <- Z.pow_add_r by lia; f_equal; lia).
      assert (E2 : 2 ^ 53 = 2 ^ Zpos (digits2_pos pk) * 2 ^ Zpos d)
        by (rewrite <- Z.pow_add_r by lia; f_equal; lia).
      rewrite E1, E2.
      assert (0 < 2 ^ Zpos d) by (apply Z.pow_pos_nonneg; lia).
      split; [apply Z.mul_le_mono_nonneg_r; lia|apply Z.mul_lt_mono_pos_r; lia]. }
    exists (Pos.iter xO pk d), (Zpos (digits2_pos pk) + e - 53).
    split; [apply binary_round_aux_exact; lia|].
    split; [exact Hb|]. split; [reflexivity|].
    rewrite Hmz, inject_Z_mult.
    replace e with ((Zpos (digits2_pos pk) + e - 53) + Zpos d) at 2 by lia.
    rewrite bpow_scale by lia. ring.
Qed.


(** A number of the transition band has the exponent of 1.0 and 1.3 and a
    significand between theirs. *)
Lemma band_form (d : float) :
  (d <=? 1)%float = false -> (d <=? 1.3)%float = true ->
  exists m, Prim2SF d = S754_finite false m (-52) /\
            Zpos one52 < Zpos m <= Zpos m13.
Proof.
  rewrite !leb_spec, Prim2SF_one, Prim2SF_band_end. unfold SFleb.
  destruct (Prim2SF d) as [s|s| |s m e]; cbn [SFcompare].
  - discriminate.
  - destruct s; discriminate.
  - discriminate.
  - destruct s; [discriminate|].
    destruct (Z.compare_spec e (-52)) as [->|H|H]; try discriminate.
    rewrite !Pos.compare_cont_spec. cbn [Pos.switch_Eq].
    destruct (Pos.compare_spec m 4503599627370496) as [|H1|H1]; try discriminate.
    destruct (Pos.compare_spec m 5854679515581645) as [H2|H2|H2]; try discriminate.
    + intros _ _. exists m. split; [reflexivity|]. unfold one52, m13.
      rewrite H2 in *. split; [exact H1|apply Z.le_refl].
    + intros _ _. exists m. split; [reflexivity|]. unfold one52, m13.
      split; [exact H1|exact (Pos.lt_le_incl _ _ H2)].
Qed.

Lemma SFsub_band (m : positive) :
  SF64sub (S754_finite false m13 (-52)) (S754_finite false m (-52)) =
  binary_normalize prec emax (Zpos m13 - Zpos m) (-52) false.
Proof.
  cbv beta iota delta [SF64sub SFsub cond_Zopp].
  change (Z.min (-52) (-52)) with (-52).
  unfold shl_align. change (-52 - -52) with 0. reflexivity.
Qed.

Lemma Prim2SF_zero : Prim2SF 0 = S754_zero false.
Proof. vm_compute. reflexivity. Qed.

Lemma SFcompare_refl (s : bool) (m : positive) (e : Z) :
  SFcompare (S754_finite s m e) (S754_finite s m e) = Some Eq.
Proof.
  cbn [SFcompare]. rewrite Z.compare_refl, Pos.compare_cont_refl.
  destruct s; reflexivity.
Qed.

(** [Math.max(0, x)] is [x] for a positive number. *)
Lemma max_zero_positive (x : float) (m : positive) (e : Z) :
  Prim2SF x = S754_finite false m e -> Js.max 0 x = x.
Proof.
  intros Hx. unfold Js.max, is_nan.
  rewrite (FloatAxioms.eqb_spec x x), Hx. unfold SFeqb. rewrite SFcompare_refl.
  change (negb (0 =? 0)%float) with false. cbn [negb orb].
  rewrite ltb_spec, Hx, Prim2SF_zero. reflexivity.
Qed.

(** [Math.floor] of a positive number below 2^52. *)
Lemma floor_positive (x : float) (m : positive) (e : Z) :
  Prim2SF x = S754_finite false m e -> e < 0 ->
  Js.floor x = Js.ofZ (Qfloor (inject_Z (Zpos m) * bpow e)).
Proof.
  intros Hx He. unfold Js.floor. rewrite Hx. cbn [cond_Zopp]. f_equal.
  rewrite <- (Z.opp_involutive e) at 1.
  rewrite <- Z.shiftr_opp_r, Z.opp_involutive, Z.shiftr_div_pow2 by lia.
  rewrite Zdiv_Qdiv. apply Qfloor_comp.
  assert (Hb : (bpow e == / inject_Z (2 ^ (- e)))%Q).
  { unfold bpow. change 2%Q with (inject_Z 2).
    rewrite Zpower_Qpower by lia. rewrite <- Qpower_opp, Z.opp_involutive. reflexivity. }
  rewrite Hb. reflexivity.
Qed.

Lemma roundsTo_weaken (X : Q) (lo hi lo' hi' : Z) (f : spec_float) :
  lo' <= lo -> hi <= hi' -> roundsTo X lo hi f -> roundsTo X lo' hi' f.
Proof.
  intros Hlo Hhi (m & l & c & Hb & Hm & H1 & H2 & Hf).
  exists m, l, c.
  split; [exact Hb|]. split; [exact Hm|]. split; [lia|]. split; [lia|exact Hf].
Qed.



(** The computation of [Ellipse.bandAlpha], stage by stage, on a number of the band
    with significand [m]. *)
Lemma band_chain (d : float) (m : positive) :
  Prim2SF d = S754_finite false m (-52) -> Zpos one52 < Zpos m <= Zpos m13 ->
  (Zpos m = Zpos m13 /\ Ellipse.bandAlpha d = 0%float) \/
  (Zpos m < Zpos m13 /\
   exists f1 f2 f3 : spec_float,
     normalPos (-104) (-53) f1 /\
     (valueOf f1 == inject_Z (Zpos m13 - Zpos m) * bpow (-52))%Q /\
     roundsTo (valueOf f1 / v03) (-103) (-50) f2 /\
     roundsTo (255 * valueOf f2) (-96) (-41) f3 /\
     Ellipse.bandAlpha d = Js.ofZ (Qfloor (valueOf f3))).
Proof.
  intros Hd Hm.
  assert (H1 : Prim2SF (1.3 - d)%float =
               binary_normalize prec emax (Zpos m13 - Zpos m) (-52) false).
  { rewrite sub_spec, Hd, Prim2SF_band_end. apply SFsub_band. }
  destruct (Z.eq_dec (Zpos m) (Zpos m13)) as [E|E].
  - left. split; [exact E|].
    rewrite E, Z.sub_diag in H1. cbn [binary_normalize] in H1.
    assert (Ht : (1.3 - d)%float = 0%float)
      by (apply Prim2SF_inj; rewrite H1, Prim2SF_zero; reflexivity).
    unfold Ellipse.bandAlpha. rewrite Ht. vm_compute. reflexivity.
  - right. split; [lia|].
    destruct (Zpos m13 - Zpos m) as [|pk|pk] eqn:Ek; try lia.
    assert (Hk : Zpos pk < 2 ^ 52).
    { assert (Zpos pk < Zpos m13 - Zpos one52) by lia.
      assert (Zpos m13 - Zpos one52 < 2 ^ 52) by (vm_compute; reflexivity). lia. }
    destruct (binary_normalize_exact pk (-52)) as (mz & ez & Hn & Hmz & Hez & Hv);
      [lia|lia|].
    assert (Hdg : 0 < Zpos (digits2_pos pk) <= 52)
      by (split; [lia|apply (digits_between pk 0 52); [lia|change (2 ^ 0) with 1; lia]]).
    rewrite Hn in H1.
    (* the quotient *)
    assert (H2 : Prim2SF ((1.3 - d) / 0.3)%float =
                 SF64div (S754_finite false mz ez) (S754_finite false m03 (-54)))
      by (rewrite div_spec, H1, Prim2SF_03; reflexivity).
    pose proof (SFdiv_03 mz ez Hmz ltac:(lia)) as R2. rewrite <- H2 in R2.
    apply (roundsTo_weaken _ _ _ (-103) (-50)) in R2; [|lia|lia].
    destruct (roundsTo_normal _ _ _ _ R2) as (m2 & e2 & Hf2 & Hm2 & He2).
    (* the maximum and the product *)
    assert (H3 : Prim2SF (255 * Js.max 0 ((1.3 - d) / 0.3))%float =
                 SF64mul (S754_finite false m255 (-45)) (S754_finite false m2 e2)).
    { rewrite (max_zero_positive _ m2 e2 Hf2), mul_spec, Hf2, Prim2SF_255. reflexivity. }
    pose proof (SFmul_255 m2 e2 Hm2 ltac:(lia)) as R3. rewrite <- H3 in R3.
    apply (roundsTo_weaken _ _ _ (-96) (-41)) in R3; [|lia|lia].
    destruct (roundsTo_normal _ _ _ _ R3) as (m3 & e3 & Hf3 & Hm3 & He3).
    exists (S754_finite false mz ez), (Prim2SF ((1.3 - d) / 0.3)%float),
      (Prim2SF (255 * Js.max 0 ((1.3 - d) / 0.3))%float).
    split; [exists mz, ez; repeat split; lia|].
    split; [exact Hv|].
    split; [exact R2|].
    split; [rewrite Hf2; exact R3|].
    unfold Ellipse.bandAlpha. rewrite (floor_positive _ m3 e3 Hf3) by lia.
    rewrite Hf3. reflexivity.
Qed.

(** Whatever is not below a positive finite bound stays so when it grows. *)
Lemma SFleb_above (mc : positive) (ec : Z) (a b : spec_float) :
  SFleb a b = true ->
  SFleb a (S754_finite false mc ec) = false ->
  SFleb b (S754_finite false mc ec) = false.
Proof.
  unfold SFleb.
  destruct a as [sa|sa| |sa ma ea], b as [sb|sb| |sb mb eb]; cbn [SFcompare];
    try discriminate; try reflexivity;
    try (destruct sa; discriminate); try (destruct sb; discriminate || reflexivity);
    try (destruct sa, sb; discriminate || reflexivity).
  destruct sa, sb; try discriminate; try reflexivity;
    try (intros _ H; discriminate H).
  rewrite !Pos.compare_cont_spec. cbn [Pos.switch_Eq].
  destruct (Z.compare_spec ea eb) as [Hab|Hab|Hab]; try discriminate;
    destruct (Z.compare_spec ea ec) as [Hac|Hac|Hac]; try discriminate;
    destruct (Z.compare_spec eb ec) as [Hbc|Hbc|Hbc]; try reflexivity; try lia;
    destruct (Pos.compare_spec ma mb); try discriminate;
    destruct (Pos.compare_spec ma mc); try discriminate;
    destruct (Pos.compare_spec mb mc); try reflexivity; try discriminate; 
    try (intros _ H; discriminate H); lia.
Qed.

Lemma leb_above (c d1 d2 : float) (mc : positive) (ec : Z) :
  Prim2SF c = S754_finite false mc ec ->
  (d1 <=? d2)%float = true -> (d1 <=? c)%float = false -> (d2 <=? c)%float = false.
Proof.
  intros Hc. rewrite !leb_spec, Hc. apply SFleb_above.
Qed.

Lemma band_order (d1 d2 : float) (m1 m2 : positive) :
  Prim2SF d1 = S754_finite false m1 (-52) ->
  Prim2SF d2 = S754_finite false m2 (-52) ->
  (d1 <=? d2)%float = true -> Zpos m1 <= Zpos m2.
Proof.
  intros H1 H2. rewrite leb_spec, H1, H2. unfold SFleb. cbn [SFcompare].
  change (-52 ?= -52) with Eq. rewrite Pos.compare_cont_spec. cbn [Pos.switch_Eq].
  destruct (Pos.compare_spec m1 m2) as [->|H|H]; try discriminate; intros _.
  - apply Z.le_refl.
  - exact (Pos.lt_le_incl _ _ H).
Qed.

(** Small integers are ordered as numbers the way they are as integers. *)
Lemma small_int_leb (a b : Z) :
  0 <= a -> a <= b -> b <= 255 -> (Js.ofZ a <=? Js.ofZ b)%float = true.
Proof.
  intros Ha Hab Hb.
  assert (H : forallb (fun a => forallb (fun b =>
              implb (a <=? b) (Js.ofZ a <=? Js.ofZ b)%float) (range 0 256))
            (range 0 256) = true) by (vm_compute; reflexivity).
  rewrite forallb_forall in H. specialize (H a). rewrite forallb_forall in H.
  assert (Hin : forall z, 0 <= z <= 255 -> In z (range 0 256))
    by (intros z Hz; apply in_range; lia).
  specialize (H (Hin a ltac:(lia)) b (Hin b ltac:(lia))).
  destruct (Z.leb_spec a b); [exact H|lia].
Qed.

Lemma valueOf_normalPos (lo hi : Z) (f : spec_float) :
  normalPos lo hi f -> (0 < valueOf f)%Q.
Proof.
  intros (m & e & -> & Hm & _). cbn [valueOf cond_Zopp].
  apply Qmult_lt_0_compat; [|apply bpow_pos]. unfold Qlt. simpl. lia.
Qed.

Lemma v03_pos : (0 < v03)%Q.
Proof. vm_compute. reflexivity. Qed.

(** The level of the band lies between 0 and 255 and does not increase with
    the significand of the distance. *)
Lemma band_levels (d1 d2 : float) (m1 m2 : positive) :
  Prim2SF d1 = S754_finite false m1 (-52) -> Zpos one52 < Zpos m1 <= Zpos m13 ->
  Prim2SF d2 = S754_finite false m2 (-52) -> Zpos one52 < Zpos m2 <= Zpos m13 ->
  Zpos m1 <= Zpos m2 ->
  exists z1 z2, Ellipse.bandAlpha d1 = Js.ofZ z1 /\ Ellipse.bandAlpha d2 = Js.ofZ z2 /\
                0 <= z2 /\ z2 <= z1 /\ z1 <= 255.
Proof.
  intros Hd1 Hm1 Hd2 Hm2 Hle.
  (* the reference computation at the inner end of the band *)
  assert (Rq : roundsTo (v03 / v03) (-53) (-51) (S754_finite false one52 (-52))).
  { pose proof (SFdiv_03 m03 (-54) ltac:(vm_compute; split; [discriminate|reflexivity])
                  ltac:(lia)) as R.
    replace (SF64div (S754_finite false m03 (-54)) (S754_finite false m03 (-54)))
      with (S754_finite false one52 (-52)) in R by (vm_compute; reflexivity).
    exact R. }
  assert (Rp : roundsTo (255 * (inject_Z (Zpos one52) * bpow (-52))) (-45) (-43)
                 (S754_finite false m255 (-45))).
  { pose proof (SFmul_255 one52 (-52) ltac:(vm_compute; split; [discriminate|reflexivity])
                  ltac:(lia)) as R.
    replace (SF64mul (S754_finite false m255 (-45)) (S754_finite false one52 (-52)))
      with (S754_finite false m255 (-45)) in R by (vm_compute; reflexivity).
    exact R. }
  assert (Hupper : forall f1 f2 f3 k,
    0 < k < Zpos m13 - Zpos one52 ->
    (valueOf f1 == inject_Z k * bpow (-52))%Q ->
    roundsTo (valueOf f1 / v03) (-103) (-50) f2 ->
    roundsTo (255 * valueOf f2) (-96) (-41) f3 ->
    0 <= Qfloor (valueOf f3) <= 255).
  { intros f1 f2 f3 k Hk Hv R2 R3.
    pose proof v03_pos as Hv03.
    assert (H1 : (valueOf f1 <= v03)%Q).
    { rewrite Hv. 
      assert (inject_Z k <= inject_Z (Zpos m13 - Zpos one52 - 1))%Q
        by (rewrite <- Zle_Qle; lia).
      change (inject_Z (Zpos m13 - Zpos one52 - 1)) with (1351079888211148 # 1)%Q in H.
      change (bpow (-52)) with (1 # 4503599627370496)%Q.
      change v03 with ((5404319552844595 # 1) * (1 # 18014398509481984))%Q.
      lra. }
    assert (H2 : (valueOf f2 <= 1)%Q).
    { assert (valueOf f2 <= valueOf (S754_finite false one52 (-52)))%Q.
      { eapply (roundsTo_monotone (valueOf f1 / v03) (v03 / v03));
          [|exact R2|exact Rq].
        unfold Qdiv. apply Qmult_le_compat_r; [exact H1|].
        apply Qlt_le_weak, Qinv_lt_0_compat, Hv03. }
      assert (valueOf (S754_finite false one52 (-52)) == 1)%Q by (vm_compute; reflexivity).
      lra. }
    assert (H3 : (valueOf f3 <= 255)%Q).
    { assert (valueOf f3 <= valueOf (S754_finite false m255 (-45)))%Q.
      { eapply (roundsTo_monotone (255 * valueOf f2)
                  (255 * (inject_Z (Zpos one52) * bpow (-52))));
          [|exact R3|exact Rp].
        assert (inject_Z (Zpos one52) * bpow (-52) == 1)%Q by (vm_compute; reflexivity).
        lra. }
      assert (valueOf (S754_finite false m255 (-45)) == 255)%Q by (vm_compute; reflexivity).
      lra. }
    pose proof (valueOf_normalPos _ _ _ (roundsTo_normal _ _ _ _ R3)) as H0.
    split.
    - change 0 with (Qfloor 0). apply Qfloor_resp_le. lra.
    - change 255 with (Qfloor 255). now apply Qfloor_resp_le. }
  destruct (band_chain d1 m1 Hd1 Hm1) as [[E1 A1]|(L1 & f1 & f2 & f3 & N1 & V1 & R2 & R3 & A1)];
    destruct (band_chain d2 m2 Hd2 Hm2)
      as [[E2 A2]|(L2 & g1 & g2 & g3 & N1' & V1' & R2' & R3' & A2)].
  - exists 0, 0. rewrite A1, A2. repeat split; try lia; reflexivity.
  - lia.
  - pose proof (Hupper f1 f2 f3 (Zpos m13 - Zpos m1) ltac:(lia) V1 R2 R3) as Hb.
    exists (Qfloor (valueOf f3)), 0. rewrite A1, A2.
    repeat split; try lia; reflexivity.
  - pose proof (Hupper f1 f2 f3 (Zpos m13 - Zpos m1) ltac:(lia) V1 R2 R3) as Hb.
    pose proof (Hupper g1 g2 g3 (Zpos m13 - Zpos m2) ltac:(lia) V1' R2' R3') as Hb'.
    exists (Qfloor (valueOf f3)), (Qfloor (valueOf g3)). rewrite A1, A2.
    split; [reflexivity|]. split; [reflexivity|]. split; [lia|]. split; [|lia].
    apply Qfloor_resp_le.
    eapply (roundsTo_monotone (255 * valueOf g2) (255 * valueOf f2));
      [|exact R3'|exact R3].
    assert (valueOf g2 <= valueOf f2)%Q; [|lra].
    eapply (roundsTo_monotone (valueOf g1 / v03) (valueOf f1 / v03));
      [|exact R2'|exact R2].
    unfold Qdiv. apply Qmult_le_compat_r;
      [|apply Qlt_le_weak, Qinv_lt_0_compat, v03_pos].
    rewrite V1, V1'. apply Qmult_le_compat_r; [|apply Qlt_le_weak, bpow_pos].
    rewrite <- Zle_Qle. lia.
Qed.

(** A number of the band, with its level. *)
Lemma band_level (d : float) :
  (d <=? 1)%float = false -> (d <=? 1.3)%float = true ->
  exists z, Ellipse.bandAlpha d = Js.ofZ z /\ 0 <= z <= 255.
Proof.
  intros A B. destruct (band_form d A B) as (m & Hd & Hm).
  destruct (band_levels d d m m Hd Hm Hd Hm (Z.le_refl _))
    as (z1 & z2 & E1 & _ & H0 & Hmid & H255).
  exists z1. split; [exact E1|lia].
Qed.

(** The levels of two distances in order: integers of the byte range, in
    the opposite order. *)
Lemma alpha_levels (d1 d2 : float) :
  (d1 <=? d2)%float = true ->
  exists z1 z2,
    Ellipse.alphaOf d1 = Js.ofZ z1 /\ Ellipse.alphaOf d2 = Js.ofZ z2 /\
    0 <= z2 /\ z2 <= z1 /\ z1 <= 255.
Proof.
  intros Hle. rewrite !alphaOf_float.
  destruct (d1 <=? 1)%float eqn:A1.
  - destruct (d2 <=? 1)%float eqn:A2.
    { exists 255, 255. repeat split; try reflexivity; lia. }
    destruct (d2 <=? 1.3)%float eqn:B2.
    + destruct (band_level d2 A2 B2) as (z & E & Hz).
      exists 255, z. split; [reflexivity|]. split; [exact E|lia].
    + exists 255, 0. repeat split; try reflexivity; lia.
  - assert (A2 : (d2 <=? 1)%float = false)
      by (apply (leb_above 1 d1 d2 _ _ Prim2SF_one Hle A1)).
    rewrite A2.
    destruct (d1 <=? 1.3)%float eqn:B1.
    + destruct (d2 <=? 1.3)%float eqn:B2.
      * destruct (band_form d1 A1 B1) as (m1 & Hd1 & Hm1).
        destruct (band_form d2 A2 B2) as (m2 & Hd2 & Hm2).
        pose proof (band_order d1 d2 m1 m2 Hd1 Hd2 Hle) as Hm.
        destruct (band_levels d1 d2 m1 m2 Hd1 Hm1 Hd2 Hm2 Hm)
          as (z1 & z2 & E1 & E2 & H0 & Hmid & H255).
        exists z1, z2. split; [exact E1|]. split; [exact E2|lia].
      * destruct (band_level d1 A1 B1) as (z & E & Hz).
        exists z, 0. split; [exact E|]. split; [reflexivity|lia].
    + assert (B2 : (d2 <=? 1.3)%float = false)
        by (apply (leb_above 1.3 d1 d2 _ _ Prim2SF_band_end Hle B1)).
      rewrite B2. exists 0, 0. repeat split; try reflexivity; lia.
Qed.

(** A store into a [Uint8Array] keeps an integer of the byte range. *)
Lemma toUint8_small (z : Z) : 0 <= z <= 255 -> Js.toUint8 (Js.ofZ z) = z.
Proof.
  intros Hz.
  assert (H : forallb (fun z => Js.toUint8 (Js.ofZ z) =? z) (range 0 256) = true)
    by (vm_compute; reflexivity).
  rewrite forallb_forall in H. apply Z.eqb_eq, H, in_range. lia.
Qed.

(** C8, as amended. Ellipse mask monotonicity. For every width, height and
    pair of radius fractions, every pixel of the ellipse mask is stored with
    its three colour channels equal to one level and its alpha channel equal
    to 255, and the level is a function of the normalized distance [d] of the
    pixel. On binary64 numbers, with every rounding of the subtraction, the
    division, the product and the floor taken into account, that function
    never increases: for distances [d1 <= d2] the level of [d2] is at most
    the level of [d1], as numbers and as the bytes stored; it is 255 at every
    distance up to 1.0 and 0 at every distance above 1.3. *)
Theorem ellipse_mask_monotone (fractionX fractionY : float) (width height : Z) :
  (forall x y, 0 <= x < width -> 0 <= y < height ->
     exists level : Z,
       level = Js.toUint8 (Ellipse.alphaOf
                 (Ellipse.distanceAt fractionX fractionY width height x y)) /\
       pixelAt (Ellipse.ellipseMask fractionX fractionY width height) (y * width + x) =
       Some (level, level, level, 255)) /\
  (forall d1 d2 : float, (d1 <=? d2)%float = true ->
     (Ellipse.alphaOf d2 <=? Ellipse.alphaOf d1)%float = true /\
     0 <= Js.toUint8 (Ellipse.alphaOf d2) <= Js.toUint8 (Ellipse.alphaOf d1) /\
     Js.toUint8 (Ellipse.alphaOf d1) <= 255) /\
  (forall d : float, (d <=? 1)%float = true -> Js.toUint8 (Ellipse.alphaOf d) = 255) /\
  (forall d : float, (1.3 <? d)%float = true -> Js.toUint8 (Ellipse.alphaOf d) = 0).
Proof.
  split; [|split; [|split]].
  - intros x y Hx Hy. eexists. split; [reflexivity|].
    now apply ellipseMask_pixel.
  - intros d1 d2 Hle.
    destruct (alpha_levels d1 d2 Hle) as (z1 & z2 & E1 & E2 & H0 & Hmid & H255).
    assert (B1 : Js.toUint8 (Ellipse.alphaOf d1) = z1)
      by (rewrite E1; apply toUint8_small; lia).
    assert (B2 : Js.toUint8 (Ellipse.alphaOf d2) = z2)
      by (rewrite E2; apply toUint8_small; lia).
    rewrite B1, B2.
    split; [rewrite E1, E2; apply small_int_leb; lia|lia].
  - intros d H. rewrite alphaOf_float, H. reflexivity.
  - intros d H. rewrite alphaOf_float.
    rewrite (above_band_not_inside _ H), (ltb_leb_false _ _ H). reflexivity.
Qed.

Lemma ellipse_mask_monotone_witness :
  (Ellipse.distanceAt 0.25 0.3 512 512 256 256 <=?
   Ellipse.distanceAt 0.25 0.3 512 512 396 256)%float = true /\
  pixelAt (Ellipse.createBackgroundMask 512 512) (256 * 512 + 256) =
    Some (255, 255, 255, 255) /\
  pixelAt (Ellipse.createBackgroundMask 512 512) (256 * 512 + 396) =
    Some (175, 175, 175, 255) /\
  Ellipse.alphaOf 1.1 = 169%float /\ Ellipse.alphaOf 1.2 = 85%float /\
  0 <= Js.toUint8 (Ellipse.alphaOf 1.2) <= Js.toUint8 (Ellipse.alphaOf 1.1).
Proof.
  destruct (ellipse_mask_monotone 0.25 0.3 512 512) as (Hpix & Hmono & _ & _).
  split; [vm_compute; reflexivity|].
  split.
  { destruct (Hpix 256 256) as (level & -> & Hp); [lia|lia|]. exact Hp. }
  split.
  { destruct (Hpix 396 256) as (level & -> & Hp); [lia|lia|]. exact Hp. }
  split; [vm_compute; reflexivity|]. split; [vm_compute; reflexivity|].
  destruct (Hmono 1.1%float 1.2%float) as (_ & H & _); [vm_compute; reflexivity|].
  exact H.
Defined.

(** C8, as stated, fails. In the 512x512 mask with fractions 0.25 and 0.3 the
    corner pixel (0, 0) lies at a distance above 1.3, and its alpha channel
    is 255, not 0: the pixel stored is (0, 0, 0, 255). *)
Lemma ellipse_alpha_channel_counterexample :
  (1.3 <? Ellipse.distanceAt 0.25 0.3 512 512 0 0)%float = true /\
  pixelAt (Ellipse.createBackgroundMask 512 512) (0 * 512 + 0) = Some (0, 0, 0, 255) /\
  ~ (exists r g b : Z,
       pixelAt (Ellipse.createBackgroundMask 512 512) (0 * 512 + 0) = Some (r, g, b, 0)).
Proof.
  assert (Hp : pixelAt (Ellipse.createBackgroundMask 512 512) (0 * 512 + 0) =
               Some (0, 0, 0, 255)).
  { unfold Ellipse.createBackgroundMask.
    rewrite ellipseMask_pixel by lia. vm_compute. reflexivity. }
  split; [vm_compute; reflexivity|]. split; [exact Hp|].
  intros (r & g & b & H). rewrite Hp in H. discriminate H.
Qed.

(** ** Colour clusters *)

Lemma totalCount_bump (colorKey : ColorKey) (colorMap : list (ColorKey * Z)) :
  totalCount (bumpColor colorKey colorMap) = totalCount colorMap + 1.
Proof.
  induction colorMap as [|[k c] rest IH]; simpl; [reflexivity|].
  destruct (keyEqb k colorKey); simpl; lia.
Qed.

Lemma sampleColors_fold (imageData : list Z) (width height : Z) :
  sampleColors imageData width height =
  fold_left (sampleColor imageData width)
    (grid (strided height sampleStep) (strided width sampleStep)) [].
Proof. unfold sampleColors. apply nested_fold. Qed.

(** Every iteration of the sampling loops adds one to one count: the counts of
    the colour map add up to the number of samples taken. *)
Lemma sampleColors_total (imageData : list Z) (width height : Z) :
  totalCount (sampleColors imageData width height) = samplesTaken width height.
Proof.
  rewrite sampleColors_fold. unfold samplesTaken.
  generalize (grid (strided height sampleStep) (strided width sampleStep)).
  intros items.
  assert (H : forall colorMap,
    totalCount (fold_left (sampleColor imageData width) items colorMap) =
    totalCount colorMap + Z.of_nat (length items)).
  { induction items as [|[y x] items IH]; intros colorMap; simpl length; simpl fold_left.
    - simpl. lia.
    - rewrite IH. unfold sampleColor. rewrite totalCount_bump. lia. }
  rewrite H. reflexivity.
Qed.

Lemma length_grid (ys xs : list Z) :
  length (grid ys xs) = (length ys * length xs)%nat.
Proof.
  unfold grid. induction ys as [|y ys IH]; simpl; [reflexivity|].
  now rewrite length_app, length_map, IH.
Qed.

Lemma samplesTaken_eq (width height : Z) :
  samplesTaken width height =
  Z.max 0 ((height + 7) / 8) * Z.max 0 ((width + 7) / 8).
Proof.
  unfold samplesTaken, strided, sampleStep.
  rewrite length_grid, !length_map, !length_seq, Nat2Z.inj_mul.
  replace (height + 8 - 1) with (height + 7) by lia.
  replace (width + 8 - 1) with (width + 7) by lia.
  f_equal; lia.
Qed.

(** When both dimensions are multiples of 8, as for the 1024x1024 rasters of
    the route, [totalSamples] is the number of samples taken. *)
Lemma totalSamples_aligned (imageData : list Z) (a b : Z) :
  0 <= a -> 0 <= b ->
  totalSamples (analyzeColorClusters imageData (8 * a) (8 * b)) =
  samplesTaken (8 * a) (8 * b).
Proof.
  intros Ha Hb. rewrite samplesTaken_eq. simpl. unfold sampleStep.
  replace ((8 * b + 7) / 8) with b by (apply Z.div_unique with 7; lia).
  replace ((8 * a + 7) / 8) with a by (apply Z.div_unique with 7; lia).
  replace (8 * a * (8 * b)) with (a * b * (8 * 8)) by lia.
  rewrite Z.div_mul by lia. nia.
Qed.

(** A raster whose sides are not multiples of 8, a size at which the route
    never calls [createBackgroundMask]. On the uniform 100x100 raster of grey
    level 128 the sampling loops take 13 * 13 = 169 samples, all counted in
    the single dominant colour, but [totalSamples] is
    [floor(10000 / 64) = 156]; the score stored for the low-edge pixel
    (50, 50) is the quotient 169 / 156 rounded to single precision, above 1. *)
Theorem total_samples_mismatch :
  samplesTaken 100 100 = 169 /\
  totalCount (sampleColors (uniformImage 100 100 128) 100 100) = 169 /\
  analyzeColorClusters (uniformImage 100 100 128) 100 100 =
    {| dominantColors := [ {| rgb := (Some 128, Some 128, Some 128); frequency := 169 |} ];
       totalSamples := 156 |} /\
  get (detectBackgroundAreas (uniformImage 100 100 128)
         (sobelEdgeMap (uniformImage 100 100 128) 100 100) 100 100
         (analyzeColorClusters (uniformImage 100 100 128) 100 100)) (50 * 100 + 50) =
    Some 1.0833333730697632%float.
Proof.
  split; [vm_compute; reflexivity|].
  split; [rewrite sampleColors_total; vm_compute; reflexivity|].
  split; [vm_compute; reflexivity|].
  rewrite detectBackgroundAreas_entry by lia.
  rewrite sobelEdgeMap_interior by lia.
  vm_compute. reflexivity.
Qed.
(** ** Rate limiting *)

Section RateLimitFacts.

Import RateLimit.

Lemma admitted_cons (ip : string) (lo hi : Z) (e : Z * string * bool)
  (log : list (Z * string * bool)) :
  admitted ip lo hi (e :: log) =
  (if counted ip lo hi e then 1 else 0) + admitted ip lo hi log.
Proof.
  unfold admitted. cbn [List.filter]. destruct (counted ip lo hi e); cbn [length]; lia.
Qed.

Lemma serve_cons (cfg : Config) (now : Z) (ip : string) (rest : list (Z * string))
  (m : gmap string UserLimit) :
  fst (serve cfg ((now, ip) :: rest) m) =
  (now, ip, fst (checkRateLimit cfg now ip m)) ::
  fst (serve cfg rest (snd (checkRateLimit cfg now ip m))).
Proof.
  cbn [serve]. destruct (checkRateLimit cfg now ip m) as [ok m']. cbn [fst snd].
  destruct (serve cfg rest m') as [log final]. reflexivity.
Qed.

(** A request leaves the entries of the other keys as they are. *)
Lemma checkRateLimit_other (cfg : Config) (now : Z) (ip other : string) (m : gmap string UserLimit) :
  other <> ip -> snd (checkRateLimit cfg now ip m) !! other = m !! other.
Proof.
  intros Hne. unfold checkRateLimit. cbv zeta.
  destruct (m !! ip) as [l|]; cbn [snd].
  - destruct (now >? resetTime l); cbn [snd];
      [now rewrite lookup_insert_ne by (intros Heq; apply Hne; now rewrite Heq)|].
    destruct (count l >=? maxRequestsPerMinute cfg); cbn [snd];
      [reflexivity|now rewrite lookup_insert_ne by (intros Heq; apply Hne; now rewrite Heq)].
  - now rewrite lookup_insert_ne by (intros Heq; apply Hne; now rewrite Heq).
Qed.

Lemma admitted_late (cfg : Config) (ip : string) (lo hi : Z) (calls : list (Z * string))
  (m : gmap string UserLimit) :
  Forall (fun t => hi < t) (map fst calls) ->
  admitted ip lo hi (fst (serve cfg calls m)) = 0.
Proof.
  revert m. induction calls as [|[now who] rest IH]; intros m Hall; [reflexivity|].
  rewrite serve_cons, admitted_cons. inversion Hall as [|? ? Hnow Hrest]; subst.
  rewrite IH by assumption. cbn [fst] in Hnow.
  unfold counted. replace (now <=? hi) with false by (symmetry; apply Z.leb_gt; lia).
  rewrite andb_false_r. reflexivity.
Qed.

Lemma budget_nonneg (cfg : Config) (T : Z) (e : option UserLimit) :
  1 <= maxRequestsPerMinute cfg -> 0 <= budget cfg T e.
Proof.
  intros Hm. unfold budget. destruct e as [l|]; [|lia].
  destruct (resetTime l <? T); [lia|].
  destruct (resetTime l <? T + resetTimeMinutes cfg * 60000); lia.
Qed.

(** One request of the key: what it adds to the count and what is left of the
    budget. *)
Lemma budget_step (cfg : Config) (T now : Z) (ip : string) (m : gmap string UserLimit) :
  1 <= maxRequestsPerMinute cfg -> 0 <= resetTimeMinutes cfg ->
  now <= T + resetTimeMinutes cfg * 60000 ->
  (if counted ip T (T + resetTimeMinutes cfg * 60000)
        (now, ip, fst (checkRateLimit cfg now ip m)) then 1 else 0) +
  budget cfg T (snd (checkRateLimit cfg now ip m) !! ip) <=
  budget cfg T (m !! ip).
Proof.
  intros Hm HW Hnow. unfold checkRateLimit, counted. cbv zeta.
  rewrite bool_decide_eq_true_2 by reflexivity.
  replace (now <=? T + resetTimeMinutes cfg * 60000) with true
    by (symmetry; apply Z.leb_le; lia).
  rewrite !andb_true_r.
  assert (Hrestart :
    (if true && (T <=? now) then 1 else 0) +
    budget cfg T (Some {| count := 1;
                          resetTime := now + resetTimeMinutes cfg * 60000 |}) <=
    2 * maxRequestsPerMinute cfg - 1).
  { unfold budget. cbn [resetTime count andb].
    destruct (Z.leb_spec T now);
      destruct (Z.ltb_spec (now + resetTimeMinutes cfg * 60000) T);
      destruct (Z.ltb_spec (now + resetTimeMinutes cfg * 60000)
                  (T + resetTimeMinutes cfg * 60000)); lia. }
  destruct (m !! ip) as [l|] eqn:E; cbn [fst snd].
  - destruct (Z.gtb_spec now (resetTime l)) as [Hgt|Hle]; cbn [fst snd].
    + rewrite lookup_insert_eq.
      unfold budget at 2. 
      destruct (Z.ltb_spec (resetTime l) T); [exact Hrestart|].
      destruct (Z.ltb_spec (resetTime l) (T + resetTimeMinutes cfg * 60000)); [|lia].
      unfold budget. cbn [resetTime count andb].
      destruct (Z.leb_spec T now); [|lia].
      destruct (Z.ltb_spec (now + resetTimeMinutes cfg * 60000) T); [lia|].
      destruct (Z.ltb_spec (now + resetTimeMinutes cfg * 60000)
                  (T + resetTimeMinutes cfg * 60000)); lia.
    + destruct (Z.geb_spec (count l) (maxRequestsPerMinute cfg)) as [Hfull|Hroom];
        cbn [fst snd andb].
      * rewrite E. lia.
      * rewrite lookup_insert_eq. unfold budget. cbn [resetTime count].
        destruct (Z.ltb_spec (resetTime l) T).
        -- destruct (Z.leb_spec T now); lia.
        -- destruct (Z.ltb_spec (resetTime l) (T + resetTimeMinutes cfg * 60000));
             destruct (Z.leb_spec T now); lia.
  - rewrite lookup_insert_eq. exact Hrestart.
Qed.

Lemma admitted_budget (cfg : Config) (ip : string) (T : Z) (calls : list (Z * string))
  (m : gmap string UserLimit) :
  1 <= maxRequestsPerMinute cfg -> 0 <= resetTimeMinutes cfg ->
  StronglySorted Z.le (map fst calls) ->
  admitted ip T (T + resetTimeMinutes cfg * 60000) (fst (serve cfg calls m)) <=
  budget cfg T (m !! ip).
Proof.
  intros Hm HW. revert m.
  induction calls as [|[now who] rest IH]; intros m Hs.
  - cbn. now apply budget_nonneg.
  - cbn [map fst] in Hs. apply StronglySorted_inv in Hs as [Hs Hall].
    destruct (Z.le_gt_cases now (T + resetTimeMinutes cfg * 60000)) as [Hin|Hlate].
    + rewrite serve_cons, admitted_cons.
      destruct (decide (who = ip)) as [->|Hne].
      * pose proof (budget_step cfg T now ip m Hm HW Hin).
        specialize (IH (snd (checkRateLimit cfg now ip m)) Hs). lia.
      * specialize (IH (snd (checkRateLimit cfg now who m)) Hs).
        rewrite checkRateLimit_other in IH by congruence.
        unfold counted. rewrite (bool_decide_eq_false_2 _ Hne).
        rewrite andb_false_r. cbn [andb]. lia.
    + rewrite (admitted_late cfg ip T _ ((now, who) :: rest) m).
      * now apply budget_nonneg.
      * cbn [map fst]. constructor; [lia|].
        eapply Forall_impl; [exact Hall|]. cbn. intros; lia.
Qed.

(** The entries of the map: every entry was opened by a request of its key,
    its window ends one period after that request, and its count lies between
    1 and the maximum. *)
Lemma serve_entries (cfg : Config) (calls : list (Z * string))
  (m : gmap string UserLimit) (ip : string) (l : UserLimit) :
  1 <= maxRequestsPerMinute cfg ->
  (forall k e, m !! k = Some e ->
     1 <= count e <= maxRequestsPerMinute cfg) ->
  snd (serve cfg calls m) !! ip = Some l ->
  1 <= count l <= maxRequestsPerMinute cfg /\
  ((exists e, m !! ip = Some e /\ resetTime e = resetTime l) \/
   exists now, In (now, ip) calls /\
               resetTime l = now + resetTimeMinutes cfg * 60000).
Proof.
  intros Hmax. revert m. induction calls as [|[now who] rest IH]; intros m Hm Hl.
  - cbn in Hl. split; [now apply (Hm ip)|]. left. now exists l.
  - cbn [serve] in Hl.
    destruct (checkRateLimit cfg now who m) as [ok m'] eqn:Ec.
    destruct (serve cfg rest m') as [log final] eqn:Es. cbn [snd] in Hl.
    assert (Hfinal : snd (serve cfg rest m') !! ip = Some l) by now rewrite Es.
    assert (Hm' : forall k e, m' !! k = Some e ->
                    1 <= count e <= maxRequestsPerMinute cfg).
    { intros k e Hk. unfold checkRateLimit in Ec. cbv zeta in Ec.
      destruct (m !! who) as [u|] eqn:Eu.
      - destruct (now >? resetTime u).
        + injection Ec as _ <-.
          destruct (decide (who = k)) as [->|Hne].
          * rewrite lookup_insert_eq in Hk. injection Hk as <-. cbn. lia.
          * rewrite lookup_insert_ne in Hk by exact Hne. now apply (Hm k).
        + destruct (Z.geb_spec (count u) (maxRequestsPerMinute cfg)).
          * injection Ec as _ <-. now apply (Hm k).
          * injection Ec as _ <-.
            destruct (decide (who = k)) as [->|Hne].
            -- rewrite lookup_insert_eq in Hk. injection Hk as <-. cbn.
               pose proof (Hm k u Eu). lia.
            -- rewrite lookup_insert_ne in Hk by exact Hne. now apply (Hm k).
      - injection Ec as _ <-.
        destruct (decide (who = k)) as [->|Hne].
        + rewrite lookup_insert_eq in Hk. injection Hk as <-. cbn. lia.
        + rewrite lookup_insert_ne in Hk by exact Hne. now apply (Hm k). }
    destruct (IH m' Hm' Hfinal) as [Hc Hfrom]. split; [exact Hc|].
    assert (Hstep : (exists e, m' !! ip = Some e /\ resetTime e = resetTime l) ->
              (exists e, m !! ip = Some e /\ resetTime e = resetTime l) \/
              exists t, In (t, ip) ((now, who) :: rest) /\
                        resetTime l = t + resetTimeMinutes cfg * 60000).
    { intros (e & He & Hr).
      destruct (decide (who = ip)) as [->|Hne].
      - unfold checkRateLimit in Ec. cbv zeta in Ec.
        destruct (m !! ip) as [u|] eqn:Eu.
        + destruct (now >? resetTime u).
          * injection Ec as _ <-. rewrite lookup_insert_eq in He.
            injection He as <-. right. exists now. split; [now left|].
            now rewrite <- Hr.
          * destruct (count u >=? maxRequestsPerMinute cfg).
            -- injection Ec as _ <-. left. exists e. split; [congruence|exact Hr].
            -- injection Ec as _ <-. rewrite lookup_insert_eq in He.
               injection He as <-. left. exists u. split; [reflexivity|exact Hr].
        + injection Ec as _ <-. rewrite lookup_insert_eq in He.
          injection He as <-. right. exists now. split; [now left|].
          now rewrite <- Hr.
      - left. exists e. split; [|exact Hr].
        rewrite <- He. symmetry.
        replace m' with (snd (checkRateLimit cfg now who m)) by now rewrite Ec.
        apply checkRateLimit_other. congruence. }
    destruct Hfrom as [H1|(t & Hin & Ht)].
    + exact (Hstep H1).
    + right. exists t. split; [now right|exact Ht].
Qed.

(** The answer to a request and the entry of its key depend on the map only
    through that entry. *)
Lemma checkRateLimit_local (cfg : Config) (now : Z) (ip : string)
  (m1 m2 : gmap string UserLimit) :
  m1 !! ip = m2 !! ip ->
  fst (checkRateLimit cfg now ip m1) = fst (checkRateLimit cfg now ip m2) /\
  snd (checkRateLimit cfg now ip m1) !! ip = snd (checkRateLimit cfg now ip m2) !! ip.
Proof.
  intros H. unfold checkRateLimit. cbv zeta. rewrite <- H.
  destruct (m1 !! ip) as [u|] eqn:E; cbn [fst snd].
  - destruct (now >? resetTime u); cbn [fst snd];
      [now rewrite !lookup_insert_eq|].
    destruct (count u >=? maxRequestsPerMinute cfg); cbn [fst snd].
    + split; [reflexivity|congruence].
    + now rewrite !lookup_insert_eq.
  - now rewrite !lookup_insert_eq.
Qed.

End RateLimitFacts.


(** Sliding window of the rate limiter. When the clock does not go backwards,
    the requests of one key let through with a clock reading in any period of
    the length of the window number at most twice the maximum less one,
    whatever the other keys do: a fixed window allows a burst at the end of
    one window and another at the start of the next. *)
Theorem rate_limit_sliding_window (cfg : RateLimit.Config) (calls : list (Z * string))
  (ip : string) (T : Z) :
  1 <= RateLimit.maxRequestsPerMinute cfg -> 0 <= RateLimit.resetTimeMinutes cfg ->
  Sorted Z.le (map fst calls) ->
  RateLimit.admitted ip T (T + RateLimit.resetTimeMinutes cfg * 60000)
    (fst (RateLimit.serve cfg calls ∅)) <=
  2 * RateLimit.maxRequestsPerMinute cfg - 1.
Proof.
  intros Hm HW Hs.
  apply Sorted_StronglySorted in Hs; [|intros a b c; apply Z.le_trans].
  pose proof (admitted_budget cfg ip T calls ∅ Hm HW Hs) as H.
  rewrite lookup_empty in H. exact H.
Qed.

(** The bound is reached: with a maximum of 2, three requests of one key are
    let through between 59999 and 119999. *)
Lemma rate_limit_sliding_window_witness :
  RateLimit.admitted "a" 59999 (59999 + 60000)
    (fst (RateLimit.serve RATE_LIMIT_edit
            [(0, "a"); (59999, "a"); (60001, "a"); (60002, "a")] ∅)) = 3 /\
  RateLimit.admitted "a" 59999
    (59999 + RateLimit.resetTimeMinutes RATE_LIMIT_edit * 60000)
    (fst (RateLimit.serve RATE_LIMIT_edit
            [(0, "a"); (59999, "a"); (60001, "a"); (60002, "a")] ∅)) <=
  2 * RateLimit.maxRequestsPerMinute RATE_LIMIT_edit - 1.
Proof.
  split; [vm_compute; reflexivity|].
  apply (rate_limit_sliding_window RATE_LIMIT_edit
           [(0, "a"); (59999, "a"); (60001, "a"); (60002, "a")] "a" 59999).
  - simpl. lia.
  - simpl. lia.
  - simpl. repeat constructor; lia.
Defined.

(** The entries of the map. After any sequence of requests, the entry of a key
    holds a count between 1 and the maximum, and its window ends one period
    after a request of that key. *)
Theorem rate_limit_entries (cfg : RateLimit.Config) (calls : list (Z * string))
  (ip : string) (l : RateLimit.UserLimit) :
  1 <= RateLimit.maxRequestsPerMinute cfg ->
  snd (RateLimit.serve cfg calls ∅) !! ip = Some l ->
  1 <= RateLimit.count l <= RateLimit.maxRequestsPerMinute cfg /\
  exists now, In (now, ip) calls /\
    RateLimit.resetTime l = now + RateLimit.resetTimeMinutes cfg * 60000.
Proof.
  intros Hmax Hl.
  destruct (serve_entries cfg calls ∅ ip l Hmax) as [Hc [(e & He & _)|H]].
  - intros k e Hk. now rewrite lookup_empty in Hk.
  - exact Hl.
  - now rewrite lookup_empty in He.
  - split; assumption.
Qed.

Lemma rate_limit_entries_witness :
  snd (RateLimit.serve RATE_LIMIT_edit [(0, "a"); (10, "a"); (20, "a")] ∅) !! "a" =
    Some {| RateLimit.count := 2; RateLimit.resetTime := 60000 |} /\
  1 <= 2 <= RateLimit.maxRequestsPerMinute RATE_LIMIT_edit /\
  exists now, In (now, "a") [(0, "a"); (10, "a"); (20, "a")] /\
    60000 = now + RateLimit.resetTimeMinutes RATE_LIMIT_edit * 60000.
Proof.
  split; [vm_compute; reflexivity|].
  apply (rate_limit_entries RATE_LIMIT_edit [(0, "a"); (10, "a"); (20, "a")] "a"
           {| RateLimit.count := 2; RateLimit.resetTime := 60000 |}).
  - simpl. lia.
  - vm_compute. reflexivity.
Defined.

(** No key is shut out for longer than a window: a request that arrives more
    than one period after every earlier request of its key is let through,
    whatever was refused before and whatever the other keys did. *)
Theorem rate_limit_recovery (cfg : RateLimit.Config) (calls : list (Z * string))
  (ip : string) (now : Z) :
  1 <= RateLimit.maxRequestsPerMinute cfg ->
  (forall t, In (t, ip) calls -> t + RateLimit.resetTimeMinutes cfg * 60000 < now) ->
  fst (RateLimit.checkRateLimit cfg now ip (snd (RateLimit.serve cfg calls ∅))) = true.
Proof.
  intros Hmax Hold. unfold RateLimit.checkRateLimit. cbv zeta.
  destruct (snd (RateLimit.serve cfg calls ∅) !! ip) as [l|] eqn:E; [|reflexivity].
  destruct (serve_entries cfg calls ∅ ip l Hmax) as [_ [(e & He & _)|(t & Hin & Ht)]].
  - intros k e Hk. now rewrite lookup_empty in Hk.
  - exact E.
  - now rewrite lookup_empty in He.
  - specialize (Hold t Hin).
    replace (now >? RateLimit.resetTime l) with true; [reflexivity|].
    symmetry. apply Z.gtb_lt. lia.
Qed.

Lemma rate_limit_recovery_witness :
  fst (RateLimit.serve RATE_LIMIT_edit [(0, "a"); (10, "a"); (20, "a"); (30, "b")] ∅) =
    [(0, "a", true); (10, "a", true); (20, "a", false); (30, "b", true)] /\
  fst (RateLimit.checkRateLimit RATE_LIMIT_edit 60021 "a"
         (snd (RateLimit.serve RATE_LIMIT_edit
                 [(0, "a"); (10, "a"); (20, "a"); (30, "b")] ∅))) = true.
Proof.
  split; [vm_compute; reflexivity|].
  apply (rate_limit_recovery RATE_LIMIT_edit
           [(0, "a"); (10, "a"); (20, "a"); (30, "b")] "a" 60021).
  - simpl. lia.
  - intros t Hin. simpl in Hin.
    destruct Hin as [H|[H|[H|[H|[]]]]]; injection H as <-; try discriminate;
      simpl; lia.
Defined.

(** Keys do not interfere: the answers to the requests of a key are those the
    key would get if it were the only one, whatever the map holds for the
    other keys. *)
Theorem rate_limit_isolation (cfg : RateLimit.Config) (calls : list (Z * string))
  (ip : string) (m1 m2 : gmap string RateLimit.UserLimit) :
  m1 !! ip = m2 !! ip ->
  List.filter (fun e => bool_decide (snd (fst e) = ip))
    (fst (RateLimit.serve cfg calls m1)) =
  fst (RateLimit.serve cfg (List.filter (fun c => bool_decide (snd c = ip)) calls) m2).
Proof.
  revert m1 m2. induction calls as [|[now who] rest IH]; intros m1 m2 H; [reflexivity|].
  rewrite serve_cons. cbn [List.filter fst snd].
  destruct (decide (who = ip)) as [->|Hne].
  - rewrite bool_decide_eq_true_2 by reflexivity. rewrite serve_cons.
    destruct (checkRateLimit_local cfg now ip m1 m2 H) as [Hok Hm].
    rewrite Hok. f_equal. now apply IH.
  - rewrite bool_decide_eq_false_2 by exact Hne.
    apply IH. rewrite checkRateLimit_other by congruence. exact H.
Qed.

Lemma rate_limit_isolation_witness :
  List.filter (fun e => bool_decide (snd (fst e) = "a"))
    (fst (RateLimit.serve RATE_LIMIT_edit
            [(0, "a"); (1, "b"); (2, "a"); (3, "b"); (4, "b"); (5, "a")] ∅)) =
  [(0, "a", true); (2, "a", true); (5, "a", false)].
Proof.
  rewrite (rate_limit_isolation RATE_LIMIT_edit
             [(0, "a"); (1, "b"); (2, "a"); (3, "b"); (4, "b"); (5, "a")] "a" ∅ ∅);
    reflexivity.
Defined.

(** The map never forgets a key: after any sequence of requests its keys are
    those already there and the keys of the requests, so it grows with every
    new key and no entry is ever removed. *)
Theorem rate_limit_map_grows (cfg : RateLimit.Config) (calls : list (Z * string))
  (m : gmap string RateLimit.UserLimit) :
  dom (snd (RateLimit.serve cfg calls m)) =
  dom m ∪ list_to_set (map snd calls).
Proof.
  revert m. induction calls as [|[now ip] rest IH]; intros m.
  - cbn. set_solver.
  - cbn [RateLimit.serve].
    destruct (RateLimit.checkRateLimit cfg now ip m) as [ok m'] eqn:Ec.
    destruct (RateLimit.serve cfg rest m') as [log final] eqn:Es.
    cbn [snd map list_to_set].
    assert (Hfinal : final = snd (RateLimit.serve cfg rest m')) by now rewrite Es.
    rewrite Hfinal, IH.
    assert (Hdom : dom m' = dom m ∪ {[ip]}).
    { unfold RateLimit.checkRateLimit in Ec. cbv zeta in Ec.
      destruct (m !! ip) as [u|] eqn:Eu.
      - assert (Hin : ip ∈ dom m) by (apply elem_of_dom; eauto).
        destruct (now >? RateLimit.resetTime u).
        + injection Ec as _ <-. rewrite dom_insert_L. set_solver.
        + destruct (RateLimit.count u >=? RateLimit.maxRequestsPerMinute cfg).
          * injection Ec as _ <-. set_solver.
          * injection Ec as _ <-. rewrite dom_insert_L. set_solver.
      - injection Ec as _ <-. rewrite dom_insert_L. set_solver. }
    rewrite Hdom. set_solver.
Qed.
(** ** The photo-editing route *)

Lemma createBackgroundMaskPng_throws (services : Services) (imageBuffer : list Z)
  (width height : Z) (message : string) :
  EditPhoto.createBackgroundMaskPng services imageBuffer width height = Throw message ->
  message = "Failed to create AI-powered editing mask".
Proof.
  unfold EditPhoto.createBackgroundMaskPng. cbv zeta.
  destruct (sharpRaw services imageBuffer width height) as [imageData|];
    [|intros [= <-]; reflexivity].
  destruct (createBackgroundMask imageData width height) as [mask warnings|];
    [|intros [= <-]; reflexivity].
  destruct (sharpPng services mask width height); [discriminate|].
  intros [= <-]; reflexivity.
Qed.

Lemma prepareImageForEditing_throws (services : Services) (imageBuffer : list Z)
  (message : string) :
  EditPhoto.prepareImageForEditing services imageBuffer = Throw message ->
  message = "Failed to prepare image for editing".
Proof.
  unfold EditPhoto.prepareImageForEditing. cbv zeta.
  destruct (sharpMetadata services imageBuffer) as [metadata|];
    [|intros [= <-]; reflexivity].
  destruct (sharpResize services imageBuffer) as [processed|];
    [|intros [= <-]; reflexivity].
  destruct (sharpMetadata services processed) as [final|];
    [|intros [= <-]; reflexivity].
  destruct (_ || _); [intros [= <-]; reflexivity|discriminate].
Qed.

Lemma apiErrorMessage_not_mask (status : option Z) (message : option string) :
  EditPhoto.apiErrorMessage status message <>
  "Gagal membuat mask editing. Silakan coba lagi.".
Proof.
  unfold EditPhoto.apiErrorMessage. cbv zeta.
  repeat match goal with
         | |- context [if ?b then _ else _] => destruct b
         | |- context [match ?s with Some _ => _ | None => _ end] => destruct s
         | |- context [match ?z with Z0 => _ | Zpos _ => _ | Zneg _ => _ end] => destruct z
         | |- context [match ?p with xH => _ | xO _ => _ | xI _ => _ end] => destruct p
         end; try discriminate.
Qed.

(** The report of a failed mask creation. The handler of
    [generate_professional_edited_photo] looks for the words
    "Failed to create editing mask" while [createBackgroundMask] throws
    "Failed to create AI-powered editing mask": whatever the services answer,
    the result never carries the message about the mask, and a failure of the
    mask creation is reported with the message of an unknown internal error. *)
Theorem mask_failure_reported_as_internal (services : Services) (openai : bool)
  (imageFile : File) (userDescriptionPrompt : string) :
  error (EditPhoto.generate_professional_edited_photo services openai imageFile
           userDescriptionPrompt) <>
    Some "Gagal membuat mask editing. Silakan coba lagi." /\
  forall prepared message,
    openai = true ->
    EditPhoto.prepareImageForEditing services (fileBytes imageFile) = Normal prepared ->
    EditPhoto.createBackgroundMaskPng services (EditPhoto.buffer prepared) 1024 1024 =
      Throw message ->
    EditPhoto.generate_professional_edited_photo services openai imageFile
      userDescriptionPrompt =
    {| success := false; imageUrl := None;
       error := Some "Terjadi kesalahan internal saat memproses foto" |}.
Proof.
  split.
  - unfold EditPhoto.generate_professional_edited_photo. cbv zeta.
    destruct openai; cbn [negb]; [|discriminate].
    destruct (EditPhoto.prepareImageForEditing services (fileBytes imageFile))
      as [prepared|message] eqn:Ep.
    + destruct (EditPhoto.createBackgroundMaskPng services (EditPhoto.buffer prepared)
                  1024 1024) as [maskBuffer|message] eqn:Em.
      * destruct (imagesEdit services _ _ _) as [[[[|item rest]|]|status message]|];
          cbn [error EditPhoto.failure]; try discriminate;
          intros [= H]; now apply apiErrorMessage_not_mask in H.
      * apply createBackgroundMaskPng_throws in Em. subst message.
        vm_compute. discriminate.
    + apply prepareImageForEditing_throws in Ep. subst message.
      vm_compute. discriminate.
  - intros prepared message -> Ep Em.
    unfold EditPhoto.generate_professional_edited_photo. cbv zeta. cbn [negb].
    rewrite Ep, Em. apply createBackgroundMaskPng_throws in Em. subst message.
    vm_compute. reflexivity.
Qed.

Lemma createBackgroundMask_returned (imageData : list Z) (width height : Z)
  (mask : list Z) (warnings : list Warning) :
  createBackgroundMask imageData width height = Returned mask warnings ->
  0 <= width * height -> binaryMask width height mask.
Proof.
  unfold createBackgroundMask. intros H Hn.
  destruct (width * height <? 0); [discriminate H|].
  injection H as <- _. now apply cleanMaskArtifacts_binary.
Qed.

(** What a successful edit went through: the image handed to the image API is
    the one [sharp] reports as 1024x1024, the mask handed to it is the
    encoding of a binary mask of 1024x1024 pixels computed from the raster of
    that image, and the address returned is the one of the first item of the
    response. *)
Theorem edit_success_sends_binary_mask (services : Services) (openai : bool)
  (imageFile : File) (userDescriptionPrompt : string) :
  success (EditPhoto.generate_professional_edited_photo services openai imageFile
             userDescriptionPrompt) = true ->
  exists preparedImage imageData mask warnings maskBuffer item rest,
    openai = true /\
    sharpResize services (fileBytes imageFile) = Some preparedImage /\
    sharpMetadata services preparedImage = Some (Some 1024, Some 1024) /\
    sharpRaw services preparedImage 1024 1024 = Some imageData /\
    createBackgroundMask imageData 1024 1024 = Returned mask warnings /\
    binaryMask 1024 1024 mask /\
    sharpPng services mask 1024 1024 = Some maskBuffer /\
    imagesEdit services preparedImage maskBuffer
      (EditPhoto.comprehensivePrompt userDescriptionPrompt) =
      Some (Responded (Some (item :: rest))) /\
    EditPhoto.generate_professional_edited_photo services openai imageFile
      userDescriptionPrompt =
    {| success := true; imageUrl := item; error := None |}.
Proof.
  unfold EditPhoto.generate_professional_edited_photo. cbv zeta.
  destruct openai; cbn [negb]; [|discriminate].
  unfold EditPhoto.prepareImageForEditing. cbv zeta.
  destruct (sharpMetadata services (fileBytes imageFile)) as [metadata|];
    [|discriminate].
  destruct (sharpResize services (fileBytes imageFile)) as [preparedImage|] eqn:Er;
    [|discriminate].
  destruct (sharpMetadata services preparedImage) as [[finalWidth finalHeight]|] eqn:Ef;
    [|discriminate].
  cbn [fst snd].
  destruct (EditPhoto.differs finalWidth 1024 || EditPhoto.differs finalHeight 1024)
    eqn:Ed; [discriminate|].
  apply orb_false_elim in Ed as [Ew Eh].
  assert (Hdim : forall d, EditPhoto.differs d 1024 = false -> d = Some 1024).
  { intros [d|]; unfold EditPhoto.differs; [|discriminate].
    intros H. apply negb_false_iff, Z.eqb_eq in H. now subst d. }
  apply Hdim in Ew, Eh. subst finalWidth finalHeight.
  cbn [EditPhoto.buffer].
  unfold EditPhoto.createBackgroundMaskPng. cbv zeta.
  destruct (sharpRaw services preparedImage 1024 1024) as [imageData|] eqn:Eraw;
    [|discriminate].
  destruct (createBackgroundMask imageData 1024 1024) as [mask warnings|] eqn:Ec;
    [|discriminate].
  destruct (sharpPng services mask 1024 1024) as [maskBuffer|] eqn:Epng;
    [|discriminate].
  destruct (imagesEdit services preparedImage maskBuffer _)
    as [[[[|item rest]|]|status message]|] eqn:Ea;
    cbn [success EditPhoto.failure]; try (intros H; discriminate H).
  intros _.
  assert (Hb : binaryMask 1024 1024 mask)
    by (apply (createBackgroundMask_returned imageData _ _ _ warnings Ec); lia).
  exists preparedImage, imageData, mask, warnings, maskBuffer, item, rest.
  split; [reflexivity|]. split; [reflexivity|]. split; [exact Ef|].
  split; [exact Eraw|]. split; [exact Ec|]. split; [exact Hb|].
  split; [exact Epng|]. split; [exact Ea|reflexivity].
Qed.

(** The map after a request, and whether the request is answered 429, are
    those of [checkRateLimit]. *)
Lemma POST_rate_limit (services : Services) (openai : bool) (now : Z)
  (request : Request) (m : gmap string RateLimit.UserLimit) :
  snd (EditPhoto.POST services openai now request m) =
    snd (RateLimit.checkRateLimit RATE_LIMIT_edit now (EditPhoto.clientKey request) m) /\
  negb (status (fst (EditPhoto.POST services openai now request m)) =? 429) =
    fst (RateLimit.checkRateLimit RATE_LIMIT_edit now (EditPhoto.clientKey request) m).
Proof.
  unfold EditPhoto.POST. cbv zeta.
  destruct (RateLimit.checkRateLimit RATE_LIMIT_edit now (EditPhoto.clientKey request) m)
    as [allowed m'].
  cbn [fst snd]. split; [reflexivity|].
  destruct allowed; cbn [negb]; [|reflexivity].
  destruct openai; cbn [negb]; [|reflexivity].
  destruct (formData request) as [fd|]; [|reflexivity].
  destruct (prompt fd) as [[[|c userPrompt]|f]|]; try reflexivity.
  destruct (String.eqb (JsString.trim (String c userPrompt)) ""); [reflexivity|].
  destruct (image fd) as [[[|c' s]|imageFile]|]; try reflexivity.
  destruct (negb (existsb _ _)); [reflexivity|].
  destruct (fileSize imageFile >? EditPhoto.maxSize); [reflexivity|].
  destruct (success _); reflexivity.
Qed.

Lemma handleAll_cons (services : Services) (openai : bool) (now : Z) (request : Request)
  (rest : list (Z * Request)) (m : gmap string RateLimit.UserLimit) :
  fst (handleAll services openai ((now, request) :: rest) m) =
  (now, request, fst (EditPhoto.POST services openai now request m)) ::
  fst (handleAll services openai rest (snd (EditPhoto.POST services openai now request m))).
Proof.
  cbn [handleAll]. destruct (EditPhoto.POST services openai now request m) as [r m'].
  cbn [fst snd]. destruct (handleAll services openai rest m') as [log final].
  reflexivity.
Qed.

(** The requests that pass [POST] are those [checkRateLimit] lets through. *)
Lemma handleAll_serve (services : Services) (openai : bool)
  (requests : list (Z * Request)) (m : gmap string RateLimit.UserLimit) (ip : string)
  (lo hi : Z) :
  Z.of_nat (length (List.filter (passed ip lo hi)
                      (fst (handleAll services openai requests m)))) =
  RateLimit.admitted ip lo hi
    (fst (RateLimit.serve RATE_LIMIT_edit
            (map (fun r => (fst r, EditPhoto.clientKey (snd r))) requests) m)).
Proof.
  revert m. induction requests as [|[now request] rest IH]; intros m; [reflexivity|].
  rewrite handleAll_cons. cbn [map fst snd]. rewrite serve_cons, admitted_cons.
  destruct (POST_rate_limit services openai now request m) as [Hm Hok].
  rewrite Hm. cbn [List.filter]. unfold passed at 1, RateLimit.counted.
  rewrite Hok.
  destruct (_ && _ && _ && _); cbn [length]; rewrite <- IH; lia.
Qed.

(** Sliding window of the route. Whatever the requests are and whatever the
    services answer, when the clock does not go backwards, at most three
    requests counted under one key and arriving within any period of 60000
    milliseconds get past the rate limit, that is, are answered with a status
    other than 429. *)
Theorem post_sliding_window (services : Services) (openai : bool)
  (requests : list (Z * Request)) (ip : string) (T : Z) :
  Sorted Z.le (map fst requests) ->
  Z.of_nat (length (List.filter (passed ip T (T + 60000))
                      (fst (handleAll services openai requests ∅)))) <= 3.
Proof.
  intros Hs. rewrite handleAll_serve.
  assert (Hs' : StronglySorted Z.le
                  (map fst (map (fun r => (fst r, EditPhoto.clientKey (snd r))) requests))).
  { rewrite map_map. cbn [fst].
    apply Sorted_StronglySorted; [intros a b c; apply Z.le_trans|exact Hs]. }
  pose proof (admitted_budget RATE_LIMIT_edit ip T _ ∅ ltac:(cbn; lia) ltac:(cbn; lia) Hs')
    as H.
  rewrite lookup_empty in H.
  cbn [RateLimit.maxRequestsPerMinute RateLimit.resetTimeMinutes RATE_LIMIT_edit
       RateLimit.budget] in H.
  change (1 * 60000) with 60000 in H. lia.
Qed.

Lemma post_sliding_window_witness :
  map (fun e => status (snd e))
    (fst (handleAll offline true
            [(0, anonymous); (59999, anonymous); (60000, anonymous);
             (60001, anonymous); (60002, anonymous); (60003, anonymous)] ∅)) =
    [500; 500; 429; 500; 500; 429] /\
  Z.of_nat (length (List.filter (passed "unknown" 59999 (59999 + 60000))
                      (fst (handleAll offline true
                              [(0, anonymous); (59999, anonymous); (60000, anonymous);
                               (60001, anonymous); (60002, anonymous);
                               (60003, anonymous)] ∅)))) <= 3.
Proof.
  split; [vm_compute; reflexivity|].
  apply (post_sliding_window offline true
           [(0, anonymous); (59999, anonymous); (60000, anonymous);
            (60001, anonymous); (60002, anonymous); (60003, anonymous)]
           "unknown" 59999).
  simpl. repeat constructor; lia.
Defined.

Lemma handleAll_fresh_keys (services : Services) (openai : bool)
  (requests : list (Z * Request)) (m : gmap string RateLimit.UserLimit) :
  NoDup (map (fun r => EditPhoto.clientKey (snd r)) requests) ->
  (forall r, In r requests -> m !! EditPhoto.clientKey (snd r) = None) ->
  Forall (fun e => status (snd e) <> 429) (fst (handleAll services openai requests m)).
Proof.
  revert m. induction requests as [|[now request] rest IH]; intros m Hnd Hfresh.
  - constructor.
  - rewrite handleAll_cons. cbn [map snd] in Hnd. apply NoDup_cons in Hnd as [Hnotin Hnd].
    destruct (POST_rate_limit services openai now request m) as [Hm Hok].
    constructor.
    + cbn [snd]. intros H429. rewrite H429 in Hok. cbn in Hok.
      unfold RateLimit.checkRateLimit in Hok. cbv zeta in Hok.
      pose proof (Hfresh (now, request) ltac:(now left)) as Hnone. cbn [snd] in Hnone.
      rewrite Hnone in Hok. discriminate Hok.
    + apply IH; [exact Hnd|]. intros r Hr. rewrite Hm.
      rewrite checkRateLimit_other; [apply Hfresh; now right|].
      intros Heq. apply Hnotin. rewrite <- Heq.
      apply list_elem_of_In, in_map_iff. now exists r.
Qed.

(** The key of the rate limit is taken from a header of the request, so a
    client that names a different address in each request is never limited:
    requests counted under pairwise different keys are never answered 429,
    however many arrive and however fast. *)
Theorem post_distinct_keys_never_limited (services : Services) (openai : bool)
  (requests : list (Z * Request)) :
  NoDup (map (fun r => EditPhoto.clientKey (snd r)) requests) ->
  Forall (fun e => status (snd e) <> 429)
    (fst (handleAll services openai requests ∅)).
Proof.
  intros Hnd. apply handleAll_fresh_keys; [exact Hnd|].
  intros r _. apply lookup_empty.
Qed.

Lemma post_distinct_keys_never_limited_witness :
  map (fun e => status (snd e))
    (fst (handleAll offline true
            [(0, forwardedFor "10.0.0.1"); (1, forwardedFor "10.0.0.2");
             (2, forwardedFor "10.0.0.3"); (3, forwardedFor "10.0.0.4")] ∅)) =
    [500; 500; 500; 500] /\
  Forall (fun e => status (snd e) <> 429)
    (fst (handleAll offline true
            [(0, forwardedFor "10.0.0.1"); (1, forwardedFor "10.0.0.2");
             (2, forwardedFor "10.0.0.3"); (3, forwardedFor "10.0.0.4")] ∅)).
Proof.
  split; [vm_compute; reflexivity|].
  apply (post_distinct_keys_never_limited offline true
           [(0, forwardedFor "10.0.0.1"); (1, forwardedFor "10.0.0.2");
            (2, forwardedFor "10.0.0.3"); (3, forwardedFor "10.0.0.4")]).
  apply (bool_decide_eq_true_1 (NoDup _)). vm_compute. reflexivity.
Defined.

(** What a response of status 200 went through: the request was let through
    by the rate limit, the API key is configured, the prompt is a string that
    is not blank, the image is a file of an allowed type and of at most 4 MB,
    and the edit succeeded; the body carries the address of the edited image. *)
Theorem post_success_validated (services : Services) (openai : bool) (now : Z)
  (request : Request) (m : gmap string RateLimit.UserLimit) :
  status (fst (EditPhoto.POST services openai now request m)) = 200 ->
  exists fd userPrompt imageFile,
    fst (RateLimit.checkRateLimit RATE_LIMIT_edit now (EditPhoto.clientKey request) m)
      = true /\
    openai = true /\
    formData request = Some fd /\
    prompt fd = Some (EntryString userPrompt) /\
    JsString.trim userPrompt <> "" /\
    image fd = Some (EntryFile imageFile) /\
    In (fileType imageFile) EditPhoto.allowedTypes /\
    fileSize imageFile <= 4194304 /\
    success (EditPhoto.generate_professional_edited_photo services openai imageFile
               userPrompt) = true /\
    body (fst (EditPhoto.POST services openai now request m)) =
      ImageBody true
        (imageUrl (EditPhoto.generate_professional_edited_photo services openai
                     imageFile userPrompt))
        "Foto profesional berhasil diedit! ✨".
Proof.
  unfold EditPhoto.POST. cbv zeta.
  destruct (RateLimit.checkRateLimit RATE_LIMIT_edit now (EditPhoto.clientKey request) m)
    as [allowed m'].
  cbn [fst snd].
  destruct allowed; cbn [negb]; [|intros H; discriminate H].
  destruct openai; cbn [negb]; [|intros H; discriminate H].
  destruct (formData request) as [fd|]; [|intros H; discriminate H].
  destruct (prompt fd) as [[[|c userPrompt]|f]|] eqn:Ep; try (intros H; discriminate H).
  destruct (String.eqb (JsString.trim (String c userPrompt)) "") eqn:Et;
    [intros H; discriminate H|].
  destruct (image fd) as [[[|c' s]|imageFile]|] eqn:Ei; try (intros H; discriminate H).
  destruct (existsb (String.eqb (fileType imageFile)) EditPhoto.allowedTypes) eqn:Ea;
    cbn [negb]; [|intros H; discriminate H].
  destruct (Z.gtb_spec (fileSize imageFile) EditPhoto.maxSize) as [Hbig|Hsize];
    [intros H; discriminate H|].
  destruct (success (EditPhoto.generate_professional_edited_photo services true imageFile
                       (String c userPrompt))) eqn:Es; [|intros H; discriminate H].
  intros _. exists fd, (String c userPrompt), imageFile.
  split; [reflexivity|]. split; [reflexivity|]. split; [reflexivity|].
  split; [exact Ep|].
  split; [intros Heq; rewrite Heq in Et; discriminate Et|].
  split; [exact Ei|].
  split.
  { apply existsb_exists in Ea as (t & Hin & Heq). apply String.eqb_eq in Heq.
    now subst t. }
  split; [exact Hsize|]. split; [exact Es|reflexivity].
Qed.

Lemma post_success_validated_witness :
  status (fst (EditPhoto.POST studio true 0 portraitRequest ∅)) = 200 /\
  exists fd userPrompt imageFile,
    fst (RateLimit.checkRateLimit RATE_LIMIT_edit 0
           (EditPhoto.clientKey portraitRequest) ∅) = true /\
    true = true /\
    formData portraitRequest = Some fd /\
    prompt fd = Some (EntryString userPrompt) /\
    JsString.trim userPrompt <> "" /\
    image fd = Some (EntryFile imageFile) /\
    In (fileType imageFile) EditPhoto.allowedTypes /\
    fileSize imageFile <= 4194304 /\
    success (EditPhoto.generate_professional_edited_photo studio true imageFile
               userPrompt) = true /\
    body (fst (EditPhoto.POST studio true 0 portraitRequest ∅)) =
      ImageBody true
        (imageUrl (EditPhoto.generate_professional_edited_photo studio true
                     imageFile userPrompt))
        "Foto profesional berhasil diedit! ✨".
Proof.
  split; [reflexivity|].
  apply (post_success_validated studio true 0 portraitRequest ∅). reflexivity.
Defined.

Lemma edit_success_sends_binary_mask_witness :
  success (EditPhoto.generate_professional_edited_photo studio true portrait
             "latar putih") = true /\
  EditPhoto.generate_professional_edited_photo studio true portrait "latar putih" =
    {| success := true; imageUrl := Some "https://images.example/edited.png";
       error := None |} /\
  exists mask, binaryMask 1024 1024 mask.
Proof.
  split; [reflexivity|]. split; [reflexivity|].
  destruct (edit_success_sends_binary_mask studio true portrait "latar putih")
    as (preparedImage & imageData & mask & warnings & maskBuffer & item & rest &
        _ & _ & _ & _ & _ & Hb & _);
    [reflexivity|].
  exists mask. exact Hb.
Defined.

Lemma mask_failure_reported_as_internal_witness :
  EditPhoto.prepareImageForEditing offline (fileBytes portrait) =
    Normal {| EditPhoto.buffer := fileBytes portrait;
              EditPhoto.originalWidth := 1024; EditPhoto.originalHeight := 1024 |} /\
  EditPhoto.createBackgroundMaskPng offline (fileBytes portrait) 1024 1024 =
    Throw "Failed to create AI-powered editing mask" /\
  EditPhoto.generate_professional_edited_photo offline true portrait "latar putih" =
    {| success := false; imageUrl := None;
       error := Some "Terjadi kesalahan internal saat memproses foto" |}.
Proof.
  split; [reflexivity|]. split; [reflexivity|].
  apply (proj2 (mask_failure_reported_as_internal offline true portrait "latar putih")
           {| EditPhoto.buffer := fileBytes portrait;
              EditPhoto.originalWidth := 1024; EditPhoto.originalHeight := 1024 |}
           "Failed to create AI-powered editing mask");
    reflexivity.
Defined.

(** ** The photo-generation route *)

Lemma isValidPNG_take (uint8Array : list Z) :
  GeneratePhoto.isValidPNG uint8Array = true ->
  take 8 uint8Array = GeneratePhoto.pngSignature.
Proof.
  unfold GeneratePhoto.isValidPNG, GeneratePhoto.pngSignature, get.
  change (combine (range 0 (Z.of_nat (length [137; 80; 78; 71; 13; 10; 26; 10])))
            [137; 80; 78; 71; 13; 10; 26; 10])
    with [(0, 137); (1, 80); (2, 78); (3, 71); (4, 13); (5, 10); (6, 26); (7, 10)].
  destruct uint8Array as [|b0 [|b1 [|b2 [|b3 [|b4 [|b5 [|b6 [|b7 rest]]]]]]]];
    simpl; rewrite ?andb_false_r; try discriminate.
  intros H. repeat (apply andb_prop in H as [? H]).
  repeat match goal with E : (_ =? _) = true |- _ => apply Z.eqb_eq in E end.
  subst. now rewrite take_0.
Qed.

(** What a response of status 200 of the photo-generation route went through:
    besides the checks of the prompt and of the size, the file was declared
    as [image/png] and its first eight bytes are the signature of a PNG, so
    JPEG files, although on the list of allowed types, are never processed;
    the image returned is the first one of the answer of
    [openai.images.edit] to that file (the route never generates an image
    from the text alone). *)
Theorem generate_post_accepts_png_only (api : ImageApi) (openai : bool) (now : Z)
  (request : Request) (m : gmap string RateLimit.UserLimit) :
  status (fst (GeneratePhoto.POST api openai now request m)) = 200 ->
  exists fd userPrompt imageFile item rest,
    formData request = Some fd /\
    prompt fd = Some (EntryString userPrompt) /\
    JsString.trim userPrompt <> "" /\
    image fd = Some (EntryFile imageFile) /\
    fileType imageFile = "image/png" /\
    take 8 (fileBytes imageFile) = [137; 80; 78; 71; 13; 10; 26; 10] /\
    fileSize imageFile <= 4194304 /\
    openai = true /\
    fst (RateLimit.checkRateLimit RATE_LIMIT_generate now
           (GeneratePhoto.clientKey request) m) = true /\
    imagesEditPlain api
      {| fileName := fileName imageFile; fileType := "image/png";
         fileSize := Z.of_nat (length (fileBytes imageFile));
         fileBytes := fileBytes imageFile |}
      (GeneratePhoto.comprehensivePrompt userPrompt) =
      Responded (Some (item :: rest)) /\
    body (fst (GeneratePhoto.POST api openai now request m)) =
      ImageBody true item "Foto profesional berhasil dibuat! ✨".
Proof.
  unfold GeneratePhoto.POST. cbv zeta.
  destruct (RateLimit.checkRateLimit RATE_LIMIT_generate now
              (GeneratePhoto.clientKey request) m) as [allowed m'].
  cbn [fst snd].
  destruct allowed; cbn [negb]; [|intros H; discriminate H].
  destruct openai; cbn [negb]; [|intros H; discriminate H].
  destruct (formData request) as [fd|]; [|intros H; discriminate H].
  destruct (prompt fd) as [[[|c userPrompt]|f]|] eqn:Ep; try (intros H; discriminate H).
  destruct (String.eqb (JsString.trim (String c userPrompt)) "") eqn:Et;
    [intros H; discriminate H|].
  destruct (image fd) as [[[|c' s]|imageFile]|] eqn:Ei; try (intros H; discriminate H).
  destruct (existsb (String.eqb (fileType imageFile)) GeneratePhoto.allowedTypes);
    cbn [negb]; [|intros H; discriminate H].
  destruct (Z.gtb_spec (fileSize imageFile) GeneratePhoto.maxSize) as [Hbig|Hsize];
    [intros H; discriminate H|].
  destruct (String.eqb (fileType imageFile) "image/png") eqn:Epng; cbn [negb];
    [|intros H; discriminate H].
  destruct (GeneratePhoto.isValidPNG (fileBytes imageFile)) eqn:Esig; cbn [negb];
    [|intros H; discriminate H].
  unfold GeneratePhoto.generate_professional_photo. cbv zeta. cbn [negb].
  destruct (imagesEditPlain api _ _) as [[[|item rest]|]|st message] eqn:Ea;
    cbn [success imageUrl GeneratePhoto.failure]; try (intros H; discriminate H).
  intros _. exists fd, (String c userPrompt), imageFile, item, rest.
  split; [reflexivity|]. split; [exact Ep|].
  split; [intros Heq; rewrite Heq in Et; discriminate Et|].
  split; [exact Ei|]. split; [now apply String.eqb_eq|].
  split; [now apply isValidPNG_take|].
  split; [exact Hsize|]. split; [reflexivity|]. split; [reflexivity|].
  split; [exact Ea|reflexivity].
Qed.

Lemma generate_post_accepts_png_only_witness :
  status (fst (GeneratePhoto.POST gallery true 0 (requestWith portrait) ∅)) = 200 /\
  status (fst (GeneratePhoto.POST gallery true 0 (requestWith snapshot) ∅)) = 400 /\
  body (fst (GeneratePhoto.POST gallery true 0 (requestWith portrait) ∅)) =
    ImageBody true (Some "https://images.example/edited.png")
      "Foto profesional berhasil dibuat! ✨".
Proof.
  split; [vm_compute; reflexivity|]. split; [vm_compute; reflexivity|].
  destruct (generate_post_accepts_png_only gallery true 0 (requestWith portrait) ∅)
    as (fd & userPrompt & imageFile & item & rest & _ & _ & _ & _ & _ & _ & _ & _ & _ &
        Ha & Hb).
  - vm_compute. reflexivity.
  - rewrite Hb. cbn in Ha. injection Ha as <- _. reflexivity.
Defined.

(** ** The statistics of the masks *)

(** The raw mask of the classifier is binary. *)
Lemma classify_binary (imageData : list Z) (width height : Z) :
  0 <= width -> 0 <= height ->
  binaryMask width height (rawMaskData (classify imageData width height)).
Proof.
  intros Hw Hh. assert (Hn : 0 <= width * height) by nia.
  split; [now apply classify_length|].
  intros i Hi.
  destruct (pixel_coordinates width height i Hi Hw) as (x & y & Hx & Hy & ->).
  unfold classify. rewrite emitMask_pixel by assumption.
  unfold emitPixel. destruct (isBackgroundPixel _ _ _ _ _ _ _ _ _); auto.
Qed.

Lemma pixelAt_bytes (a : list Z) (i : Z) (r g b al : Z) :
  pixelAt a i = Some (r, g, b, al) ->
  get a (i * 4) = Some r /\ get a (i * 4 + 1) = Some g /\
  get a (i * 4 + 2) = Some b /\ get a (i * 4 + 3) = Some al.
Proof.
  unfold pixelAt.
  destruct (get a (i * 4)), (get a (i * 4 + 1)), (get a (i * 4 + 2)),
    (get a (i * 4 + 3)); try discriminate.
  intros [= -> -> -> ->]. auto.
Qed.

Section CleaningCounters.

Variable rawMaskData : list Z.

(** The counters of the thresholding loop over pixels that are binary. *)
Lemma cleaning_binary (items : list Z) (st : CleaningStats) :
  (forall i, In i items ->
     pixelAt rawMaskData i = Some transparent \/ pixelAt rawMaskData i = Some opaque) ->
  let st' := fold_left (cleaningStep rawMaskData) items st in
  semiTransparentCleaned st' = semiTransparentCleaned st /\
  artifactsRemoved st' = artifactsRemoved st /\
  fullyTransparent st' + fullyOpaque st' =
    fullyTransparent st + fullyOpaque st + Z.of_nat (length items).
Proof.
  revert st. induction items as [|i items IH]; intros st Hbin; cbn zeta.
  - cbn. lia.
  - cbn [fold_left length].
    destruct (IH (cleaningStep rawMaskData st i)) as (H1 & H2 & H3).
    { intros j Hj. apply Hbin. now right. }
    cbn zeta in H1, H2, H3. rewrite H1, H2, H3.
    unfold cleaningStep. cbv zeta.
    destruct (Hbin i ltac:(now left)) as [Hp|Hp];
      apply pixelAt_bytes in Hp as (_ & _ & _ & ->); cbn; lia.
Qed.

End CleaningCounters.

Lemma length_range (lo hi : Z) : Z.of_nat (length (range lo hi)) = Z.max 0 (hi - lo).
Proof. unfold range. rewrite length_map, length_seq. lia. Qed.

(** The cleaning step of the pipeline finds nothing to clean. The raw mask of
    the classifier is binary already, so in [createBackgroundMask] the
    thresholding loop of [cleanMaskArtifacts] returns the raw mask itself, its
    counters of cleaned semi-transparent pixels and of removed artifacts stay
    at 0 (the log says "Already clean"), and its two other counters add up to
    the number of pixels. *)
Theorem cleaning_finds_nothing (imageData : list Z) (width height : Z) :
  0 <= width -> 0 <= height ->
  thresholdMask (rawMaskData (classify imageData width height)) width height =
    rawMaskData (classify imageData width height) /\
  semiTransparentCleaned
    (cleaningStatsOf (rawMaskData (classify imageData width height)) width height) = 0 /\
  artifactsRemoved
    (cleaningStatsOf (rawMaskData (classify imageData width height)) width height) = 0 /\
  fullyTransparent
    (cleaningStatsOf (rawMaskData (classify imageData width height)) width height) +
  fullyOpaque
    (cleaningStatsOf (rawMaskData (classify imageData width height)) width height) =
    width * height /\
  cleaningEffectiveness
    (cleaningStatsOf (rawMaskData (classify imageData width height)) width height) =
    "Already clean".
Proof.
  intros Hw Hh. assert (Hn : 0 <= width * height) by nia.
  pose proof (classify_binary imageData width height Hw Hh) as Hbin.
  split; [now apply thresholdMask_fixes_binary|].
  destruct (cleaning_binary (rawMaskData (classify imageData width height))
              (range 0 (width * height))
              {| semiTransparentCleaned := 0; fullyTransparent := 0; fullyOpaque := 0;
                 artifactsRemoved := 0 |}) as (H1 & H2 & H3).
  { intros i Hi. apply in_range in Hi. now apply (proj2 Hbin). }
  cbn zeta in H1, H2, H3. cbn [semiTransparentCleaned artifactsRemoved fullyTransparent
                                fullyOpaque] in H1, H2, H3.
  unfold cleaningEffectiveness, cleaningStatsOf.
  rewrite H1, H2, H3, length_range.
  repeat split; try reflexivity. lia.
Qed.

Lemma cleaning_finds_nothing_witness :
  cleaningStatsOf (rawMaskData (classify stepImage 4 4)) 4 4 =
    {| semiTransparentCleaned := 0; fullyTransparent := 12; fullyOpaque := 4;
       artifactsRemoved := 0 |} /\
  thresholdMask (rawMaskData (classify stepImage 4 4)) 4 4 =
    rawMaskData (classify stepImage 4 4).
Proof.
  split; [vm_compute; reflexivity|].
  apply (cleaning_finds_nothing stepImage 4 4); lia.
Defined.

Section DistributionCounters.

Variable maskData : list Z.

Lemma countStep_partition (c : Analysis.Counters) (i : Z) :
  let c' := Analysis.countStep maskData c i in
  Analysis.transparentPixels c' + Analysis.semiTransparentPixels c' + Analysis.opaquePixels c' =
    Analysis.transparentPixels c + Analysis.semiTransparentPixels c + Analysis.opaquePixels c + 1 /\
  Analysis.whitePixels c <= Analysis.whitePixels c' /\ Analysis.blackPixels c <= Analysis.blackPixels c' /\
  Analysis.whitePixels c' + Analysis.blackPixels c' <= Analysis.whitePixels c + Analysis.blackPixels c + 1.
Proof.
  unfold Analysis.countStep. cbv zeta. cbn [Analysis.transparentPixels Analysis.semiTransparentPixels Analysis.opaquePixels
                                   Analysis.whitePixels Analysis.blackPixels].
  destruct (isByte (get maskData (i * 4 + 3)) 0);
    destruct (gtUndef (get maskData (i * 4 + 3)) 0 && ltUndef (get maskData (i * 4 + 3)) 255);
    destruct (isByte (get maskData (i * 4)) 255 && isByte (get maskData (i * 4 + 1)) 255 &&
              isByte (get maskData (i * 4 + 2)) 255);
    destruct (isByte (get maskData (i * 4)) 0 && isByte (get maskData (i * 4 + 1)) 0 &&
              isByte (get maskData (i * 4 + 2)) 0); lia.
Qed.

Lemma count_partition (items : list Z) (c : Analysis.Counters) :
  let c' := fold_left (Analysis.countStep maskData) items c in
  Analysis.transparentPixels c' + Analysis.semiTransparentPixels c' + Analysis.opaquePixels c' =
    Analysis.transparentPixels c + Analysis.semiTransparentPixels c + Analysis.opaquePixels c +
    Z.of_nat (length items) /\
  Analysis.whitePixels c <= Analysis.whitePixels c' /\ Analysis.blackPixels c <= Analysis.blackPixels c' /\
  Analysis.whitePixels c' + Analysis.blackPixels c' <=
    Analysis.whitePixels c + Analysis.blackPixels c + Z.of_nat (length items).
Proof.
  revert c. induction items as [|i items IH]; intros c; cbn zeta.
  - cbn. lia.
  - cbn [fold_left length].
    pose proof (IH (Analysis.countStep maskData c i)) as H. cbn zeta in H.
    pose proof (countStep_partition c i) as H'. cbn zeta in H'. lia.
Qed.

(** Over binary pixels: no pixel is semi-transparent, the white pixels are the
    opaque ones and the black pixels the transparent ones. *)
Lemma count_binary (items : list Z) (c : Analysis.Counters) :
  (forall i, In i items ->
     pixelAt maskData i = Some transparent \/
     pixelAt maskData i = Some opaque) ->
  let c' := fold_left (Analysis.countStep maskData) items c in
  Analysis.semiTransparentPixels c' = Analysis.semiTransparentPixels c /\
  Analysis.whitePixels c' - Analysis.opaquePixels c' = Analysis.whitePixels c - Analysis.opaquePixels c /\
  Analysis.blackPixels c' - Analysis.transparentPixels c' = Analysis.blackPixels c - Analysis.transparentPixels c.
Proof.
  revert c. induction items as [|i items IH]; intros c Hbin; cbn zeta.
  - cbn. lia.
  - cbn [fold_left].
    destruct (IH (Analysis.countStep maskData c i)) as (H1 & H2 & H3).
    { intros j Hj. apply Hbin. now right. }
    cbn zeta in H1, H2, H3. rewrite H1, H2, H3.
    unfold Analysis.countStep. cbv zeta.
    destruct (Hbin i ltac:(now left)) as [Hp|Hp];
      apply pixelAt_bytes in Hp as (-> & -> & -> & ->); cbn; lia.
Qed.

End DistributionCounters.

(** The counters of [analyzeMaskDistribution]. Whatever the buffer holds, the
    counters of transparent, semi-transparent and opaque pixels add up to the
    number of pixels visited, and at most that many pixels are counted white
    or black; a pixel beyond the end of the buffer is counted opaque and
    neither white nor black. *)
Theorem mask_distribution_partition (numberToString : float -> string)
  (maskData : list Z) (width height : Z) :
  Analysis.transparent
    (Analysis.transparency
       (Analysis.analyzeMaskDistribution numberToString maskData width height)) +
  Analysis.semiTransparent
    (Analysis.transparency
       (Analysis.analyzeMaskDistribution numberToString maskData width height)) +
  Analysis.opaque
    (Analysis.transparency
       (Analysis.analyzeMaskDistribution numberToString maskData width height)) =
    Z.max 0 (width * height) /\
  0 <= Analysis.white
         (Analysis.colors
            (Analysis.analyzeMaskDistribution numberToString maskData width height)) /\
  0 <= Analysis.black
         (Analysis.colors
            (Analysis.analyzeMaskDistribution numberToString maskData width height)) /\
  Analysis.white
    (Analysis.colors
       (Analysis.analyzeMaskDistribution numberToString maskData width height)) +
  Analysis.black
    (Analysis.colors
       (Analysis.analyzeMaskDistribution numberToString maskData width height)) <=
    Z.max 0 (width * height) /\
  Analysis.transparency
    (Analysis.analyzeMaskDistribution numberToString [] width height) =
    {| Analysis.transparent := 0; Analysis.semiTransparent := 0;
       Analysis.opaque := Z.max 0 (width * height);
       Analysis.transparentRatio :=
         Analysis.ratio numberToString 0 (width * height);
       Analysis.opaqueRatio :=
         Analysis.ratio numberToString (Z.max 0 (width * height)) (width * height) |}.
Proof.
  unfold Analysis.analyzeMaskDistribution. cbv zeta.
  cbn [Analysis.transparency Analysis.colors Analysis.transparent
       Analysis.semiTransparent Analysis.opaque Analysis.white Analysis.black].
  unfold Analysis.countPixels.
  pose proof (count_partition maskData (range 0 (width * height))
                {| Analysis.transparentPixels := 0; Analysis.semiTransparentPixels := 0;
                   Analysis.opaquePixels := 0; Analysis.whitePixels := 0;
                   Analysis.blackPixels := 0 |}) as H.
  cbn zeta in H. rewrite length_range, Z.sub_0_r in H.
  cbn [Analysis.transparentPixels Analysis.semiTransparentPixels Analysis.opaquePixels
       Analysis.whitePixels Analysis.blackPixels] in H.
  split; [lia|]. split; [lia|]. split; [lia|]. split; [lia|].
  assert (Hempty : forall items c,
    fold_left (Analysis.countStep []) items c =
    {| Analysis.transparentPixels := Analysis.transparentPixels c;
       Analysis.semiTransparentPixels := Analysis.semiTransparentPixels c;
       Analysis.opaquePixels := Analysis.opaquePixels c + Z.of_nat (length items);
       Analysis.whitePixels := Analysis.whitePixels c;
       Analysis.blackPixels := Analysis.blackPixels c |}).
  { induction items as [|i items IH]; intros c.
    - destruct c. cbn. f_equal. lia.
    - cbn [fold_left length]. rewrite IH.
      assert (Hget : forall k, get ([] : list Z) k = None).
      { intros k. unfold get. destruct (0 <=? k); reflexivity. }
      unfold Analysis.countStep. cbv zeta. rewrite !Hget. cbn. f_equal. lia. }
  rewrite Hempty, length_range, Z.sub_0_r. cbn. reflexivity.
Qed.

(** The distribution of a binary mask, such as the mask [createBackgroundMask]
    returns: no pixel is counted semi-transparent, the white pixels are the
    opaque ones, the black pixels are the transparent ones, and the two kinds
    add up to [totalPixels]. *)
Theorem binary_mask_distribution (numberToString : float -> string)
  (maskData : list Z) (width height : Z) :
  binaryMask width height maskData ->
  Analysis.semiTransparent
    (Analysis.transparency
       (Analysis.analyzeMaskDistribution numberToString maskData width height)) = 0 /\
  Analysis.white
    (Analysis.colors
       (Analysis.analyzeMaskDistribution numberToString maskData width height)) =
  Analysis.opaque
    (Analysis.transparency
       (Analysis.analyzeMaskDistribution numberToString maskData width height)) /\
  Analysis.black
    (Analysis.colors
       (Analysis.analyzeMaskDistribution numberToString maskData width height)) =
  Analysis.transparent
    (Analysis.transparency
       (Analysis.analyzeMaskDistribution numberToString maskData width height)) /\
  Analysis.transparent
    (Analysis.transparency
       (Analysis.analyzeMaskDistribution numberToString maskData width height)) +
  Analysis.opaque
    (Analysis.transparency
       (Analysis.analyzeMaskDistribution numberToString maskData width height)) =
  Analysis.totalPixels
    (Analysis.analyzeMaskDistribution numberToString maskData width height).
Proof.
  intros [Hlen Hbin]. assert (Hn : 0 <= width * height) by lia.
  unfold Analysis.analyzeMaskDistribution. cbv zeta.
  cbn [Analysis.transparency Analysis.colors Analysis.transparent
       Analysis.semiTransparent Analysis.opaque Analysis.white Analysis.black
       Analysis.totalPixels].
  unfold Analysis.countPixels.
  pose proof (count_partition maskData (range 0 (width * height))
                {| Analysis.transparentPixels := 0; Analysis.semiTransparentPixels := 0;
                   Analysis.opaquePixels := 0; Analysis.whitePixels := 0;
                   Analysis.blackPixels := 0 |}) as H.
  destruct (count_binary maskData (range 0 (width * height))
                {| Analysis.transparentPixels := 0; Analysis.semiTransparentPixels := 0;
                   Analysis.opaquePixels := 0; Analysis.whitePixels := 0;
                   Analysis.blackPixels := 0 |}) as (B1 & B2 & B3).
  { intros i Hi. apply in_range in Hi. now apply Hbin. }
  cbn zeta in H, B1, B2, B3. rewrite length_range, Z.sub_0_r in H.
  cbn [Analysis.transparentPixels Analysis.semiTransparentPixels Analysis.opaquePixels
       Analysis.whitePixels Analysis.blackPixels] in H, B1, B2, B3.
  lia.
Qed.

Lemma binary_mask_distribution_witness :
  Analysis.analyzeMaskDistribution (fun _ => "") diagonalMask 4 4 =
    {| Analysis.totalPixels := 16;
       Analysis.transparency :=
         {| Analysis.transparent := 14; Analysis.semiTransparent := 0;
            Analysis.opaque := 2;
            Analysis.transparentRatio := "87.5%"; Analysis.opaqueRatio := "12.5%" |};
       Analysis.colors :=
         {| Analysis.white := 2; Analysis.black := 14;
            Analysis.whiteRatio := "12.5%"; Analysis.blackRatio := "87.5%" |};
       Analysis.maskQuality :=
         {| Analysis.hasSubject := true; Analysis.balanced := true;
            Analysis.recommendation :=
              "✅ Good balance - should work well with DALL-E" |} |} /\
  Analysis.semiTransparent
    (Analysis.transparency
       (Analysis.analyzeMaskDistribution (fun _ => "") diagonalMask 4 4)) = 0.
Proof.
  split; [vm_compute; reflexivity|].
  apply (binary_mask_distribution (fun _ => "") diagonalMask 4 4).
  apply isBinaryMask_sound. vm_compute. reflexivity.
Defined.

(** The distribution of a mask without pixels. When [width * height] is 0 the
    ratios are the quotient 0/0: they are printed as "NaN%", the mask is
    reported to have no subject and not to be balanced, and the
    recommendation is the one of a moderate balance. *)
Theorem empty_mask_distribution (numberToString : float -> string)
  (maskData : list Z) (width height : Z) :
  width * height = 0 ->
  Analysis.analyzeMaskDistribution numberToString maskData width height =
  {| Analysis.totalPixels := 0;
     Analysis.transparency :=
       {| Analysis.transparent := 0; Analysis.semiTransparent := 0;
          Analysis.opaque := 0;
          Analysis.transparentRatio := "NaN%"; Analysis.opaqueRatio := "NaN%" |};
     Analysis.colors :=
       {| Analysis.white := 0; Analysis.black := 0;
          Analysis.whiteRatio := "NaN%"; Analysis.blackRatio := "NaN%" |};
     Analysis.maskQuality :=
       {| Analysis.hasSubject := false; Analysis.balanced := false;
          Analysis.recommendation :=
            "⚠️ Moderate balance - may work but check visual result" |} |}.
Proof.
  intros H0. unfold Analysis.analyzeMaskDistribution, Analysis.countPixels.
  rewrite H0. cbv zeta. change (range 0 0) with (@nil Z). cbn [fold_left].
  vm_compute. reflexivity.
Qed.

Lemma empty_mask_distribution_witness :
  Analysis.recommendation
    (Analysis.maskQuality
       (Analysis.analyzeMaskDistribution (fun _ => "") diagonalMask 0 4)) =
  "⚠️ Moderate balance - may work but check visual result".
Proof.
  rewrite (empty_mask_distribution (fun _ => "") diagonalMask 0 4); reflexivity.
Defined.

(** ** The dominant colours *)

Lemma keyEqb_eq (a b : ColorKey) : keyEqb a b = true <-> a = b.
Proof.
  assert (Hc : forall u v, channelEqb u v = true <-> u = v).
  { intros [u|] [v|]; cbn; split; try discriminate; try reflexivity.
    - intros H. apply Z.eqb_eq in H. now subst.
    - intros [= ->]. apply Z.eqb_refl. }
  destruct a as [[r1 g1] b1], b as [[r2 g2] b2]. cbn.
  rewrite !andb_true_iff, !Hc. split.
  - intros [[-> ->] ->]. reflexivity.
  - intros [= -> -> ->]. auto.
Qed.

(** The colour map holds each key once, with a count of at least 1. *)
Lemma bumpColor_keys (colorKey : ColorKey) (colorMap : list (ColorKey * Z)) :
  NoDup (map fst colorMap) -> Forall (fun e => 1 <= snd e) colorMap ->
  NoDup (map fst (bumpColor colorKey colorMap)) /\
  Forall (fun e => 1 <= snd e) (bumpColor colorKey colorMap) /\
  forall k, k ∈ map fst (bumpColor colorKey colorMap) ->
            k = colorKey \/ k ∈ map fst colorMap.
Proof.
  induction colorMap as [|[k c] rest IH]; intros Hnd Hpos.
  - cbn. split; [apply NoDup_singleton|]. split; [repeat constructor; cbn; lia|].
    intros k Hk. apply list_elem_of_singleton in Hk. now left.
  - cbn [bumpColor]. cbn [map fst] in Hnd. apply NoDup_cons in Hnd as [Hk Hnd].
    apply Forall_cons in Hpos as [Hc Hpos]. cbn [snd] in Hc.
    destruct (keyEqb k colorKey) eqn:E.
    + cbn [map fst]. split; [now apply NoDup_cons|].
      split; [constructor; [cbn; lia|exact Hpos]|].
      intros k' Hk'. now right.
    + destruct (IH Hnd Hpos) as (IH1 & IH2 & IH3).
      cbn [map fst]. split.
      * apply NoDup_cons. split; [|exact IH1].
        intros Hin. destruct (IH3 k Hin) as [->|Hin']; [|contradiction].
        assert (keyEqb colorKey colorKey = true) by now apply keyEqb_eq.
        congruence.
      * split; [constructor; [cbn; lia|exact IH2]|].
        intros k' Hk'. apply elem_of_cons in Hk' as [->|Hk'].
        -- right. apply elem_of_cons. now left.
        -- destruct (IH3 k' Hk') as [->|H]; [now left|].
           right. apply elem_of_cons. now right.
Qed.

Lemma sampleColors_keys (imageData : list Z) (width height : Z) :
  NoDup (map fst (sampleColors imageData width height)) /\
  Forall (fun e => 1 <= snd e) (sampleColors imageData width height).
Proof.
  rewrite sampleColors_fold.
  generalize (grid (strided height sampleStep) (strided width sampleStep)).
  intros items.
  assert (H : forall colorMap,
    NoDup (map fst colorMap) -> Forall (fun e => 1 <= snd e) colorMap ->
    NoDup (map fst (fold_left (sampleColor imageData width) items colorMap)) /\
    Forall (fun e => 1 <= snd e) (fold_left (sampleColor imageData width) items colorMap)).
  { induction items as [|[y x] items IH]; intros colorMap Hnd Hpos; cbn [fold_left].
    - now split.
    - unfold sampleColor at 2 4.
      destruct (bumpColor_keys
                  (quantize (get imageData ((y * width + x) * 3)),
                   quantize (get imageData ((y * width + x) * 3 + 1)),
                   quantize (get imageData ((y * width + x) * 3 + 2)))
                  colorMap Hnd Hpos) as (H1 & H2 & _).
      now apply IH. }
  apply H; [apply NoDup_nil_2|constructor].
Qed.

Lemma insertByCount_perm (e : ColorKey * Z) (sorted : list (ColorKey * Z)) :
  Permutation (insertByCount e sorted) (e :: sorted).
Proof.
  induction sorted as [|e' rest IH]; cbn [insertByCount]; [reflexivity|].
  destruct (snd e <? snd e'); [|reflexivity].
  rewrite IH. apply perm_swap.
Qed.

Lemma sortByCount_perm (entries : list (ColorKey * Z)) :
  Permutation (sortByCount entries) entries.
Proof.
  unfold sortByCount. induction entries as [|e rest IH]; cbn [fold_right]; [reflexivity|].
  rewrite insertByCount_perm. now constructor.
Qed.

Lemma insertByCount_sorted (e : ColorKey * Z) (sorted : list (ColorKey * Z)) :
  StronglySorted (fun a b => snd b <= snd a) sorted ->
  StronglySorted (fun a b => snd b <= snd a) (insertByCount e sorted).
Proof.
  induction sorted as [|e' rest IH]; intros Hs; cbn [insertByCount].
  - repeat constructor.
  - apply StronglySorted_inv in Hs as [Hs Hall].
    destruct (Z.ltb_spec (snd e) (snd e')) as [Hlt|Hge].
    + constructor; [now apply IH|].
      apply List.Forall_forall. intros x Hx.
      apply (Permutation_in _ (insertByCount_perm e rest)) in Hx.
      destruct Hx as [<-|Hx]; [lia|].
      rewrite List.Forall_forall in Hall. now apply Hall.
    + constructor; [now constructor|].
      constructor; [exact Hge|].
      eapply Forall_impl; [exact Hall|]. cbn. intros x Hx. lia.
Qed.

Lemma sortByCount_sorted (entries : list (ColorKey * Z)) :
  StronglySorted (fun a b => snd b <= snd a) (sortByCount entries).
Proof.
  unfold sortByCount. induction entries as [|e rest IH]; cbn [fold_right].
  - constructor.
  - now apply insertByCount_sorted.
Qed.

Lemma StronglySorted_app_inv {A : Type} (R : A -> A -> Prop) (l1 l2 : list A) :
  StronglySorted R (l1 ++ l2) ->
  StronglySorted R l1 /\ forall a b, In a l1 -> In b l2 -> R a b.
Proof.
  induction l1 as [|x l1 IH]; cbn [app]; intros Hs.
  - split; [constructor|]. intros a b [].
  - apply StronglySorted_inv in Hs as [Hs Hall].
    destruct (IH Hs) as [IH1 IH2]. split.
    + constructor; [exact IH1|].
      apply List.Forall_forall. intros y Hy. rewrite List.Forall_forall in Hall.
      apply Hall. apply in_or_app. now left.
    + intros a b [<-|Ha] Hb.
      * rewrite List.Forall_forall in Hall. apply Hall. apply in_or_app. now right.
      * now apply IH2.
Qed.

Lemma totalCount_perm (l1 l2 : list (ColorKey * Z)) :
  Permutation l1 l2 -> totalCount l1 = totalCount l2.
Proof.
  unfold totalCount. induction 1; cbn [fold_right]; lia.
Qed.

Lemma totalCount_app (l1 l2 : list (ColorKey * Z)) :
  totalCount (l1 ++ l2) = totalCount l1 + totalCount l2.
Proof.
  unfold totalCount. induction l1 as [|e l1 IH]; cbn [app fold_right]; lia.
Qed.

Lemma totalCount_nonneg (l : list (ColorKey * Z)) :
  Forall (fun e => 1 <= snd e) l -> 0 <= totalCount l.
Proof.
  unfold totalCount. induction 1; cbn [fold_right]; lia.
Qed.

(** The dominant colours. [analyzeColorClusters] returns at most five colours,
    each with the number of samples that fell in its bucket (at least one),
    no colour twice, in the order of decreasing frequency; together they
    account for at most the samples taken, and every colour of the map that
    is left out is at most as frequent as each of the five returned. *)
Theorem dominant_colors_ranked (imageData : list Z) (width height : Z) :
  (length (dominantColors (analyzeColorClusters imageData width height)) <= 5)%nat /\
  StronglySorted (fun a b => frequency b <= frequency a)
    (dominantColors (analyzeColorClusters imageData width height)) /\
  Forall (fun d => 1 <= frequency d)
    (dominantColors (analyzeColorClusters imageData width height)) /\
  NoDup (map rgb (dominantColors (analyzeColorClusters imageData width height))) /\
  fold_right (fun d acc => frequency d + acc) 0
    (dominantColors (analyzeColorClusters imageData width height)) <=
    samplesTaken width height /\
  forall color count,
    In (color, count) (sampleColors imageData width height) ->
    In {| rgb := color; frequency := count |}
       (dominantColors (analyzeColorClusters imageData width height)) \/
    (length (dominantColors (analyzeColorClusters imageData width height)) = 5%nat /\
     Forall (fun d => count <= frequency d)
       (dominantColors (analyzeColorClusters imageData width height))).
Proof.
  unfold analyzeColorClusters. cbv zeta. cbn [dominantColors].
  set (colorMap := sampleColors imageData width height).
  set (sorted := sortByCount colorMap).
  set (toColor := fun '(color, count) => {| rgb := color; frequency := count |}).
  change (fun '(color, count) => {| rgb := color; frequency := count |}) with toColor.
  assert (Hrgb : forall e, rgb (toColor e) = fst e) by (intros [k c]; reflexivity).
  assert (Hfreq : forall e, frequency (toColor e) = snd e) by (intros [k c]; reflexivity).
  pose proof (sortByCount_perm colorMap) as Hperm. fold sorted in Hperm.
  pose proof (sortByCount_sorted colorMap) as Hsorted. fold sorted in Hsorted.
  destruct (sampleColors_keys imageData width height) as [Hnd Hpos].
  fold colorMap in Hnd, Hpos.
  assert (Hsplit : sorted = take 5 sorted ++ drop 5 sorted)
    by (symmetry; apply take_drop).
  rewrite Hsplit in Hsorted.
  destruct (StronglySorted_app_inv _ _ _ Hsorted) as [Htop Hrest].
  assert (Hpos' : Forall (fun e => 1 <= snd e) sorted).
  { rewrite List.Forall_forall in *. intros e He. apply Hpos.
    now apply (Permutation_in _ Hperm). }
  split; [rewrite length_map, length_take; lia|].
  split.
  { clear -Htop Hfreq. induction Htop as [|e l Hs IH Hall]; cbn [map]; constructor.
    - exact IH.
    - apply List.Forall_forall. intros d Hd. apply in_map_iff in Hd as (e' & <- & He').
      rewrite !Hfreq. rewrite List.Forall_forall in Hall. now apply Hall. }
  split.
  { apply List.Forall_forall. intros d Hd. apply in_map_iff in Hd as (e & <- & He).
    rewrite Hfreq. rewrite List.Forall_forall in Hpos'. apply Hpos'.
    rewrite Hsplit. apply in_or_app. now left. }
  split.
  { rewrite map_map. rewrite (map_ext _ fst) by exact Hrgb.
    assert (Hnd' : NoDup (map fst sorted)).
    { assert (Hp : Permutation (map fst sorted) (map fst colorMap))
        by now apply Permutation_map.
      now rewrite Hp. }
    rewrite Hsplit, map_app in Hnd'. now apply NoDup_app in Hnd' as [H _]. }
  split.
  { assert (Hsum : forall l, fold_right (fun d acc => frequency d + acc) 0 (map toColor l)
                             = totalCount l).
    { induction l as [|e l IH]; cbn [map fold_right]; [reflexivity|].
      rewrite IH, Hfreq. unfold totalCount. reflexivity. }
    rewrite Hsum. rewrite <- (sampleColors_total imageData width height).
    fold colorMap. rewrite <- (totalCount_perm _ _ Hperm).
    rewrite Hsplit at 2. rewrite totalCount_app.
    assert (0 <= totalCount (drop 5 sorted)); [|lia].
    apply totalCount_nonneg. rewrite List.Forall_forall in *. intros e He. apply Hpos'.
    rewrite Hsplit. apply in_or_app. now right. }
  intros color count Hin.
  apply (Permutation_in _ (Permutation_sym Hperm)) in Hin.
  rewrite Hsplit in Hin. apply in_app_or in Hin as [Hin|Hin].
  - left. apply in_map_iff. now exists (color, count).
  - right. split.
    + rewrite length_map, length_take.
      assert (5 < length sorted)%nat; [|lia].
      destruct (le_lt_dec (length sorted) 5) as [Hle|Hlt]; [|exact Hlt].
      rewrite drop_ge in Hin by lia. destruct Hin.
    + apply List.Forall_forall. intros d Hd. apply in_map_iff in Hd as (e & <- & He).
      rewrite Hfreq. apply (Hrest e (color, count) He Hin).
Qed.

Lemma in_strided (hi step i : Z) :
  0 < step -> In i (strided hi step) -> 0 <= i < hi /\ i mod step = 0.
Proof.
  intros Hs Hin. unfold strided in Hin. apply in_map_iff in Hin as (k & <- & Hk).
  apply in_seq in Hk. split.
  - assert (Hq : Z.of_nat k < (hi + step - 1) / step) by lia.
    assert (Z.of_nat k + 1 <= (hi + step - 1) / step) by lia.
    assert (step * (Z.of_nat k + 1) <= hi + step - 1).
    { etransitivity; [apply Z.mul_le_mono_nonneg_l; [lia|eassumption]|].
      apply Z.mul_div_le. lia. }
    nia.
  - apply Z_mod_mult.
Qed.

(** The keys of the colour map are the quantized colours of sampled pixels. *)
Lemma bumpColor_in (colorKey : ColorKey) (colorMap : list (ColorKey * Z))
  (P : ColorKey -> Prop) :
  P colorKey -> Forall (fun e => P (fst e)) colorMap ->
  Forall (fun e => P (fst e)) (bumpColor colorKey colorMap).
Proof.
  intros Hk. induction 1 as [|[k c] rest Hp Hall IH]; cbn [bumpColor].
  - repeat constructor. exact Hk.
  - destruct (keyEqb k colorKey); constructor; auto.
Qed.

(** The buckets of the colours. On a raster of [width * height] RGB pixels
    whose bytes lie between 0 and 255, every channel of every dominant colour
    is one of the eight multiples of 32 from 0 to 224. *)
Theorem dominant_colors_quantized (imageData : list Z) (width height : Z) :
  0 <= width -> 0 <= height ->
  Z.of_nat (length imageData) = width * height * 3 ->
  Forall (fun v => 0 <= v <= 255) imageData ->
  Forall (fun d =>
            exists r g b,
              rgb d = (Some (32 * r), Some (32 * g), Some (32 * b)) /\
              0 <= r <= 7 /\ 0 <= g <= 7 /\ 0 <= b <= 7)
    (dominantColors (analyzeColorClusters imageData width height)).
Proof.
  intros Hw Hh Hlen Hbytes.
  set (P := fun k : ColorKey =>
              exists r g b,
                k = (Some (32 * r), Some (32 * g), Some (32 * b)) /\
                0 <= r <= 7 /\ 0 <= g <= 7 /\ 0 <= b <= 7).
  assert (Hq : forall i, 0 <= i < width * height * 3 ->
             exists q, quantize (get imageData i) = Some (32 * q) /\ 0 <= q <= 7).
  { intros i Hi. unfold get. destruct (Z.leb_spec 0 i) as [_|]; [|lia].
    destruct (imageData !! Z.to_nat i) as [v|] eqn:E.
    - assert (0 <= v <= 255).
      { rewrite List.Forall_forall in Hbytes. apply Hbytes.
        apply list_elem_of_In. eapply list_elem_of_lookup_2. exact E. }
      exists (v / 32). cbn. split; [f_equal; lia|].
      split; [apply Z.div_pos; lia|].
      assert (v / 32 < 8); [apply Z.div_lt_upper_bound; lia|lia].
    - apply lookup_ge_None_1 in E. lia. }
  assert (Hmap : Forall (fun e => P (fst e)) (sampleColors imageData width height)).
  { rewrite sampleColors_fold.
    assert (H : forall items colorMap,
      (forall yx, In yx items -> 0 <= fst yx < height /\ 0 <= snd yx < width) ->
      Forall (fun e => P (fst e)) colorMap ->
      Forall (fun e => P (fst e)) (fold_left (sampleColor imageData width) items colorMap)).
    { induction items as [|[y x] items IH]; intros colorMap Hin Hall; cbn [fold_left];
        [exact Hall|].
      apply IH; [intros yx Hyx; apply Hin; now right|].
      unfold sampleColor. apply bumpColor_in; [|exact Hall].
      destruct (Hin (y, x) ltac:(now left)) as [Hy Hx]. cbn [fst snd] in Hy, Hx.
      assert (Hi : 0 <= (y * width + x) * 3 /\ (y * width + x) * 3 + 2 < width * height * 3)
        by nia.
      destruct (Hq ((y * width + x) * 3) ltac:(lia)) as (r & -> & Hr).
      destruct (Hq ((y * width + x) * 3 + 1) ltac:(lia)) as (g & -> & Hg).
      destruct (Hq ((y * width + x) * 3 + 2) ltac:(lia)) as (b & -> & Hb).
      exists r, g, b. auto. }
    apply H; [|constructor].
    intros [y x] Hyx. apply in_grid in Hyx as [Hy Hx].
    apply in_strided in Hy; [|unfold sampleStep; lia].
    apply in_strided in Hx; [|unfold sampleStep; lia].
    cbn [fst snd]. lia. }
  unfold analyzeColorClusters. cbv zeta. cbn [dominantColors].
  apply List.Forall_forall. intros d Hd.
  apply in_map_iff in Hd as ([k c] & <- & He). cbn [rgb].
  apply list_elem_of_In, elem_of_take in He as (i & He & _).
  apply list_elem_of_lookup_2, list_elem_of_In in He.
  apply (Permutation_in _ (sortByCount_perm _)) in He.
  rewrite List.Forall_forall in Hmap. apply (Hmap (k, c) He).
Qed.

Lemma dominant_colors_quantized_witness :
  dominantColors (analyzeColorClusters stepImage 4 4) =
    [ {| rgb := (Some 0, Some 0, Some 0); frequency := 1 |} ] /\
  Forall (fun d =>
            exists r g b,
              rgb d = (Some (32 * r), Some (32 * g), Some (32 * b)) /\
              0 <= r <= 7 /\ 0 <= g <= 7 /\ 0 <= b <= 7)
    (dominantColors (analyzeColorClusters stepImage 4 4)).
Proof.
  split; [vm_compute; reflexivity|].
  apply (dominant_colors_quantized stepImage 4 4); [lia|lia|reflexivity|].
  apply (bool_decide_eq_true_1 (Forall _ _)). vm_compute. reflexivity.
Defined.

(** ** The statistics of the classifier *)

Lemma seq_shift_by (k a n : nat) : seq (k + a) n = map (fun i => (k + i)%nat) (seq a n).
Proof.
  revert a. induction n as [|n IH]; intros a; cbn [seq map]; [reflexivity|].
  f_equal. rewrite <- IH. f_equal. lia.
Qed.

Lemma range_app (lo mid hi : Z) :
  lo <= mid -> mid <= hi -> range lo hi = range lo mid ++ range mid hi.
Proof.
  intros H1 H2. unfold range.
  replace (Z.to_nat (hi - lo)) with (Z.to_nat (mid - lo) + Z.to_nat (hi - mid))%nat by lia.
  rewrite seq_app, map_app. f_equal.
  cbn [Nat.add]. rewrite <- (Nat.add_0_r (Z.to_nat (mid - lo))) at 1.
  rewrite seq_shift_by, map_map. apply map_ext. intros k. lia.
Qed.

(** The pixel indices of the pairs visited by the two nested loops, in the
    order of the visit, are the indices from 0 to [width * height]. *)
Lemma raster_indices (width height : Z) :
  0 <= width -> 0 <= height ->
  map (pixelIndex width) (grid (range 0 height) (range 0 width)) =
  range 0 (width * height).
Proof.
  intros Hw Hh. rewrite <- (Z2Nat.id height Hh).
  induction (Z.to_nat height) as [|n IH].
  - cbn. rewrite Z.mul_0_r. reflexivity.
  - rewrite Nat2Z.inj_succ. unfold Z.succ.
    rewrite (range_app 0 (Z.of_nat n) (Z.of_nat n + 1)) by lia.
    unfold grid in *. rewrite flat_map_app, map_app, IH.
    rewrite (range_app 0 (width * Z.of_nat n) (width * (Z.of_nat n + 1))) by nia.
    f_equal.
    replace (range (Z.of_nat n) (Z.of_nat n + 1)) with [Z.of_nat n].
    2:{ unfold range. replace (Z.to_nat (Z.of_nat n + 1 - Z.of_nat n)) with 1%nat by lia.
        cbn. f_equal. lia. }
    cbn [flat_map]. rewrite app_nil_r, map_map. unfold range.
    rewrite Z.sub_0_r.
    replace (width * (Z.of_nat n + 1) - width * Z.of_nat n) with width by lia.
    rewrite map_map. apply map_ext. intros k. unfold pixelIndex. cbn [fst snd]. lia.
Qed.

Lemma fold_left_map {S I J : Type} (f : S -> J -> S) (g : I -> J) (items : list I) (s : S) :
  fold_left f (map g items) s = fold_left (fun s x => f s (g x)) items s.
Proof. revert s. induction items as [|x items IH]; intros s; cbn; auto. Qed.

Section EmissionCounters.

Variables (imageData : list Z) (edgeMap backgroundAreas : list float).
Variables (width height : Z) (colorClusters : ColorClusters).

(** The counters of the emission loop and the counters of
    [analyzeMaskDistribution] move together over pixels that hold what the
    emission loop stores for them. *)
Lemma emit_counts (maskData : list Z) (items : list (Z * Z)) (st : MaskState)
  (c : Analysis.Counters) :
  (forall yx, In yx items ->
     pixelAt maskData (pixelIndex width yx) =
     Some (emitPixel imageData edgeMap backgroundAreas width height colorClusters yx)) ->
  editablePixels st = Analysis.transparentPixels c ->
  protectedPixels st = Analysis.opaquePixels c ->
  backgroundDetected st = editablePixels st ->
  let st' := fold_left (emitStep imageData edgeMap backgroundAreas width height
                          colorClusters) items st in
  let c' := fold_left (fun c yx => Analysis.countStep maskData c (pixelIndex width yx))
              items c in
  editablePixels st' = Analysis.transparentPixels c' /\
  protectedPixels st' = Analysis.opaquePixels c' /\
  backgroundDetected st' = editablePixels st' /\
  editablePixels st' + protectedPixels st' =
    editablePixels st + protectedPixels st + Z.of_nat (length items).
Proof.
  revert st c. induction items as [|[y x] items IH]; intros st c Hpix He Hp Hb; cbn zeta.
  - cbn. repeat split; try assumption. lia.
  - cbn [fold_left length].
    pose proof (Hpix (y, x) ltac:(now left)) as Hyx.
    edestruct (IH (emitStep imageData edgeMap backgroundAreas width height colorClusters
                    st (y, x))
                 (Analysis.countStep maskData c (pixelIndex width (y, x))))
      as (H1 & H2 & H3 & H4).
    + intros yx Hin. apply Hpix. now right.
    + unfold emitStep, emitPixel in *. cbn [fst snd] in *. unfold pixelIndex in *.
      cbn [fst snd] in *.
      destruct (isBackgroundPixel x y (y * width + x) imageData edgeMap backgroundAreas
                  width height colorClusters);
        apply pixelAt_bytes in Hyx as (_ & _ & _ & Ha);
        unfold Analysis.countStep; cbv zeta; rewrite Ha; cbn; lia.
    + unfold emitStep, emitPixel in *. cbn [fst snd] in *. unfold pixelIndex in *.
      cbn [fst snd] in *.
      destruct (isBackgroundPixel x y (y * width + x) imageData edgeMap backgroundAreas
                  width height colorClusters);
        apply pixelAt_bytes in Hyx as (_ & _ & _ & Ha);
        unfold Analysis.countStep; cbv zeta; rewrite Ha; cbn; lia.
    + unfold emitStep. 
      destruct (isBackgroundPixel x y (y * width + x) imageData edgeMap backgroundAreas
                  width height colorClusters); cbn; lia.
    + cbn zeta in H1, H2, H3, H4.
      split; [exact H1|]. split; [exact H2|]. split; [exact H3|].
      rewrite H4. unfold emitStep.
      destruct (isBackgroundPixel x y (y * width + x) imageData edgeMap backgroundAreas
                  width height colorClusters); cbn; lia.
Qed.

End EmissionCounters.

(** The statistics logged by [createBackgroundMask] describe the raw mask: the
    counters [editablePixels] and [protectedPixels] are the numbers of
    transparent and of opaque pixels of [rawMaskData], they add up to
    [width * height], and [backgroundDetected] always equals
    [editablePixels]. *)
Theorem classifier_statistics (numberToString : float -> string)
  (imageData : list Z) (width height : Z) :
  0 <= width -> 0 <= height ->
  editablePixels (classify imageData width height) +
  protectedPixels (classify imageData width height) = width * height /\
  backgroundDetected (classify imageData width height) =
    editablePixels (classify imageData width height) /\
  Analysis.transparent
    (Analysis.transparency
       (Analysis.analyzeMaskDistribution numberToString
          (rawMaskData (classify imageData width height)) width height)) =
    editablePixels (classify imageData width height) /\
  Analysis.opaque
    (Analysis.transparency
       (Analysis.analyzeMaskDistribution numberToString
          (rawMaskData (classify imageData width height)) width height)) =
    protectedPixels (classify imageData width height).
Proof.
  intros Hw Hh.
  unfold Analysis.analyzeMaskDistribution. cbv zeta.
  cbn [Analysis.transparency Analysis.transparent Analysis.opaque].
  unfold Analysis.countPixels.
  rewrite <- (raster_indices width height Hw Hh), fold_left_map.
  set (raw := rawMaskData (classify imageData width height)).
  pose proof (emit_counts imageData (sobelEdgeMap imageData width height)
                (detectBackgroundAreas imageData (sobelEdgeMap imageData width height)
                   width height (analyzeColorClusters imageData width height))
                width height (analyzeColorClusters imageData width height)
                raw (grid (range 0 height) (range 0 width))
                {| rawMaskData := alloc 0 (width * height * 4);
                   protectedPixels := 0; editablePixels := 0; backgroundDetected := 0 |}
                {| Analysis.transparentPixels := 0; Analysis.semiTransparentPixels := 0;
                   Analysis.opaquePixels := 0; Analysis.whitePixels := 0;
                   Analysis.blackPixels := 0 |}) as H.
  cbn zeta in H.
  destruct H as (H1 & H2 & H3 & H4); try reflexivity.
  { intros [y x] Hin. apply in_raster in Hin as [Hy Hx].
    unfold raw, classify, pixelIndex. cbn [fst snd].
    now apply emitMask_pixel. }
  rewrite <- emitMask_fold in H1, H2, H3, H4.
  fold (classify imageData width height) in H1, H2, H3, H4.
  cbn [editablePixels protectedPixels] in H4.
  rewrite length_grid, Nat2Z.inj_mul, !length_range in H4.
  split; [rewrite H4; nia|]. split; [exact H3|]. split; [now rewrite H1|now rewrite H2].
Qed.

Lemma classifier_statistics_witness :
  editablePixels (classify stepImage 4 4) = 12 /\
  protectedPixels (classify stepImage 4 4) = 4 /\
  backgroundDetected (classify stepImage 4 4) = 12 /\
  editablePixels (classify stepImage 4 4) + protectedPixels (classify stepImage 4 4) =
    4 * 4.
Proof.
  split; [vm_compute; reflexivity|]. split; [vm_compute; reflexivity|].
  split; [vm_compute; reflexivity|].
  apply (classifier_statistics (fun _ => "") stepImage 4 4); lia.
Defined.

(** ** The list of CVs *)

Lemma newCV_owner (clock : CvIndex.Clock) (userEmail : string)
  (data : option (gmap string Value)) :
  CvIndex.newCV clock userEmail data !! "userEmail" = Some (VString userEmail).
Proof.
  unfold CvIndex.newCV.
  rewrite lookup_insert_ne by discriminate.
  rewrite lookup_insert_ne by discriminate.
  apply lookup_insert_eq.
Qed.

Lemma ownedBy_newCV (clock : CvIndex.Clock) (owner userEmail : string)
  (data : option (gmap string Value)) :
  CvIndex.ownedBy userEmail (CvIndex.newCV clock owner data) = String.eqb owner userEmail.
Proof. unfold CvIndex.ownedBy. now rewrite newCV_owner. Qed.

Lemma cv_handleAll_cons (clock : CvIndex.Clock) (req : CvIndex.Request)
  (rest : list (CvIndex.Clock * CvIndex.Request)) (mockCVs : list (gmap string Value)) :
  snd (CvIndex.handleAll ((clock, req) :: rest) mockCVs) =
  snd (CvIndex.handleAll rest (snd (CvIndex.handler clock req mockCVs))).
Proof.
  cbn [CvIndex.handleAll]. destruct (CvIndex.handler clock req mockCVs) as [r m'].
  cbn [snd]. destruct (CvIndex.handleAll rest m') as [rs final]. reflexivity.
Qed.

(** What the array holds of a user after a sequence of requests. *)
Lemma cv_store_of (userEmail : string) (requests : list (CvIndex.Clock * CvIndex.Request))
  (mockCVs : list (gmap string Value)) :
  List.filter (CvIndex.ownedBy userEmail) (snd (CvIndex.handleAll requests mockCVs)) =
  List.filter (CvIndex.ownedBy userEmail) mockCVs ++
  map (fun entry => CvIndex.newCV (fst entry) userEmail (CvIndex.body (snd entry)))
    (List.filter (CvIndex.postedBy userEmail) requests).
Proof.
  revert mockCVs. induction requests as [|[clock req] rest IH]; intros mockCVs.
  - cbn. now rewrite app_nil_r.
  - rewrite cv_handleAll_cons, IH. cbn [List.filter].
    unfold CvIndex.handler, CvIndex.postedBy. cbn [fst snd].
    destruct (JsString.truthy (CvIndex.email req)) eqn:Et; cbn [negb andb snd];
      [|reflexivity].
    destruct (String.eqb_spec (CvIndex.method req) "GET") as [Eg|Eg];
      cbn [negb andb snd]; [now rewrite Eg|].
    destruct (String.eqb (CvIndex.method req) "POST"); cbn [negb andb snd];
      [|reflexivity].
    rewrite List.filter_app. cbn [List.filter]. rewrite ownedBy_newCV.
    destruct (String.eqb_spec (JsString.orElse (CvIndex.email req) "") userEmail)
      as [->|Hne].
    + cbn [map fst snd]. now rewrite <- app_assoc.
    + now rewrite app_nil_r.
Qed.

(** The listing is private and complete. After any sequence of requests, a
    [GET] of a signed-in user is answered 200 with exactly the CVs created by
    the [POST] requests of that user, in the order of their creation; each of
    them carries the address of the session under [userEmail], whatever the
    body of the request said. *)
Theorem cv_listing_is_private (requests : list (CvIndex.Clock * CvIndex.Request))
  (clock : CvIndex.Clock) (userEmail : string) (body : option (gmap string Value)) :
  userEmail <> "" ->
  fst (CvIndex.handler clock
         {| CvIndex.method := "GET"; CvIndex.email := Some userEmail;
            CvIndex.body := body |}
         (snd (CvIndex.handleAll requests []))) =
  {| CvIndex.status := 200;
     CvIndex.json :=
       VObject
         (<["success" := VBoolean true]>
            (<["cvs" :=
                 VArray
                   (map VObject
                      (map (fun entry =>
                              CvIndex.newCV (fst entry) userEmail
                                (CvIndex.body (snd entry)))
                         (List.filter (CvIndex.postedBy userEmail) requests)))]> ∅)) |} /\
  Forall (fun cv => cv !! "userEmail" = Some (VString userEmail))
    (map (fun entry =>
            CvIndex.newCV (fst entry) userEmail (CvIndex.body (snd entry)))
       (List.filter (CvIndex.postedBy userEmail) requests)).
Proof.
  intros Hne. split.
  - unfold CvIndex.handler. cbn [CvIndex.email CvIndex.method JsString.truthy].
    assert (E : String.eqb userEmail "" = false) by now apply String.eqb_neq.
    rewrite E. cbn [negb]. cbn [JsString.orElse]. rewrite E.
    change (String.eqb "GET" "GET") with true. cbv iota. cbn [fst].
    unfold CvIndex.reply. do 4 f_equal.
    rewrite cv_store_of. reflexivity.
  - apply List.Forall_forall. intros cv Hin.
    apply in_map_iff in Hin as (entry & <- & _). apply newCV_owner.
Qed.

Lemma cv_listing_is_private_witness :
  fst (CvIndex.handler (at_ 30)
         {| CvIndex.method := "GET"; CvIndex.email := Some "bob@example.org";
            CvIndex.body := None |}
         (snd (CvIndex.handleAll [(at_ 10, aliceCreates); (at_ 20, bobCreates)] []))) =
  {| CvIndex.status := 200;
     CvIndex.json :=
       VObject
         (<["success" := VBoolean true]>
            (<["cvs" :=
                 VArray
                   [VObject
                      (CvIndex.newCV (at_ 20) "bob@example.org"
                         (Some (<["title" := VString "Resume"]> ∅)))]]> ∅)) |}.
Proof.
  destruct (cv_listing_is_private [(at_ 10, aliceCreates); (at_ 20, bobCreates)]
              (at_ 30) "bob@example.org" None) as [H _].
  - discriminate.
  - rewrite H. reflexivity.
Defined.

(** The properties of a new CV. The address of the session and the two dates
    replace whatever the body says under [userEmail], [createdAt] and
    [updatedAt], but an [_id] of the body replaces the identifier made from
    the clock: the identifier of a CV is chosen by the client when the body
    has one, and two CVs created at the same reading of the clock share
    theirs. Every other property is the one of the body. *)
Theorem cv_identifier_from_body (clock : CvIndex.Clock) (req : CvIndex.Request)
  (userEmail : string) (mockCVs : list (gmap string Value)) :
  CvIndex.email req = Some userEmail -> userEmail <> "" ->
  CvIndex.method req = "POST" ->
  exists cv,
    CvIndex.handler clock req mockCVs =
      ({| CvIndex.status := 201;
          CvIndex.json :=
            VObject (<["success" := VBoolean true]> (<["cv" := VObject cv]> ∅)) |},
       mockCVs ++ [cv]) /\
    cv !! "userEmail" = Some (VString userEmail) /\
    cv !! "createdAt" = Some (VDate (CvIndex.created clock)) /\
    cv !! "updatedAt" = Some (VDate (CvIndex.updated clock)) /\
    cv !! "_id" =
      match CvIndex.spread (CvIndex.body req) !! "_id" with
      | Some identifier => Some identifier
      | None => Some (VString (pretty (CvIndex.now clock)))
      end /\
    forall name,
      name <> "_id" -> name <> "userEmail" -> name <> "createdAt" ->
      name <> "updatedAt" ->
      cv !! name = CvIndex.spread (CvIndex.body req) !! name.
Proof.
  intros He Hne Hm.
  exists (CvIndex.newCV clock userEmail (CvIndex.body req)). split.
  - unfold CvIndex.handler. rewrite He, Hm.
    cbn [JsString.truthy JsString.orElse].
    assert (E : String.eqb userEmail "" = false) by now apply String.eqb_neq.
    rewrite E. reflexivity.
  - split; [apply newCV_owner|]. unfold CvIndex.newCV.
    split.
    { rewrite lookup_insert_ne by discriminate. apply lookup_insert_eq. }
    split; [apply lookup_insert_eq|].
    split.
    { rewrite !lookup_insert_ne by discriminate.
      rewrite lookup_union. rewrite lookup_insert_eq.
      destruct (CvIndex.spread (CvIndex.body req) !! "_id"); reflexivity. }
    intros name H1 H2 H3 H4.
    rewrite !lookup_insert_ne by congruence.
    rewrite lookup_union. rewrite lookup_insert_ne by congruence.
    rewrite lookup_empty. now destruct (CvIndex.spread (CvIndex.body req) !! name).
Qed.

Lemma cv_identifier_from_body_witness :
  exists cv,
    snd (CvIndex.handler (at_ 10) aliceCreates []) = [cv] /\
    cv !! "userEmail" = Some (VString "alice@example.org") /\
    cv !! "_id" = Some (VString "ffff").
Proof.
  destruct (cv_identifier_from_body (at_ 10) aliceCreates "alice@example.org" [])
    as (cv & Hh & Hu & _ & _ & Hid & _).
  - reflexivity.
  - discriminate.
  - reflexivity.
  - exists cv. split; [now rewrite Hh|]. split; [exact Hu|]. rewrite Hid.
    vm_compute. reflexivity.
Defined.

(** ** Numbers that are not negative *)

Lemma shr_1_nonneg (mrs : shr_record) : 0 <= shr_m mrs -> 0 <= shr_m (shr_1 mrs).
Proof.
  destruct mrs as [[|[p|p|]|p] r s]; cbn; intros H; lia.
Qed.

Lemma iter_shr_nonneg (p : positive) (mrs : shr_record) :
  0 <= shr_m mrs -> 0 <= shr_m (SpecFloat.iter_pos shr_1 p mrs).
Proof.
  revert mrs. induction p as [p IH|p IH|]; intros mrs H; cbn [SpecFloat.iter_pos].
  - apply IH, IH, shr_1_nonneg, H.
  - apply IH, IH, H.
  - apply shr_1_nonneg, H.
Qed.

Lemma shr_fexp_nonneg (prec emax m e : Z) (l : location) :
  0 <= m -> 0 <= shr_m (fst (shr_fexp prec emax m e l)).
Proof.
  intros H. unfold shr_fexp, shr.
  assert (H0 : 0 <= shr_m (shr_record_of_loc m l)) by (destruct l as [|[| |]]; exact H).
  destruct (fexp prec emax (Zdigits2 m + e) - e); cbn [fst]; try exact H0.
  now apply iter_shr_nonneg.
Qed.

Lemma binary_round_aux_nonneg (prec emax m e : Z) (l : location) :
  0 <= m -> nonnegative (binary_round_aux prec emax false m e l) = true.
Proof.
  intros H. unfold binary_round_aux.
  pose proof (shr_fexp_nonneg prec emax m e l H) as H1.
  destruct (shr_fexp prec emax m e l) as [mrs' e']. cbn [fst] in H1.
  pose proof (rne_bounds (shr_m mrs') (loc_of_shr_record mrs')) as Hr.
  pose proof (shr_fexp_nonneg prec emax
                (round_nearest_even (shr_m mrs') (loc_of_shr_record mrs')) e' loc_Exact
                ltac:(lia)) as H2.
  destruct (shr_fexp prec emax _ e' loc_Exact) as [mrs'' e'']. cbn [fst] in H2.
  destruct (shr_m mrs'') as [|q|q]; [reflexivity| |lia].
  destruct (e'' <=? emax - prec); reflexivity.
Qed.

Lemma binary_round_nonneg (prec emax : Z) (m : positive) (e : Z) :
  nonnegative (binary_round prec emax false m e) = true.
Proof.
  unfold binary_round. destruct (shl_align m e _) as [mz ez].
  apply binary_round_aux_nonneg. lia.
Qed.

Lemma binary_normalize_nonneg (prec emax m e : Z) :
  0 <= m -> nonnegative (binary_normalize prec emax m e false) = true.
Proof.
  intros H. destruct m as [|p|p]; [reflexivity| |lia]. apply binary_round_nonneg.
Qed.

Lemma SFadd_nonneg (prec emax : Z) (x y : spec_float) :
  nonnegative x = true -> nonnegative y = true ->
  nonnegative (SFadd prec emax x y) = true.
Proof.
  destruct x as [[|]|[|]| |[|] mx ex], y as [[|]|[|]| |[|] my ey];
    try discriminate; try reflexivity.
  intros _ _. cbn [SFadd cond_Zopp]. apply binary_normalize_nonneg. lia.
Qed.

Lemma SFdiv_nonneg (prec emax : Z) (x : spec_float) (my : positive) (ey : Z) :
  nonnegative x = true ->
  nonnegative (SFdiv prec emax x (S754_finite false my ey)) = true.
Proof.
  destruct x as [[|]|[|]| |[|] mx ex]; try discriminate; try reflexivity.
  intros _. cbn [SFdiv xorb].
  destruct (SFdiv_core_binary prec emax (Zpos mx) ex (Zpos my) ey) as [[mz ez] lz] eqn:E.
  apply binary_round_aux_nonneg.
  unfold SFdiv_core_binary in E. cbv zeta in E.
  set (s := ex - ey - _) in E.
  set (m' := match s with Z0 => Zpos mx | Zpos _ => Z.shiftl (Zpos mx) s | Zneg _ => 0 end)
    in E.
  assert (Hm' : 0 <= m').
  { unfold m'. destruct s; try lia. apply Z.shiftl_nonneg. lia. }
  pose proof (Z_div_mod m' (Zpos my) ltac:(lia)) as Hdm.
  destruct (Z.div_eucl m' (Zpos my)) as [q r]. injection E as <- _ _.
  destruct Hdm as [Hq Hr]. nia.
Qed.

Lemma SF2Prim_nonneg (f : spec_float) :
  nonnegative f = true -> nonnegative (Prim2SF (SF2Prim f)) = true.
Proof.
  destruct f as [[|]|[|]| |[|] m e]; try discriminate; intros _.
  - vm_compute. reflexivity.
  - vm_compute. reflexivity.
  - unfold SF2Prim. cbv zeta. unfold Z.ldexp. cbv zeta.
    rewrite ldshiftexp_spec, of_uint63_spec.
    pose proof (Uint63.to_Z_bounded (Uint63Axioms.of_Z (Zpos m))) as [H0 _].
    pose proof (binary_normalize_nonneg prec emax
                  (Uint63Axioms.to_Z (Uint63Axioms.of_Z (Zpos m))) 0 H0) as Hn.
    destruct (binary_normalize prec emax _ 0 false) as [[|]|[|]| |[|] m' e'];
      try discriminate; try reflexivity.
    cbn [SFldexp]. apply binary_round_nonneg.
Qed.

Lemma ofZ_nonneg (z : Z) : 0 <= z -> nonnegative (Prim2SF (Js.ofZ z)) = true.
Proof.
  intros H. unfold Js.ofZ. apply SF2Prim_nonneg. now apply binary_normalize_nonneg.
Qed.

Lemma fround_nonneg (x : float) :
  nonnegative (Prim2SF x) = true -> nonnegative (Prim2SF (Js.fround x)) = true.
Proof.
  intros H. unfold Js.fround.
  destruct (Prim2SF x) as [[|]|[|]| |[|] m e] eqn:E; try discriminate;
    try (rewrite E; reflexivity).
  apply SF2Prim_nonneg. cbn [cond_Zopp]. apply binary_normalize_nonneg. lia.
Qed.

Lemma add_nonneg (x y : float) :
  nonnegative (Prim2SF x) = true -> nonnegative (Prim2SF y) = true ->
  nonnegative (Prim2SF (x + y)) = true.
Proof. intros Hx Hy. rewrite add_spec. now apply SFadd_nonneg. Qed.

(** Rounding a bracketed positive number that is at least of the normal
    range: the result is the rounded number, or +infinity. *)
Lemma binary_round_aux_large (X : Q) (p : positive) (ex : Z) (lx : location) :
  bracket X (Zpos p) ex lx ->
  53 <= Zpos (digits2_pos p) ->
  -1074 <= Zpos (digits2_pos p) + ex - 53 ->
  binary_round_aux prec emax false (Zpos p) ex lx = S754_infinity false \/
  roundsTo X (Zpos (digits2_pos p) + ex - 53) (Zpos (digits2_pos p) + ex - 52)
    (binary_round_aux prec emax false (Zpos p) ex lx).
Proof.
  intros Hbr Hdg Hnorm.
  set (dg := Zpos (digits2_pos p)) in *.
  set (c := dg + ex - 53) in *.
  pose proof (bracket_magnitude X p ex lx Hbr) as [Mlo Mhi]. fold dg in Mlo, Mhi.
  assert (Hshr := shr_bracket X (shr_record_of_loc (Zpos p) lx) ex (c - ex)
            ltac:(lia) (bracketRec_of_loc X (Zpos p) ex lx ltac:(lia) Hbr)).
  replace (ex + (c - ex)) with c in Hshr by lia.
  unfold binary_round_aux.
  assert (E1 : shr_fexp prec emax (Zpos p) ex lx =
               shr (shr_record_of_loc (Zpos p) lx) ex (c - ex)).
  { unfold shr_fexp. cbn [Zdigits2]. fold dg. rewrite fexp_normal by lia.
    replace (dg + ex - 53) with c by lia. reflexivity. }
  rewrite E1.
  destruct (shr (shr_record_of_loc (Zpos p) lx) ex (c - ex)) as [mrs' e'].
  cbn [fst snd] in Hshr. destruct Hshr as [-> [Hm1 Hbr1]].
  set (m1 := shr_m mrs') in *. set (l1 := loc_of_shr_record mrs') in *.
  pose proof (bpow_pos c) as HB.
  assert (Hb : 2 ^ 52 <= m1 < 2 ^ 53).
  { destruct Hbr1 as (Hlo & Hhi & _).
    replace (dg - 1 + ex) with (c + 52) in Mlo by lia.
    replace (dg + ex) with (c + 53) in Mhi by lia.
    rewrite bpow_scale in Mlo, Mhi by lia.
    split.
    - assert (2 ^ 52 < m1 + 1); [|lia].
      apply (scaled_lt_inv _ _ (bpow c) HB). lra.
    - apply (scaled_lt_inv _ _ (bpow c) HB). lra. }
  pose proof (rne_bounds m1 l1) as Hr.
  assert (Hrt : forall f,
    f = (if round_nearest_even m1 l1 =? 2 ^ 53
         then S754_finite false (Z.to_pos (2 ^ 52)) (c + 1)
         else S754_finite false (Z.to_pos (round_nearest_even m1 l1)) c) ->
    roundsTo X c (dg + ex - 52) f).
  { intros f ->. exists m1, l1, c.
    split; [exact Hbr1|]. split; [exact Hb|]. split; [lia|].
    split; [unfold c; lia|reflexivity]. }
  set (m2 := round_nearest_even m1 l1) in *.
  destruct (Z.eqb_spec m2 (2 ^ 53)) as [E|E].
  - rewrite E.
    assert (E2 : shr_fexp prec emax (2 ^ 53) c loc_Exact =
                 ({| shr_m := 2 ^ 52; shr_r := false; shr_s := false |}, c + 1)).
    { unfold shr_fexp.
      change (Zdigits2 (2 ^ 53)) with 54.
      rewrite fexp_normal by lia.
      replace (54 + c - 53 - c) with 1 by lia.
      reflexivity. }
    rewrite E2. cbn [shr_m].
    change (2 ^ 52) with (Zpos (Z.to_pos (2 ^ 52))) at 1.
    cbv iota beta.
    destruct (c + 1 <=? emax - prec); [right|now left].
    apply Hrt. reflexivity.
  - destruct m2 as [|q|q] eqn:Em2; try lia.
    assert (Hq : Zpos (digits2_pos q) = 53)
      by (apply digits2_pos_unique; change (53 - 1) with 52; lia).
    assert (E2 : shr_fexp prec emax (Zpos q) c loc_Exact =
                 ({| shr_m := Zpos q; shr_r := false; shr_s := false |}, c)).
    { unfold shr_fexp. cbn [Zdigits2]. rewrite Hq.
      rewrite fexp_normal by lia.
      replace (53 + c - 53 - c) with 0 by lia.
      reflexivity. }
    rewrite E2. cbn [shr_m]. cbv iota beta.
    destruct (c <=? emax - prec); [right|now left].
    apply Hrt. rewrite Pos2Z.id. reflexivity.
Qed.

(** The order of positive normal numbers is the order of their values. *)
Lemma normal_ltb (f g : spec_float) (lo hi lo' hi' : Z) :
  normalPos lo hi f -> normalPos lo' hi' g ->
  (valueOf f < valueOf g)%Q -> SFltb f g = true.
Proof.
  intros (m & e & -> & Hm & _) (m' & e' & -> & Hm' & _) Hlt.
  cbn [valueOf cond_Zopp] in Hlt.
  unfold SFltb. cbn [SFcompare].
  pose proof (bpow_pos e) as HB. pose proof (bpow_pos e') as HB'.
  destruct (Z.compare_spec e e') as [<-|H|H].
  - rewrite Pos.compare_cont_spec. cbn [Pos.switch_Eq].
    assert (Zpos m < Zpos m') by (apply (scaled_lt_inv _ _ (bpow e) HB); exact Hlt).
    destruct (Pos.compare_spec m m') as [->|H1|H1]; [lia|reflexivity|].
    exfalso. apply Pos2Z.pos_lt_pos in H1. lia.
  - reflexivity.
  - exfalso.
    assert (inject_Z (Zpos m') * bpow e' < inject_Z (2 ^ 53) * bpow e')%Q.
    { apply Qmult_lt_compat_r; [exact HB'|]. rewrite <- Zlt_Qlt. lia. }
    assert (inject_Z (2 ^ 52) * bpow e <= inject_Z (Zpos m) * bpow e)%Q
      by (apply scaled_le; [exact HB|lia]).
    assert (bpow (e' + 53) <= bpow (e + 52))%Q by (apply bpow_le; lia).
    rewrite !bpow_scale in * by lia. lra.
Qed.

Lemma shl_align_value (m : positive) (e e' : Z) :
  e' <= e -> Zpos (fst (shl_align m e e')) = Zpos m * 2 ^ (e - e').
Proof.
  intros H. unfold shl_align. destruct (e' - e) as [|d|d] eqn:E; cbn [fst].
  - replace (e - e') with 0 by lia. lia.
  - lia.
  - unfold shift_pos. rewrite iter_xO. f_equal. f_equal. lia.
Qed.

(** Adding a nonnegative number to a number that is at least [v] gives a
    number that is at least [v]: rounding to nearest is monotone. *)
Lemma SFadd_atLeast (v : Q) (a b : spec_float) :
  atLeast v a -> nonnegative b = true -> atLeast v (SF64add a b).
Proof.
  intros [->|(hi & (m & e & -> & Hm & He) & Hv)] Hb.
  - left. destruct b as [[|]|[|]| |[|] my ey]; try discriminate; reflexivity.
  - destruct b as [[|]|[|]| |[|] my ey]; try discriminate.
    + right. exists hi. split; [|exact Hv]. exists m, e. now repeat split.
    + left. reflexivity.
    + cbn [valueOf cond_Zopp] in Hv.
      unfold SF64add, SFadd. cbn [cond_Zopp].
      set (ez := Z.min e ey).
      pose proof (shl_align_value m e ez ltac:(lia)) as HA.
      pose proof (shl_align_value my ey ez ltac:(lia)) as HB.
      assert (Hk : 0 <= e - ez) by lia.
      assert (HP : 0 < 2 ^ (e - ez)) by (apply Z.pow_pos_nonneg; lia).
      destruct (Zpos (fst (shl_align m e ez)) + Zpos (fst (shl_align my ey ez)))
        as [|p|p] eqn:Ep; try lia.
      assert (Hge : Zpos m * 2 ^ (e - ez) <= Zpos p) by lia.
      cbv beta iota delta [binary_normalize binary_round].
      pose proof (digits2_pos_bounds p) as [Dlo Dhi].
      assert (Hdg : 53 + (e - ez) <= Zpos (digits2_pos p)).
      { assert (52 + (e - ez) < Zpos (digits2_pos p)); [|lia].
        apply (Z.pow_lt_mono_r_iff 2); [lia|lia|].
        rewrite Z.pow_add_r by lia. nia. }
      rewrite fexp_normal by lia.
      assert (Es : shl_align p ez (Zpos (digits2_pos p) + ez - 53) = (p, ez)).
      { unfold shl_align.
        destruct (Zpos (digits2_pos p) + ez - 53 - ez) eqn:E; try reflexivity. lia. }
      rewrite Es.
      pose proof (bracket_exact (Zpos p) ez) as Hbr.
      destruct (binary_round_aux_large _ p ez loc_Exact Hbr ltac:(lia) ltac:(lia))
        as [->|Hr]; [now left|right].
      exists (Zpos (digits2_pos p) + ez - 52). split.
      * apply roundsTo_normal in Hr. destruct Hr as (m' & e' & E' & Hm' & He').
        exists m', e'. split; [exact E'|]. split; [exact Hm'|]. lia.
      * apply Qle_trans with (inject_Z (Zpos m) * bpow e)%Q; [exact Hv|].
        refine (roundsTo_monotone (inject_Z (Zpos m) * bpow e)
                  (inject_Z (Zpos p) * bpow ez) e (e + 1) _ _ (S754_finite false m e)
                  _ _ (roundsTo_exact m e e (e + 1) Hm ltac:(lia) ltac:(lia)) Hr).
        replace e with (ez + (e - ez)) at 1 by lia.
        rewrite bpow_scale by lia. rewrite Qmult_assoc, <- inject_Z_mult.
        apply scaled_le; [apply bpow_pos|exact Hge].
Qed.

Lemma atLeast_ltb (v : Q) (c f : spec_float) (lo hi : Z) :
  normalPos lo hi c -> (valueOf c < v)%Q -> atLeast v f -> SFltb c f = true.
Proof.
  intros Hc Hlt [->|(hi' & Hf & Hv)].
  - destruct Hc as (m & e & -> & _). reflexivity.
  - apply (normal_ltb c f lo hi (-1074) hi' Hc Hf). lra.
Qed.

(** ** The classifier on the border of the raster *)

Lemma dominant_frequencies (imageData : list Z) (width height : Z) :
  Forall (fun d => 1 <= frequency d)
    (dominantColors (analyzeColorClusters imageData width height)).
Proof.
  unfold analyzeColorClusters. cbn [dominantColors].
  apply Forall_map. apply Forall_take.
  rewrite sortByCount_perm.
  eapply Forall_impl; [apply sampleColors_keys|].
  intros [k c] H. exact H.
Qed.

Lemma clusterScore_nonneg (imageData : list Z) (colorClusters : ColorClusters) (i : Z)
  (m : positive) (e : Z) :
  Forall (fun d => 1 <= frequency d) (dominantColors colorClusters) ->
  Prim2SF (Js.ofZ (totalSamples colorClusters)) = S754_finite false m e ->
  nonnegative (Prim2SF (clusterScore imageData colorClusters i)) = true.
Proof.
  intros Hall Htotal. unfold clusterScore. cbv zeta.
  generalize (Js.ofByte (get imageData (i * 3))) (Js.ofByte (get imageData (i * 3 + 1)))
    (Js.ofByte (get imageData (i * 3 + 2))).
  intros r g b.
  assert (H0 : nonnegative (Prim2SF 0%float) = true) by reflexivity.
  revert H0. generalize 0%float.
  induction Hall as [|d rest Hd Hrest IH]; intros acc Hacc; cbn [fold_left].
  - exact Hacc.
  - apply IH. destruct (colorDistance r g b d <? 60)%float; [|exact Hacc].
    apply add_nonneg; [exact Hacc|].
    rewrite div_spec, Htotal. apply SFdiv_nonneg. apply ofZ_nonneg. lia.
Qed.

Lemma isBackgroundPixel_score (x y idx : Z) (imageData : list Z)
  (edgeMap backgroundAreas : list float) (width height : Z)
  (colorClusters : ColorClusters) :
  isBackgroundPixel x y idx imageData edgeMap backgroundAreas width height colorClusters =
  (0.5 <? (if (Z.min (Z.min (Z.min x y) (width - x - 1)) (height - y - 1) <? 50)%Z
           then 0.3 else 0) +
          (if Js.entryLt (get edgeMap idx) 25 then 0.4 else 0) +
          Js.ofEntry (get backgroundAreas idx) +
          centerBias width height x y)%float.
Proof. reflexivity. Qed.

(** A pixel near the border whose edge entry is low is classified background
    whenever its colour score and its centre bias are not negative: the first
    two terms already make 0.7. *)
Lemma low_edge_border_score (colorScore bias : float) :
  nonnegative (Prim2SF colorScore) = true -> nonnegative (Prim2SF bias) = true ->
  (0.5 <? 0.3 + 0.4 + colorScore + bias)%float = true.
Proof.
  intros Hc Hb. rewrite ltb_spec, !add_spec.
  set (v := valueOf (SF64add (Prim2SF 0.3) (Prim2SF 0.4))).
  apply (atLeast_ltb v (Prim2SF 0.5) _ (-53) (-53)).
  - exists 4503599627370496%positive, (-53). split; [reflexivity|]. split; lia.
  - vm_compute. reflexivity.
  - apply SFadd_atLeast; [|exact Hb]. apply SFadd_atLeast; [|exact Hc].
    right. exists (-53).
    split; [|apply Qle_refl].
    exists 6305039478318694%positive, (-53). split; [vm_compute; reflexivity|].
    split; lia.
Qed.

Lemma ltb_zero_nonneg (x : float) :
  (0 <? x)%float = true -> nonnegative (Prim2SF x) = true.
Proof.
  rewrite ltb_spec. change (Prim2SF 0) with (S754_zero false).
  destruct (Prim2SF x) as [[|]|[|]| |[|] m e]; cbn; congruence.
Qed.

Lemma near_border (x y : Z) :
  (Z.min (Z.min (Z.min x y) (side - x - 1)) (side - y - 1) <? 50) =
  (if Z.min x (side - x - 1) <? 50 then true else Z.min y (side - y - 1) <? 50).
Proof.
  destruct (Z.ltb_spec (Z.min x (side - x - 1)) 50);
    destruct (Z.ltb_spec (Z.min y (side - y - 1)) 50);
    destruct (Z.ltb_spec (Z.min (Z.min (Z.min x y) (side - x - 1)) (side - y - 1)) 50);
    try reflexivity; lia.
Qed.

Lemma rasterCheck :
  forallb (fun yt => forallb (scoreCheck maxDistance yt) axisTerms) axisTerms = true.
Proof. vm_compute. reflexivity. Qed.

Lemma scoreCheck_raster (x y : Z) :
  0 <= x < side -> 0 <= y < side ->
  scoreCheck maxDistance (axisTerm side y) (axisTerm side x) = true.
Proof.
  intros Hx Hy.
  assert (Hin : forall k, 0 <= k < side -> In (axisTerm side k) axisTerms).
  { intros k Hk. unfold axisTerms. apply in_map, in_range. exact Hk. }
  pose proof (proj1 (forallb_forall _ _) rasterCheck _ (Hin y Hy)) as H.
  exact (proj1 (forallb_forall _ _) H _ (Hin x Hx)).
Qed.

(** At every pixel of the 1024x1024 raster the centre bias is not negative,
    and the border bias and the centre bias alone do not exceed 0.5. *)
Lemma raster_scores (x y : Z) :
  0 <= x < side -> 0 <= y < side ->
  nonnegative (Prim2SF (centerBias side side x y)) = true /\
  (0.5 <? (if (Z.min (Z.min (Z.min x y) (side - x - 1)) (side - y - 1) <? 50)%Z
           then 0.3 else 0) + 0 + 0 + centerBias side side x y)%float = false.
Proof.
  intros Hx Hy. pose proof (scoreCheck_raster x y Hx Hy) as H.
  rewrite near_border.
  unfold centerBias. cbv zeta.
  unfold scoreCheck, axisTerm, maxDistance in H. cbv zeta in H. cbn [fst snd] in H.
  destruct (0 <? _)%float eqn:E in H.
  - split; [now apply ltb_zero_nonneg|]. now apply negb_true_iff.
  - destruct (nonnegative _) in H |- *; [|discriminate H].
    split; [reflexivity|]. now apply negb_true_iff.
Qed.

Lemma sobelEdgeMap_ring (imageData : list Z) (width height x y : Z) :
  0 <= x < width -> 0 <= y < height -> onRing width height x y ->
  get (sobelEdgeMap imageData width height) (y * width + x) = Some 0%float.
Proof.
  intros Hx Hy Hring. unfold onRing in Hring.
  rewrite sobelEdgeMap_store, store_untouched.
  - apply get_alloc. nia.
  - intros [y' x'] Hin Heq. apply in_interior in Hin.
    assert (H : (y', x') = (y, x))
      by (apply (pixelIndex_inj width); simpl; [lia|lia|exact Heq]).
    inversion H; subst. lia.
Qed.

(** An edge entry that is not below the threshold 30 of
    [detectBackgroundAreas] is not below the 25 of [isBackgroundPixel]. *)
Lemma entryLt_threshold (e : option float) :
  Js.entryLt e edgeThreshold = false -> Js.entryLt e 25 = false.
Proof.
  destruct e as [v|]; [|reflexivity]. cbn [Js.entryLt]. unfold edgeThreshold.
  rewrite !ltb_spec.
  change (Prim2SF 30) with (S754_finite false 8444249301319680 (-48)).
  change (Prim2SF 25) with (S754_finite false 7036874417766400 (-48)).
  unfold SFltb.
  destruct (Prim2SF v) as [s|s| |s m e]; cbn [SFcompare]; try exact (fun H => H).
  destruct s; [exact (fun H => H)|].
  destruct (Z.compare e (-48)); try exact (fun H => H).
  rewrite !Pos.compare_cont_spec. unfold Pos.switch_Eq.
  assert (Hc : ~ (8444249301319680 < 7036874417766400)%positive)
    by (intros H; vm_compute in H; discriminate H).
  destruct (Pos.compare_spec m 8444249301319680) as [H1|H1|H1];
    [|intros H; discriminate H|];
    (destruct (Pos.compare_spec m 7036874417766400) as [H2|H2|H2];
     [reflexivity| |reflexivity]); intros _; exfalso; apply Hc.
  - rewrite <- H1. exact H2.
  - exact (Pos.lt_trans _ _ _ H1 H2).
Qed.

(** A pixel less than 50 pixels from the border whose edge entry is below 25
    is classified background, whatever the image. *)
Lemma low_edge_border_background (imageData : list Z) (x y : Z) :
  0 <= x < side -> 0 <= y < side ->
  Z.min (Z.min (Z.min x y) (side - x - 1)) (side - y - 1) < 50 ->
  Js.entryLt (get (sobelEdgeMap imageData side side) (y * side + x)) 25 = true ->
  isBackgroundPixel x y (y * side + x) imageData (sobelEdgeMap imageData side side)
    (detectBackgroundAreas imageData (sobelEdgeMap imageData side side) side side
       (analyzeColorClusters imageData side side))
    side side (analyzeColorClusters imageData side side) = true.
Proof.
  intros Hx Hy Hnear Hedge.
  rewrite isBackgroundPixel_score.
  rewrite detectBackgroundAreas_entry by (unfold side in *; nia).
  rewrite Hedge. apply Z.ltb_lt in Hnear. rewrite Hnear. cbn [Js.ofEntry].
  apply low_edge_border_score.
  - destruct (Js.entryLt _ edgeThreshold); [|reflexivity].
    apply fround_nonneg.
    apply (clusterScore_nonneg _ _ _ 4503599627370496 (-38)).
    + apply dominant_frequencies.
    + reflexivity.
  - now apply raster_scores.
Qed.

(** A pixel whose edge entry is not below 30 is never classified background:
    its colour score was left at zero and the two biases do not exceed 0.5. *)
Lemma strong_edge_foreground (imageData : list Z) (x y : Z) :
  0 <= x < side -> 0 <= y < side ->
  Js.entryLt (get (sobelEdgeMap imageData side side) (y * side + x)) edgeThreshold =
    false ->
  isBackgroundPixel x y (y * side + x) imageData (sobelEdgeMap imageData side side)
    (detectBackgroundAreas imageData (sobelEdgeMap imageData side side) side side
       (analyzeColorClusters imageData side side))
    side side (analyzeColorClusters imageData side side) = false.
Proof.
  intros Hx Hy Hedge.
  rewrite isBackgroundPixel_score.
  rewrite detectBackgroundAreas_entry by (unfold side in *; nia).
  rewrite Hedge, (entryLt_threshold _ Hedge). cbn [Js.ofEntry].
  now apply raster_scores.
Qed.

(** Whatever the image, the classifier takes a pixel of the outermost ring of
    the 1024x1024 raster for background. *)
Lemma ring_is_background (imageData : list Z) (x y : Z) :
  0 <= x < side -> 0 <= y < side -> onRing side side x y ->
  isBackgroundPixel x y (y * side + x) imageData (sobelEdgeMap imageData side side)
    (detectBackgroundAreas imageData (sobelEdgeMap imageData side side) side side
       (analyzeColorClusters imageData side side))
    side side (analyzeColorClusters imageData side side) = true.
Proof.
  intros Hx Hy Hring.
  apply low_edge_border_background; try assumption.
  - unfold onRing in Hring. lia.
  - rewrite (sobelEdgeMap_ring imageData side side x y Hx Hy Hring). reflexivity.
Qed.

Lemma onRingb_spec (width height x y : Z) :
  onRingb width height (y, x) = true <-> onRing width height x y.
Proof.
  unfold onRingb, onRing. cbn [fst snd].
  rewrite !orb_true_iff, !Z.eqb_eq. tauto.
Qed.

Lemma filter_length_le {A : Type} (p q : A -> bool) (l : list A) :
  (forall a, In a l -> p a = true -> q a = true) ->
  (length (List.filter p l) <= length (List.filter q l))%nat.
Proof.
  induction l as [|a l IH]; intros H; cbn [List.filter]; [lia|].
  assert (IH' := IH (fun b Hb => H b (or_intror Hb))).
  pose proof (H a (or_introl eq_refl)) as Ha.
  destruct (p a), (q a); cbn [length]; try lia; discriminate (Ha eq_refl).
Qed.

Section EmissionCount.

Variables (imageData : list Z) (edgeMap backgroundAreas : list float).
Variables (width height : Z) (colorClusters : ColorClusters).

(** The counter of editable pixels counts the pixels classified background. *)
Lemma emit_editable_count (items : list (Z * Z)) (st : MaskState) :
  editablePixels
    (fold_left (emitStep imageData edgeMap backgroundAreas width height colorClusters)
       items st) =
  editablePixels st +
  Z.of_nat (length (List.filter
    (fun yx => isBackgroundPixel (snd yx) (fst yx) (fst yx * width + snd yx) imageData
                 edgeMap backgroundAreas width height colorClusters) items)).
Proof.
  revert st. induction items as [|[y x] items IH]; intros st;
    cbn [fold_left List.filter fst snd]; [cbn; lia|].
  rewrite IH. unfold emitStep.
  destruct (isBackgroundPixel x y (y * width + x) imageData edgeMap backgroundAreas
              width height colorClusters); cbn [editablePixels length]; lia.
Qed.

End EmissionCount.

Lemma ring_size :
  length (List.filter (onRingb side side) (grid (range 0 side) (range 0 side))) =
  4092%nat.
Proof. vm_compute. reflexivity. Qed.

Lemma validateMask_editable (st : MaskState) (width height : Z) :
  1 <= editablePixels st -> ~ In NoBackgroundDetected (validateMask st width height).
Proof.
  intros He. unfold validateMask.
  destruct (Z.eqb_spec (editablePixels st) 0) as [E|_]; [lia|].
  cbn [app]. intros Hin. apply in_app_or in Hin as [Hin|Hin].
  - destruct (protectedPixels st =? 0); [|exact Hin].
    destruct Hin as [Hin|[]]. discriminate Hin.
  - destruct (_ <? _)%float; [|exact Hin].
    destruct Hin as [Hin|[]]. discriminate Hin.
Qed.

(** The cleanup keeps a transparent pixel of the ring. *)
Lemma cleanMaskArtifacts_ring (rawMaskData : list Z) (width height x y : Z) :
  0 <= x < width -> 0 <= y < height -> onRing width height x y ->
  pixelAt rawMaskData (y * width + x) = Some transparent ->
  pixelAt (cleanMaskArtifacts rawMaskData width height) (y * width + x) =
  Some transparent.
Proof.
  intros Hx Hy Hring Hraw. unfold cleanMaskArtifacts.
  rewrite applyEdgeSmoothing_border by assumption.
  rewrite thresholdMask_pixel by nia.
  unfold thresholdPixel.
  unfold pixelAt in Hraw.
  destruct (get rawMaskData ((y * width + x) * 4)) as [r|]; [|discriminate].
  destruct (get rawMaskData ((y * width + x) * 4 + 1)) as [g|]; [|discriminate].
  destruct (get rawMaskData ((y * width + x) * 4 + 2)) as [b|]; [|discriminate].
  destruct (get rawMaskData ((y * width + x) * 4 + 3)) as [al|]; [|discriminate].
  injection Hraw as _ _ _ ->. reflexivity.
Qed.

Lemma createBackgroundMask_classify (imageData : list Z) (width height : Z) :
  0 <= width * height ->
  createBackgroundMask imageData width height =
  Returned (cleanMaskArtifacts (rawMaskData (classify imageData width height))
              width height)
    (validateMask (classify imageData width height) width height).
Proof.
  intros Hn. unfold createBackgroundMask.
  destruct (Z.ltb_spec (width * height) 0) as [H|_]; [lia|reflexivity].
Qed.

(** The border of every mask is editable. For every raster handed to
    [createBackgroundMask] with the 1024x1024 size the route uses, whatever
    its content (a portrait that fills the frame included), the call returns,
    the pixels of the outermost one-pixel ring are transparent in the raw mask
    and in the mask returned, at least the 4092 pixels of that ring are
    counted editable, and the warning that no background was detected is not
    logged. *)
Theorem border_ring_always_editable (imageData : list Z) (x y : Z) :
  0 <= x < side -> 0 <= y < side -> onRing side side x y ->
  exists mask warnings,
    createBackgroundMask imageData side side = Returned mask warnings /\
    pixelAt (rawMaskData (classify imageData side side)) (y * side + x) =
      Some transparent /\
    pixelAt mask (y * side + x) = Some transparent /\
    4092 <= editablePixels (classify imageData side side) /\
    ~ In NoBackgroundDetected warnings.
Proof.
  intros Hx Hy Hring.
  assert (Hraw : pixelAt (rawMaskData (classify imageData side side)) (y * side + x) =
                 Some transparent).
  { unfold classify. rewrite emitMask_pixel by assumption.
    unfold emitPixel. cbn [fst snd].
    rewrite ring_is_background by assumption. reflexivity. }
  assert (Hcount : 4092 <= editablePixels (classify imageData side side)).
  { unfold classify. rewrite emitMask_fold, emit_editable_count.
    cbn [editablePixels].
    apply Z.le_trans with (Z.of_nat (length
      (List.filter (onRingb side side) (grid (range 0 side) (range 0 side))))).
    - rewrite ring_size. apply Z.le_refl.
    - rewrite Z.add_0_l. apply Nat2Z.inj_le, filter_length_le.
      intros [y' x'] Hin Hon. apply in_raster in Hin as [Hy' Hx'].
      apply onRingb_spec in Hon. cbn [fst snd].
      now apply ring_is_background. }
  eexists _, _.
  split; [apply createBackgroundMask_classify; unfold side; lia|].
  split; [exact Hraw|].
  split; [now apply cleanMaskArtifacts_ring|].
  split; [exact Hcount|].
  apply validateMask_editable. lia.
Qed.

Lemma border_ring_always_editable_witness :
  exists mask warnings,
    createBackgroundMask (uniformImage side side 200) side side =
      Returned mask warnings /\
    pixelAt (rawMaskData (classify (uniformImage side side 200) side side))
      (5 * side + 0) = Some transparent /\
    pixelAt mask (5 * side + 0) = Some transparent /\
    4092 <= editablePixels (classify (uniformImage side side 200) side side) /\
    ~ In NoBackgroundDetected warnings.
Proof.
  apply (border_ring_always_editable (uniformImage side side 200) 0 5).
  - unfold side. lia.
  - unfold side. lia.
  - left. reflexivity.
Defined.

(** Strong edges are always protected. For every raster of the 1024x1024 size
    the route uses and every pixel whose entry of the edge map is not below
    the edge threshold 30, the emission loop stores an opaque pixel in the raw
    mask, wherever the pixel lies and whatever the colours of the image are;
    hence at least one pixel is counted protected. *)
Theorem strong_edge_always_protected (imageData : list Z) (x y : Z) :
  0 <= x < side -> 0 <= y < side ->
  Js.entryLt (get (sobelEdgeMap imageData side side) (y * side + x)) edgeThreshold =
    false ->
  pixelAt (rawMaskData (classify imageData side side)) (y * side + x) = Some opaque /\
  1 <= protectedPixels (classify imageData side side).
Proof.
  intros Hx Hy Hedge.
  pose proof (strong_edge_foreground imageData x y Hx Hy Hedge) as Hfg.
  split.
  - unfold classify. rewrite emitMask_pixel by assumption.
    unfold emitPixel. cbn [fst snd]. rewrite Hfg. reflexivity.
  - unfold classify. rewrite emitMask_fold.
    match goal with
    | |- 1 <= protectedPixels (fold_left ?f ?items ?st0) =>
        destruct (emit_counters_mono imageData (sobelEdgeMap imageData side side)
                    (detectBackgroundAreas imageData (sobelEdgeMap imageData side side)
                       side side (analyzeColorClusters imageData side side))
                    side side (analyzeColorClusters imageData side side) items st0)
          as [_ Hmono];
        destruct (Z.eq_dec (protectedPixels (fold_left f items st0)) (protectedPixels st0))
          as [Heq|Hne]; [|cbn [protectedPixels] in Hmono, Hne |- *; lia];
        pose proof (emit_none_protected _ _ _ _ _ _ items st0 Heq (y, x)
                      (proj2 (in_raster side side y x) (conj Hy Hx))) as Hpix
    end.
    unfold emitPixel in Hpix. cbn [fst snd] in Hpix. rewrite Hfg in Hpix.
    discriminate Hpix.
Qed.

Lemma strong_edge_always_protected_witness :
  Js.entryLt (get (sobelEdgeMap splitImage side side) (1 * side + 512)) edgeThreshold =
    false /\
  pixelAt (rawMaskData (classify splitImage side side)) (1 * side + 512) = Some opaque /\
  1 <= protectedPixels (classify splitImage side side).
Proof.
  assert (Hedge : Js.entryLt (get (sobelEdgeMap splitImage side side) (1 * side + 512))
                    edgeThreshold = false).
  { rewrite (sobelEdgeMap_interior splitImage side side 512 1) by (unfold side; lia).
    vm_compute. reflexivity. }
  split; [exact Hedge|].
  apply (strong_edge_always_protected splitImage 512 1);
    [unfold side; lia|unfold side; lia|exact Hedge].
Defined.

(** Smooth areas near the border are always editable. For every raster of the
    1024x1024 size the route uses and every pixel that is less than 50 pixels
    from the border and whose entry of the edge map is below 25, the emission
    loop stores a transparent pixel in the raw mask, whatever the colours of
    the image are. *)
Theorem low_edge_border_always_editable (imageData : list Z) (x y : Z) :
  0 <= x < side -> 0 <= y < side ->
  Z.min (Z.min (Z.min x y) (side - x - 1)) (side - y - 1) < 50 ->
  Js.entryLt (get (sobelEdgeMap imageData side side) (y * side + x)) 25 = true ->
  pixelAt (rawMaskData (classify imageData side side)) (y * side + x) =
  Some transparent.
Proof.
  intros Hx Hy Hnear Hedge.
  unfold classify. rewrite emitMask_pixel by assumption.
  unfold emitPixel. cbn [fst snd].
  rewrite low_edge_border_background by assumption. reflexivity.
Qed.

Lemma low_edge_border_always_editable_witness :
  Js.entryLt (get (sobelEdgeMap splitImage side side) (2 * side + 40)) 25 = true /\
  pixelAt (rawMaskData (classify splitImage side side)) (2 * side + 40) =
  Some transparent.
Proof.
  assert (Hedge : Js.entryLt (get (sobelEdgeMap splitImage side side) (2 * side + 40))
                    25 = true).
  { rewrite (sobelEdgeMap_interior splitImage side side 40 2) by (unfold side; lia).
    vm_compute. reflexivity. }
  split; [exact Hedge|].
  apply (low_edge_border_always_editable splitImage 40 2);
    [unfold side; lia|unfold side; lia|unfold side; lia|exact Hedge].
Defined.

(** ** Sums of quotients by a power of two are exact *)






(** ** The background score map *)










